(** * The VASP calculator of ASE ([vasp.py]): a shallow embedding

    The calculator object is a record, its methods are computations in a
    state-and-exception monad over a world made of the object, a heap of
    [Atoms] objects, the environment variables and the working directory.
    Python text primitives ([str.split], [str.replace], [in], [int],
    [float]) are written out as functions on [string].

    Floating point numbers are embedded as exact rationals ([Q]); rounding
    and the literals [inf] and [nan] are outside the embedding. *)

From Stdlib Require Import ZArith QArith Qabs String Ascii List Lia Bool.
From stdpp Require Import base option list gmap strings pretty.

Local Open Scope string_scope.
Local Open Scope Z_scope.

(** ** Python text primitives *)

Module Py.

(** [str.isspace] on one-byte characters: TAB LF VT FF CR, the four
    separators FS GS RS US, and the blank. *)
Definition is_space (c : ascii) : bool :=
  let n := nat_of_ascii c in
  ((9 <=? n)%nat && (n <=? 13)%nat) || ((28 <=? n)%nat && (n <=? 32)%nat).

Definition cons_token (t : string) (ts : list string) : list string :=
  match t with EmptyString => ts | _ => t :: ts end.

(** The token that starts at the head of [s] (empty when [s] starts with a
    blank) and the tokens after it. *)
Fixpoint split_go (s : string) : string * list string :=
  match s with
  | EmptyString => (EmptyString, [])
  | String c s' =>
      let '(t, ts) := split_go s' in
      if is_space c then (EmptyString, cons_token t ts) else (String c t, ts)
  end.

(** [s.split()]: the maximal runs of non-blank characters. *)
Definition split (s : string) : list string :=
  let '(t, ts) := split_go s in cons_token t ts.

Fixpoint split_on_go (sep : ascii) (s : string) : string * list string :=
  match s with
  | EmptyString => (EmptyString, [])
  | String c s' =>
      let '(t, ts) := split_on_go sep s' in
      if Ascii.eqb c sep then (EmptyString, t :: ts) else (String c t, ts)
  end.

(** [s.split(sep)] for a one-character separator: empty fields are kept and
    the result is never empty. *)
Definition split_on (sep : ascii) (s : string) : list string :=
  let '(t, ts) := split_on_go sep s in t :: ts.

(** [needle in hay] *)
Fixpoint contains (needle hay : string) : bool :=
  String.prefix needle hay ||
  match hay with
  | EmptyString => false
  | String _ hay' => contains needle hay'
  end.

(** [s.replace(old, new)] for a non-empty [old]: occurrences are replaced
    from the left and do not overlap.  [skip] counts the characters of an
    occurrence already replaced that are still to be dropped. *)
Fixpoint replace_go (old new : string) (skip : nat) (s : string) : string :=
  match s with
  | EmptyString => EmptyString
  | String c s' =>
      match skip with
      | S k => replace_go old new k s'
      | O =>
          if String.prefix old s
          then new +:+ replace_go old new (String.length old - 1) s'
          else String c (replace_go old new 0 s')
      end
  end.

Definition replace (old new s : string) : string := replace_go old new 0 s.

(** [sep.join(l)] *)
Definition join (sep : string) (l : list string) : string := String.concat sep l.

Definition lower_ascii (c : ascii) : ascii :=
  let n := nat_of_ascii c in
  if ((65 <=? n)%nat && (n <=? 90)%nat) then ascii_of_nat (n + 32) else c.

(** [s.lower()] on one-byte characters *)
Fixpoint lower (s : string) : string :=
  match s with
  | EmptyString => EmptyString
  | String c s' => String (lower_ascii c) (lower s')
  end.

Fixpoint drop_str (n : nat) (s : string) : string :=
  match n, s with
  | O, _ => s
  | S _, EmptyString => EmptyString
  | S k, String _ s' => drop_str k s'
  end.

(** [s[0:-k]] *)
Definition drop_last (k : nat) (s : string) : string :=
  String.substring 0 (String.length s - k) s.

(** [s.strip()] *)
Fixpoint lstrip (s : string) : string :=
  match s with
  | EmptyString => EmptyString
  | String c s' => if is_space c then lstrip s' else s
  end.

Definition strip (s : string) : string :=
  String.rev (lstrip (String.rev (lstrip s))).

(** *** Numeric literals *)

Definition digit (c : ascii) : option Z :=
  let n := nat_of_ascii c in
  if ((48 <=? n)%nat && (n <=? 57)%nat) then Some (Z.of_nat n - 48) else None.

(** A group of decimal digits in which single underscores may separate two
    digits; [prev] tells whether the previous character was a digit.  The
    result is the value continuing [acc] and the number of digits read. *)
Fixpoint digits_go (prev : bool) (acc : Z) (cnt : nat) (s : string)
  : option (Z * nat) :=
  match s with
  | EmptyString => if prev then Some (acc, cnt) else None
  | String c s' =>
      match digit c with
      | Some d => digits_go true (10 * acc + d) (S cnt) s'
      | None =>
          if Ascii.eqb c "_" && prev then digits_go false acc cnt s' else None
      end
  end.

(** A non-empty digit group. *)
Definition digits (s : string) : option (Z * nat) :=
  match s with
  | EmptyString => None
  | _ => match digits_go false 0 0 s with
         | Some (v, n) => Some (v, n)
         | None => None
         end
  end.

(** A possibly empty digit group. *)
Definition digits_opt (s : string) : option (Z * nat) :=
  match s with
  | EmptyString => Some (0, O)
  | _ => digits s
  end.

(** An optional sign; the result is the factor and the rest. *)
Definition sign (s : string) : Z * string :=
  match s with
  | String "-" s' => (-1, s')
  | String "+" s' => (1, s')
  | _ => (1, s)
  end.

(** [int(s)] in base ten; [None] stands for [ValueError]. *)
Definition int (s : string) : option Z :=
  let '(sg, body) := sign (strip s) in
  match digits body with
  | Some (v, _) => Some (sg * v)
  | None => None
  end.

(** The text before the first character satisfying [p], and the text from
    that character on. *)
Fixpoint break (p : ascii -> bool) (s : string) : string * string :=
  match s with
  | EmptyString => (EmptyString, EmptyString)
  | String c s' =>
      if p c then (EmptyString, s)
      else let '(a, b) := break p s' in (String c a, b)
  end.

Definition is_exp (c : ascii) : bool := Ascii.eqb c "e" || Ascii.eqb c "E".
Definition is_dot (c : ascii) : bool := Ascii.eqb c ".".

(** [m * 10 ^ e] as a rational *)
Definition scale10 (m e : Z) : Q :=
  if 0 <=? e then Qmake (m * 10 ^ e) 1 else Qmake m (Z.to_pos (10 ^ (- e))).

(** [float(s)] for decimal literals: blanks around, a sign, digits with an
    optional fraction (one of the two groups may be empty), an optional
    exponent.  [None] stands for [ValueError]; the literals [inf], [nan]
    are not part of the embedding. *)
Definition float (s : string) : option Q :=
  let '(sg, body) := sign (strip s) in
  let '(mant, ex) := break is_exp body in
  let '(ip, fp) := break is_dot mant in
  let fp' := match fp with String _ r => r | EmptyString => EmptyString end in
  match digits_opt ip, digits_opt fp' with
  | Some (iv, ic), Some (fv, fc) =>
      if (ic + fc =? 0)%nat then None
      else
        let m := sg * (iv * 10 ^ Z.of_nat fc + fv) in
        match ex with
        | EmptyString => Some (scale10 m (- Z.of_nat fc))
        | String _ es =>
            let '(esg, ebody) := sign es in
            match digits ebody with
            | Some (ev, _) => Some (scale10 m (esg * ev - Z.of_nat fc))
            | None => None
            end
        end
  | _, _ => None
  end.

(** [s.upper()] on ASCII text *)
Definition upper_ascii (c : ascii) : ascii :=
  let n := nat_of_ascii c in
  if ((97 <=? n)%nat && (n <=? 122)%nat) then ascii_of_nat (n - 32) else c.

Fixpoint upper (s : string) : string :=
  match s with
  | EmptyString => EmptyString
  | String c s' => String (upper_ascii c) (upper s')
  end.

Definition is_digit (c : ascii) : bool :=
  match digit c with Some _ => true | None => false end.

(** The run of digits at the head of [s] (empty when [s] does not start
    with a digit) and the runs after it. *)
Fixpoint digit_runs_go (s : string) : string * list string :=
  match s with
  | EmptyString => (EmptyString, [])
  | String c s' =>
      let '(t, ts) := digit_runs_go s' in
      if is_digit c then (String c t, ts) else (EmptyString, cons_token t ts)
  end.

(** [re.findall] with the pattern of one or more digits: the maximal runs
    of digits. *)
Definition digit_runs (s : string) : list string :=
  let '(t, ts) := digit_runs_go s in cons_token t ts.

End Py.


(** ** Values, exceptions *)

(** The Python values that parameters, keywords and results hold.  A
    [PStream] is an open writable object, known by its identity. *)
#[warnings="-register-all"]
Inductive pyval :=
| PNone
| PBool (b : bool)
| PInt (z : Z)
| PFloat (q : Q)
| PStr (s : string)
| PList (l : list pyval)
| PTuple (l : list pyval)
| PDict (l : list (string * pyval))
| PPath (s : string)
| PStream (n : nat).

(** The exceptions that the embedded code raises. *)
Inductive exn :=
| CalculatorSetupError (msg : string)
| CalculationFailed (msg : string)
| ReadError (msg : string)
| RuntimeError (msg : string)
| NotImplementedError
| ValueError
| IndexError
| KeyError (key : string)
| TypeError
| AttributeError
| UnboundLocalError (var : string)
| FileNotFoundError (name : string).

(** The outcome of a computation without side effects. *)
Definition result (A : Type) : Type := exn + A.

Abbreviation Ok := (@inr exn _).
Abbreviation Raise := (@inl exn _).

#[global] Instance result_ret : MRet result := fun A a => inr a.
#[global] Instance result_bind : MBind result :=
  fun A B f m => match m with inl e => inl e | inr a => f a end.
#[global] Instance result_fmap : FMap result :=
  fun A B f m => match m with inl e => inl e | inr a => inr (f a) end.

Definition of_option {A} (e : exn) (o : option A) : result A :=
  match o with Some a => Ok a | None => Raise e end.

(** [f] applied from the left to the right, stopping at the first error. *)
Fixpoint mapR {A B} (f : A -> result B) (l : list A) : result (list B) :=
  match l with
  | [] => Ok []
  | x :: l' => y ← f x; ys ← mapR f l'; Ok (y :: ys)
  end.

Fixpoint foldR {A S} (f : S -> A -> result S) (s : S) (l : list A) : result S :=
  match l with
  | [] => Ok s
  | x :: l' => s' ← f s x; foldR f s' l'
  end.

Module PyVal.

(** Truth value of an object in a condition. *)
Definition truthy (v : pyval) : bool :=
  match v with
  | PNone => false
  | PBool b => b
  | PInt z => negb (z =? 0)
  | PFloat q => negb (Qeq_bool q 0)
  | PStr s => negb (String.eqb s "")
  | PList l | PTuple l => match l with [] => false | _ => true end
  | PDict l => match l with [] => false | _ => true end
  | PPath _ | PStream _ => true
  end.

(** Booleans, integers and floats compare by numeric value. *)
Definition number (v : pyval) : option Q :=
  match v with
  | PBool b => Some (if b then 1%Q else 0%Q)
  | PInt z => Some (inject_Z z)
  | PFloat q => Some q
  | _ => None
  end.

Fixpoint assoc {A} (k : string) (l : list (string * A)) : option A :=
  match l with
  | [] => None
  | (k', v) :: l' => if String.eqb k k' then Some v else assoc k l'
  end.

(** [a == b].  Two dictionaries, in which no key stands twice, are equal
    when they are of one size and every entry of the first is an entry of
    the second. *)
Fixpoint eq (a b : pyval) {struct a} : bool :=
  let eq_list :=
    fix go (l m : list pyval) {struct l} : bool :=
      match l, m with
      | [], [] => true
      | x :: l', y :: m' => eq x y && go l' m'
      | _, _ => false
      end in
  match a, b with
  | PNone, PNone => true
  | PStr s, PStr t => String.eqb s t
  | PList l, PList m => eq_list l m
  | PTuple l, PTuple m => eq_list l m
  | PDict l, PDict m =>
      (length l =? length m)%nat &&
      (fix go (l : list (string * pyval)) : bool :=
         match l with
         | [] => true
         | (k, v) :: l' =>
             existsb (fun kw => String.eqb k (fst kw) && eq v (snd kw)) m && go l'
         end) l
  | PPath s, PPath t => String.eqb s t
  | PStream n, PStream k => (n =? k)%nat
  | (PBool _ | PInt _ | PFloat _), (PBool _ | PInt _ | PFloat _) =>
      match number a, number b with
      | Some x, Some y => Qeq_bool x y
      | _, _ => false
      end
  | _, _ => false
  end.

(** [np.any(a != b)] for values that are not arrays. *)
Definition any_ne (a b : pyval) : bool := negb (eq a b).

(** [str(v)]; the text of a value that is neither a string nor a path is
    left to [repr]. *)
Definition str (repr : pyval -> string) (v : pyval) : string :=
  match v with
  | PStr s | PPath s => s
  | _ => repr v
  end.

End PyVal.

(** ** Sequences *)

Module Seq.

(** [l[i]] with the negative indices counting from the end. *)
Definition index {A} (l : list A) (i : Z) : result A :=
  let n := Z.of_nat (length l) in
  let j := if i <? 0 then i + n else i in
  if (0 <=? j) && (j <? n)
  then of_option IndexError (l !! Z.to_nat j)
  else Raise IndexError.

(** [arr[idx]] for an index list: element [k] of the result is
    [arr[idx[k]]]. *)
Definition take {A} (arr : list A) (idx : list Z) : result (list A) :=
  mapR (index arr) idx.

(** [l[i:j]] for [0 <= i <= j] *)
Definition slice {A} (i j : nat) (l : list A) : list A :=
  firstn (j - i) (skipn i l).

End Seq.

(** ** The data model *)

(** Objects live in a heap and are known by their address. *)
Definition loc := positive.

Definition vec3 : Type := Q * Q * Q.

(** An [ase.Atoms] object: the species, position of every site, the cell
    and the periodic-boundary flags. *)
Record Atoms := mkAtoms {
  numbers : list Z;
  positions : list vec3;
  cell : vec3 * vec3 * vec3;
  pbc : bool * bool * bool
}.

(** [len(atoms)] *)
Definition natoms (a : Atoms) : nat := length (numbers a).

(** The parameter dictionaries of [GenerateVaspInput] that
    [_store_param_state] copies, in the order it copies them. *)
Inductive category :=
| Float | Exp | String_ | Int | Input | Bool | ListInt | ListBool | ListFloat
| Dict.

Definition category_name (c : category) : string :=
  match c with
  | Float => "float_params" | Exp => "exp_params" | String_ => "string_params"
  | Int => "int_params" | Input => "input_params" | Bool => "bool_params"
  | ListInt => "list_int_params" | ListBool => "list_bool_params"
  | ListFloat => "list_float_params" | Dict => "dict_params"
  end.

#[global] Instance category_eq_dec : EqDecision category.
Proof. solve_decision. Defined.

(** The part of the calculator that the parent class [GenerateVaspInput]
    owns. *)
Record GenerateVaspInput := mkGVI {
  float_params : gmap string pyval;
  exp_params : gmap string pyval;
  string_params : gmap string pyval;
  int_params : gmap string pyval;
  input_params : gmap string pyval;
  bool_params : gmap string pyval;
  list_int_params : gmap string pyval;
  list_bool_params : gmap string pyval;
  list_float_params : gmap string pyval;
  dict_params : gmap string pyval;
  sort : list Z;
  resort : list Z;
  spinpol : pyval
}.

(** [getattr(self, param_string)] *)
Definition getattr (c : category) (g : GenerateVaspInput) : gmap string pyval :=
  match c with
  | Float => float_params g | Exp => exp_params g | String_ => string_params g
  | Int => int_params g | Input => input_params g | Bool => bool_params g
  | ListInt => list_int_params g | ListBool => list_bool_params g
  | ListFloat => list_float_params g | Dict => dict_params g
  end.

(** What [ase.io.read] makes of [vasprun.xml]: the attached single-point
    calculator. *)
Record XmlCalc := mkXmlCalc {
  xml_results : gmap string pyval;
  xml_spin_polarized : bool;
  xml_fermi_level : pyval
}.

Inductive XmlFile :=
| XmlAbsent
| XmlParseError
| XmlNoCalc
| XmlRead (c : XmlCalc).

(** The files of a working directory that the calculator reads: the lines
    of [OUTCAR] and of [ase-sort.dat], the structure that [ase.io.read]
    makes of [CONTCAR], and [vasprun.xml]. *)
Record Dir := mkDir {
  OUTCAR : option (list string);
  ase_sort_dat : option (list string);
  CONTCAR : option Atoms;
  vasprun_xml : XmlFile
}.

Definition empty_dir : Dir := mkDir None None None XmlAbsent.

(** The calculator object. *)
Record Vasp := mkVasp {
  _atoms : option loc;
  results : gmap string pyval;
  parameters : gmap string pyval;
  gvi : GenerateVaspInput;
  param_state : list (category * gmap string pyval);
  _xml_calc : option XmlCalc;
  directory : string;
  prefix : option string;
  command : pyval;
  _txt : pyval;
  version : pyval;
  converged : pyval;
  old_keywords : gmap string pyval
}.

(** The calculator together with what it shares with its caller and with
    the operating system. *)
Record World := mkWorld {
  self : Vasp;
  heap : gmap loc Atoms;
  fs : gmap string Dir;
  environ : gmap string string;
  executable : string;
  warnings : list string;
  shell : string -> string -> gmap string Dir -> Z * gmap string Dir
}.

(** *** Field updates *)

Definition with_atoms (x : option loc) (v : Vasp) : Vasp :=
  mkVasp x (results v) (parameters v) (gvi v) (param_state v) (_xml_calc v)
    (directory v) (prefix v) (command v) (_txt v) (version v) (converged v)
    (old_keywords v).
Definition with_results (x : gmap string pyval) (v : Vasp) : Vasp :=
  mkVasp (_atoms v) x (parameters v) (gvi v) (param_state v) (_xml_calc v)
    (directory v) (prefix v) (command v) (_txt v) (version v) (converged v)
    (old_keywords v).
Definition with_parameters (x : gmap string pyval) (v : Vasp) : Vasp :=
  mkVasp (_atoms v) (results v) x (gvi v) (param_state v) (_xml_calc v)
    (directory v) (prefix v) (command v) (_txt v) (version v) (converged v)
    (old_keywords v).
Definition with_gvi (x : GenerateVaspInput) (v : Vasp) : Vasp :=
  mkVasp (_atoms v) (results v) (parameters v) x (param_state v) (_xml_calc v)
    (directory v) (prefix v) (command v) (_txt v) (version v) (converged v)
    (old_keywords v).
Definition with_param_state (x : list (category * gmap string pyval)) (v : Vasp)
  : Vasp :=
  mkVasp (_atoms v) (results v) (parameters v) (gvi v) x (_xml_calc v)
    (directory v) (prefix v) (command v) (_txt v) (version v) (converged v)
    (old_keywords v).
Definition with_xml_calc (x : option XmlCalc) (v : Vasp) : Vasp :=
  mkVasp (_atoms v) (results v) (parameters v) (gvi v) (param_state v) x
    (directory v) (prefix v) (command v) (_txt v) (version v) (converged v)
    (old_keywords v).
Definition with_directory (x : string) (v : Vasp) : Vasp :=
  mkVasp (_atoms v) (results v) (parameters v) (gvi v) (param_state v)
    (_xml_calc v) x (prefix v) (command v) (_txt v) (version v) (converged v)
    (old_keywords v).
Definition with_prefix (x : option string) (v : Vasp) : Vasp :=
  mkVasp (_atoms v) (results v) (parameters v) (gvi v) (param_state v)
    (_xml_calc v) (directory v) x (command v) (_txt v) (version v)
    (converged v) (old_keywords v).
Definition with_command (x : pyval) (v : Vasp) : Vasp :=
  mkVasp (_atoms v) (results v) (parameters v) (gvi v) (param_state v)
    (_xml_calc v) (directory v) (prefix v) x (_txt v) (version v) (converged v)
    (old_keywords v).
Definition with_txt (x : pyval) (v : Vasp) : Vasp :=
  mkVasp (_atoms v) (results v) (parameters v) (gvi v) (param_state v)
    (_xml_calc v) (directory v) (prefix v) (command v) x (version v)
    (converged v) (old_keywords v).
Definition with_version (x : pyval) (v : Vasp) : Vasp :=
  mkVasp (_atoms v) (results v) (parameters v) (gvi v) (param_state v)
    (_xml_calc v) (directory v) (prefix v) (command v) (_txt v) x (converged v)
    (old_keywords v).
Definition with_converged (x : pyval) (v : Vasp) : Vasp :=
  mkVasp (_atoms v) (results v) (parameters v) (gvi v) (param_state v)
    (_xml_calc v) (directory v) (prefix v) (command v) (_txt v) (version v) x
    (old_keywords v).
Definition with_old_keywords (x : gmap string pyval) (v : Vasp) : Vasp :=
  mkVasp (_atoms v) (results v) (parameters v) (gvi v) (param_state v)
    (_xml_calc v) (directory v) (prefix v) (command v) (_txt v) (version v)
    (converged v) x.

Definition with_sort (s r : list Z) (g : GenerateVaspInput) : GenerateVaspInput :=
  mkGVI (float_params g) (exp_params g) (string_params g) (int_params g)
    (input_params g) (bool_params g) (list_int_params g) (list_bool_params g)
    (list_float_params g) (dict_params g) s r (spinpol g).
Definition with_spinpol (x : pyval) (g : GenerateVaspInput) : GenerateVaspInput :=
  mkGVI (float_params g) (exp_params g) (string_params g) (int_params g)
    (input_params g) (bool_params g) (list_int_params g) (list_bool_params g)
    (list_float_params g) (dict_params g) (sort g) (resort g) x.
Definition with_dict_params (x : gmap string pyval) (g : GenerateVaspInput)
  : GenerateVaspInput :=
  mkGVI (float_params g) (exp_params g) (string_params g) (int_params g)
    (input_params g) (bool_params g) (list_int_params g) (list_bool_params g)
    (list_float_params g) x (sort g) (resort g) (spinpol g).

Definition with_self (v : Vasp) (w : World) : World :=
  mkWorld v (heap w) (fs w) (environ w) (executable w) (warnings w) (shell w).
Definition with_heap (h : gmap loc Atoms) (w : World) : World :=
  mkWorld (self w) h (fs w) (environ w) (executable w) (warnings w) (shell w).
Definition with_fs (f : gmap string Dir) (w : World) : World :=
  mkWorld (self w) (heap w) f (environ w) (executable w) (warnings w) (shell w).
Definition with_warnings (l : list string) (w : World) : World :=
  mkWorld (self w) (heap w) (fs w) (environ w) (executable w) l (shell w).

(** ** Computations on the world *)

(** A method call: the world after the call, and the value returned or the
    exception raised.  The changes made before an exception is raised
    stay. *)
Definition M (A : Type) : Type := World -> World * result A.

#[global] Instance M_ret : MRet M := fun A a w => (w, Ok a).
#[global] Instance M_bind : MBind M :=
  fun A B f m w =>
    match m w with
    | (w', inl e) => (w', inl e)
    | (w', inr a) => f a w'
    end.

Definition raise {A} (e : exn) : M A := fun w => (w, Raise e).
Definition lift {A} (r : result A) : M A := fun w => (w, r).
Definition get_world : M World := fun w => (w, Ok w).
Definition get_self : M Vasp := fun w => (w, Ok (self w)).
Definition modify_world (f : World -> World) : M unit := fun w => (f w, Ok tt).
Definition modify_self (f : Vasp -> Vasp) : M unit :=
  modify_world (fun w => with_self (f (self w)) w).

(** [warnings.warn(msg)] *)
Definition warn (msg : string) : M unit :=
  modify_world (fun w => with_warnings (warnings w ++ [msg])%list w).

(** ** The parent classes

    [Vasp] inherits from [GenerateVaspInput] and from [Calculator], whose
    code is in other modules of ASE.  Their methods are the fields of a
    class; [GenerateVaspInput] methods act on the part of the object that
    this parent owns, and the [Calculator] methods used here read or
    write the [parameters] dictionary and the Result Mapping only. *)
Class Parent := {
  (** [ase.__version__] *)
  ase_version : string;
  (** [str(v)] for a value that is not a string *)
  repr : pyval -> string;
  (** [Calculator.set] with the keywords [kwargs] on the [parameters] dictionary: the changed
      parameters and the dictionary afterwards *)
  Calculator_set :
    gmap string pyval -> gmap string pyval ->
    result (gmap string pyval * gmap string pyval);
  (** the setter of [Calculator.label]: the directory and the prefix *)
  Calculator_label : pyval -> result (string * option string);
  (** [Calculator.get_property(name, allow_calculation)], given the Result
      Mapping *)
  get_property : gmap string pyval -> string -> bool -> result pyval;
  (** [Calculator.get_potential_energy(force_consistent)] *)
  get_potential_energy : gmap string pyval -> bool -> result pyval;
  (** [GenerateVaspInput.set] with the keywords [kwargs] *)
  GenerateVaspInput_set :
    gmap string pyval -> GenerateVaspInput -> result GenerateVaspInput;
  (** [GenerateVaspInput.initialize(atoms)] *)
  initialize : Atoms -> GenerateVaspInput -> result GenerateVaspInput;
  (** [GenerateVaspInput.write_input(atoms, directory)] on the files of the
      directory *)
  GenerateVaspInput_write_input :
    Atoms -> GenerateVaspInput -> Dir -> result Dir;
  (** [ase.db.row.atoms2dict] and [AtomsRow(dct).toatoms()] *)
  atoms2dict : Atoms -> pyval;
  toatoms : pyval -> result Atoms
}.

(** ** Change detection in the parent class *)

Module Calculator.

(** [|x - y| <= tol] *)
Definition close (tol x y : Q) : bool := Qle_bool (Qabs (x - y)) tol.

Definition close3 (tol : Q) (u v : vec3) : bool :=
  let '(u1, u2, u3) := u in
  let '(v1, v2, v3) := v in
  close tol u1 v1 && close tol u2 v2 && close tol u3 v3.

(** Two arrays of vectors of the same shape whose coordinates are close in
    every place. *)
Fixpoint close_rows (tol : Q) (l m : list vec3) : bool :=
  match l, m with
  | [], [] => true
  | u :: l', v :: m' => close3 tol u v && close_rows tol l' m'
  | _, _ => false
  end.

Definition rows (c : vec3 * vec3 * vec3) : list vec3 :=
  let '(a, b, c) := c in [a; b; c].

Definition all_changes : list string := ["positions"; "cell"; "numbers"; "pbc"].

(** Modelled from the spec: [Calculator.check_state], of the parent class
    in [ase.calculators.calculator], is not in this module.  It compares
    position, cell, species and boundary flags with the last-used
    structure, the coordinates within the tolerance (a category is changed
    when some absolute difference exceeds it); without a last-used
    structure every category is changed. *)
Definition check_state (last : option Atoms) (atoms : Atoms) (tol : Q)
  : list string :=
  match last with
  | None => all_changes
  | Some old =>
      (if close_rows tol (positions old) (positions atoms) then [] else ["positions"]) ++
      (if close_rows tol (rows (cell old)) (rows (cell atoms)) then [] else ["cell"]) ++
      (if bool_decide (numbers old = numbers atoms) then [] else ["numbers"]) ++
      (if bool_decide (pbc old = pbc atoms) then [] else ["pbc"])
  end.

End Calculator.

(** ** The methods of [Vasp] *)

Section Vasp.

Context `{Parent}.

(** [env_commands] *)
Definition env_commands : list string :=
  ["ASE_VASP_COMMAND"; "VASP_COMMAND"; "VASP_SCRIPT"].

Definition setup_msg : string :=
  "Please set either command in calculator or one of the following environment variables (prioritized as follows): "
  +:+ Py.join ", " env_commands.

(** The loop of [make_command] over the environment commands, with its
    [else] clause. *)
Fixpoint search_env (envs : list string) (environ : gmap string string)
    (prefix : option string) (exe : string) : result pyval :=
  match envs with
  | [] => Raise (CalculatorSetupError setup_msg)
  | env :: envs' =>
      match environ !! env with
      | Some value =>
          match prefix with
          | None => Raise TypeError
          | Some p =>
              let cmd := Py.replace "PREFIX" p value in
              if String.eqb env "VASP_SCRIPT"
              then Ok (PStr (Py.join " " [exe; cmd]))
              else Ok (PStr cmd)
          end
      | None => search_env envs' environ prefix exe
      end
  end.

Definition make_command (command : pyval) : M pyval :=
  w ← get_world;
  if PyVal.truthy command then mret command
  else lift (search_env env_commands (environ w) (prefix (self w)) (executable w)).

(** The setter of [txt] *)
Definition set_txt (txt : pyval) : M unit :=
  modify_self (with_txt match txt with PPath s => PStr s | _ => txt end).

Definition clear_results : M unit :=
  modify_self (fun v => with_xml_calc None (with_results ∅ v)).

(** [atoms.copy()]: a new object with the same content. *)
Definition deref (l : loc) : M Atoms :=
  w ← get_world; lift (of_option AttributeError (heap w !! l)).

Definition alloc (a : Atoms) : M loc :=
  w ← get_world;
  let l := fresh (dom (heap w)) in
  modify_world (with_heap (<[l := a]> (heap w)));; mret l.

Definition copy (l : loc) : M loc := a ← deref l; alloc a.

(** The helper [compare_dict] of [check_state] *)
Definition compare_dict (d1 d2 : gmap string pyval) : bool :=
  if bool_decide (dom d1 ≠ dom d2) then false
  else
    forallb (fun '(key, value) =>
               match d2 !! key with
               | Some value2 => negb (PyVal.any_ne value value2)
               | None => false
               end) (map_to_list d1).

(** [tol=1e-15] *)
Definition default_tol : Q := 1 # (10 ^ 15).

(** The loop of [check_state] over the stored parameter state: the names
    of the dictionaries that differ from their copy. *)
Definition changed_params (g : GenerateVaspInput)
    (state : list (category * gmap string pyval)) : list string :=
  omap (fun '(c, old_dict) =>
          if compare_dict (getattr c g) old_dict then None
          else Some (category_name c)) state.

Definition check_state (atoms : loc) (tol : Q) : M (list string) :=
  a ← deref atoms;
  w ← get_world;
  let v := self w in
  let last := _atoms v ≫= fun l => heap w !! l in
  let system_changes := Calculator.check_state last a tol in
  mret (system_changes ++ changed_params (gvi v) (param_state v))%list.

(** The dictionary of copies that [_store_param_state] builds. *)
Definition snapshot (g : GenerateVaspInput) : list (category * gmap string pyval) :=
  [(Float, float_params g); (Exp, exp_params g);
   (String_, string_params g); (Int, int_params g);
   (Input, input_params g); (Bool, bool_params g);
   (ListInt, list_int_params g); (ListBool, list_bool_params g);
   (ListFloat, list_float_params g); (Dict, dict_params g)].

Definition _store_param_state : M unit :=
  modify_self (fun v => with_param_state (snapshot (gvi v)) v).

(** The setter of [atoms] *)
Definition set_atoms (atoms : option loc) : M unit :=
  match atoms with
  | None => modify_self (with_atoms None);; clear_results
  | Some l =>
      changes ← check_state l default_tol;
      (match changes with [] => mret tt | _ => clear_results end);;
      l' ← copy l;
      modify_self (with_atoms (Some l'))
  end.

Definition reset : M unit := set_atoms None;; clear_results.

(** The keywords that [set] takes for itself. *)
Definition own_keywords : list string :=
  ["label"; "directory"; "txt"; "atoms"; "command"].

Definition pop_all (keys : list string) (kwargs : gmap string pyval)
  : gmap string pyval :=
  foldr delete kwargs keys.

(** [set] with the keywords [kwargs].  The keyword [atoms] is the one that carries an object:
    [atoms_kw] is [Some None] for [atoms=None] and [Some (Some l)] for the
    [Atoms] object at [l].  An [atoms] entry in [kwargs] itself is a value
    that is no [Atoms] object. *)
Definition set (atoms_kw : option (option loc)) (kwargs : gmap string pyval)
  : M unit :=
  match kwargs !! "label" with
  | Some label =>
      '(d, p) ← lift (Calculator_label label);
      modify_self (fun v => with_prefix p (with_directory d v))
  | None => mret tt
  end;;
  match kwargs !! "directory" with
  | Some d => modify_self (with_directory (PyVal.str repr d))
  | None => mret tt
  end;;
  match kwargs !! "txt" with
  | Some txt => set_txt txt
  | None => mret tt
  end;;
  match atoms_kw, kwargs !! "atoms" with
  | Some atoms, _ => set_atoms atoms
  | None, Some PNone => set_atoms None
  | None, Some _ => raise AttributeError
  | None, None => mret tt
  end;;
  match kwargs !! "command" with
  | Some c => modify_self (with_command c)
  | None => mret tt
  end;;
  let kwargs := pop_all own_keywords kwargs in
  v ← get_self;
  '(changed_parameters, parameters') ← lift (Calculator_set kwargs (parameters v));
  modify_self (with_parameters parameters');;
  (if bool_decide (changed_parameters ≠ ∅) then clear_results else mret tt);;
  if bool_decide (kwargs ≠ ∅) then
    v ← get_self;
    g ← lift (GenerateVaspInput_set kwargs (gvi v));
    modify_self (with_gvi g);;
    modify_self (with_results ∅)
  else mret tt.

(** *** Files of the working directory *)

(** [str(self._indir(filename))] *)
Definition _indir (directory filename : string) : string :=
  if String.eqb directory "." then filename
  else directory +:+ "/" +:+ filename.

Definition get_dir : M (option Dir) :=
  w ← get_world; mret (fs w !! directory (self w)).

(** [load_file('OUTCAR')] *)
Definition load_file_OUTCAR : M (list string) :=
  d ← get_dir;
  v ← get_self;
  lift (of_option (FileNotFoundError (_indir (directory v) "OUTCAR"))
          (d ≫= OUTCAR)).

(** The start of every reader: [if not lines: lines = self.load_file('OUTCAR')] *)
Definition lines_or_OUTCAR (lines : option (list string)) : M (list string) :=
  match lines with
  | Some (l :: ls) => mret (l :: ls)
  | _ => load_file_OUTCAR
  end.

(** [ase.io.read] of [CONTCAR] *)
Definition read_CONTCAR : M Atoms :=
  d ← get_dir;
  v ← get_self;
  lift (of_option (FileNotFoundError (_indir (directory v) "CONTCAR"))
          (d ≫= CONTCAR)).

(** *** The sort index *)

Definition append_sort (x : Z) : M unit :=
  modify_self (fun v => with_gvi (with_sort (sort (gvi v) ++ [x])%list (resort (gvi v)) (gvi v)) v).
Definition append_resort (x : Z) : M unit :=
  modify_self (fun v => with_gvi (with_sort (sort (gvi v)) (resort (gvi v) ++ [x])%list (gvi v)) v).

(** The body of the loop of [read_sort] over the lines of the file. *)
Definition read_sort_line (line : string) : M unit :=
  match Py.split line with
  | [sort; resort] =>
      x ← lift (of_option ValueError (Py.int sort));
      append_sort x;;
      y ← lift (of_option ValueError (Py.int resort));
      append_resort y
  | _ => raise ValueError
  end.

Fixpoint for_each {A} (l : list A) (body : A -> M unit) : M unit :=
  match l with
  | [] => mret tt
  | x :: l' => body x;; for_each l' body
  end.

Definition read_sort : M unit :=
  d ← get_dir;
  match d ≫= ase_sort_dat with
  | Some fd =>
      modify_self (fun v => with_gvi (with_sort [] [] (gvi v)) v);;
      for_each fd read_sort_line
  | None =>
      atoms ← read_CONTCAR;
      v ← get_self;
      g ← lift (initialize atoms (gvi v));
      modify_self (with_gvi g)
  end.

(** *** Scalars of the log *)

(** [l[-1]] and [l[-2]] *)
Definition last_item {A} (l : list A) : result A := Seq.index l (-1).

Definition to_float (s : string) : result Q := of_option ValueError (Py.float s).
Definition to_int (s : string) : result Z := of_option ValueError (Py.int s).

Definition read_relaxed (lines : option (list string)) : M bool :=
  lines ← lines_or_OUTCAR lines;
  mret (existsb (Py.contains "reached required accuracy") lines).

(** The repair of the second number of an energy-change line. *)
Definition fix_exponent (b : string) : string :=
  if negb (Py.contains "e" (Py.lower b)) then
    let bsplit := Py.split_on "-" b in
    let bsplit :=
      match reverse bsplit with
      | lst :: front => reverse (("e" +:+ lst) :: front)
      | [] => bsplit
      end in
    Py.replace "-e" "e-" (Py.join "-" bsplit)
  else b.

(** [[abs(a), abs(b)] < [ediff, ediff]]: the order of lists is decided at
    the first place where they differ. *)
Definition pair_lt (a b ediff : Q) : bool :=
  if negb (Qeq_bool (Qabs a) ediff) then negb (Qle_bool ediff (Qabs a))
  else if negb (Qeq_bool (Qabs b) ediff) then negb (Qle_bool ediff (Qabs b))
  else false.

(** The two numbers [a] and [b] of an energy-change line. *)
Definition energy_change_pair (line : string) : result (Q * Q) :=
  let split := Py.split_on ":" line in
  s1 ← Seq.index split 1;
  a0 ← Seq.index (Py.split_on "(" s1) 0;
  a ← to_float a0;
  b0 ← Seq.index (Py.split_on "(" s1) 1;
  b ← to_float (fix_exponent (Py.drop_last 2 b0));
  Ok (a, b).

(** One line of the first loop of [read_convergence]; the state is the
    variable [ediff], unbound before the first threshold line, and
    [converged]. *)
Definition electronic_step (st : option Q * pyval) (line : string)
  : result (option Q * pyval) :=
  let '(ediff, converged) := st in
  ediff ←
    (if Py.contains "EDIFF  " line
     then x ← Seq.index (Py.split line) 2; q ← to_float x; Ok (Some q)
     else Ok ediff);
  if Py.contains "total energy-change" line then
    if Py.contains "MIXING" line then Ok (ediff, converged)
    else
      ab ← energy_change_pair line;
      e ← of_option (UnboundLocalError "ediff") ediff;
      Ok (ediff, PBool (pair_lt (fst ab) (snd ab) e))
  else Ok (ediff, converged).

Definition electronic_convergence (lines : list string) : result pyval :=
  snd <$> foldR electronic_step (None, PNone) lines.

Definition lookup_key (d : gmap string pyval) (key : string) : result pyval :=
  of_option (KeyError key) (d !! key).

(** [ibrion in [1, 2, 3] and nsw not in [0]] *)
Definition relaxation_requested (int_params : gmap string pyval) : result bool :=
  ibrion ← lookup_key int_params "ibrion";
  if PyVal.eq ibrion (PInt 1) || PyVal.eq ibrion (PInt 2) || PyVal.eq ibrion (PInt 3)
  then nsw ← lookup_key int_params "nsw"; Ok (negb (PyVal.eq nsw (PInt 0)))
  else Ok false.

Definition read_convergence (lines : option (list string)) : M pyval :=
  lines ← lines_or_OUTCAR lines;
  converged ← lift (electronic_convergence lines);
  v ← get_self;
  requested ← lift (relaxation_requested (int_params (gvi v)));
  if (requested : bool) then
    relaxed ← read_relaxed None;
    if negb (relaxed : bool) then mret (PBool false) else mret (PBool true)
  else mret converged.

(** The loop of [read_version] *)
Fixpoint find_version (lines : list string) : result pyval :=
  match lines with
  | [] => Ok PNone
  | line :: lines' =>
      if Py.contains " vasp." line
      then x ← Seq.index (Py.split (Py.drop_str 6 line)) 0; Ok (PStr x)
      else find_version lines'
  end.

Definition read_version : M pyval :=
  d ← get_dir;
  match d ≫= OUTCAR with
  | None => mret PNone
  | Some lines => lift (find_version lines)
  end.

Definition get_version : M pyval :=
  v ← get_self;
  match version v with
  | PNone => x ← read_version; modify_self (with_version x);; mret x
  | x => mret x
  end.

Definition strip_warnings (line : string) : result string :=
  match line with
  | EmptyString => Raise IndexError
  | String c _ => if Ascii.eqb c "|" then Ok EmptyString else Ok line
  end.

Fixpoint find_nbands (lines : list string) : result pyval :=
  match lines with
  | [] => Ok PNone
  | line :: lines' =>
      line ← strip_warnings line;
      if Py.contains "NBANDS" line
      then x ← last_item (Py.split line); n ← to_int x; Ok (PInt n)
      else find_nbands lines'
  end.

Definition read_nbands (lines : option (list string)) : M pyval :=
  lines ← lines_or_OUTCAR lines; lift (find_nbands lines).

Definition floats (l : list Q) : pyval := PList (PFloat <$> l).

Definition dipole_step (dipolemoment : pyval) (line : string) : result pyval :=
  if Py.contains "dipolmoment" line
  then floats <$> mapR to_float (Seq.slice 1 4 (Py.split line))
  else Ok dipolemoment.

Definition read_dipole (lines : option (list string)) : M pyval :=
  lines ← lines_or_OUTCAR lines;
  lift (foldR dipole_step (PList [floats [0%Q; 0%Q; 0%Q]]) lines).

(** *** Per-atom arrays of the log *)

(** [len(self.atoms)] *)
Definition len_atoms : M nat :=
  v ← get_self;
  match _atoms v with
  | None => raise TypeError
  | Some l => a ← deref l; mret (natoms a)
  end.

Definition rows_val (rows : list (list Q)) : pyval := PList (floats <$> rows).

(** The block of forces under the header at line [n], one row per site in
    the order of the external program. *)
Definition forces_at (lines : list string) (n natoms : nat)
  : result (list (list Q)) :=
  mapR (fun i =>
          line ← of_option IndexError (lines !! (n + 2 + i)%nat);
          mapR to_float (Seq.slice 3 6 (Py.split line)))
       (seq 0 natoms).

(** One turn of the loop of [read_forces]; the state is the variable
    [forces], unbound before the first block, and [all_forces]. *)
Definition forces_step (all : bool) (resort : list Z) (lines : list string)
    (natoms : result nat)
    (st : option (list (list Q)) * list (list (list Q))) (nl : nat * string)
  : result (option (list (list Q)) * list (list (list Q))) :=
  let '(forces, all_forces) := st in
  let '(n, line) := nl in
  if Py.contains "TOTAL-FORCE" line then
    k ← natoms;
    forces ← forces_at lines n k;
    if all then
      r ← Seq.take forces resort;
      Ok (Some forces, (all_forces ++ [r])%list)
    else Ok (Some forces, all_forces)
  else Ok (forces, all_forces).

Definition enumerate {A} (l : list A) : list (nat * A) :=
  zip (seq 0 (length l)) l.

(** The variable [forces] at the end of the loop of [read_forces]: the last
    block of the log, in the order of the external program. *)
Definition last_forces (lines : list string) (natoms : result nat)
  : result (option (list (list Q))) :=
  fst <$> foldR (forces_step false [] lines natoms) (None, []) (enumerate lines).

Definition read_forces_pure (all : bool) (resort : list Z)
    (lines : list string) (natoms : result nat) : result pyval :=
  st ← foldR (forces_step all resort lines natoms) (None, []) (enumerate lines);
  let '(forces, all_forces) := st in
  if all then Ok (PList (rows_val <$> all_forces))
  else
    forces ← of_option (UnboundLocalError "forces") forces;
    r ← Seq.take forces resort;
    Ok (rows_val r).

Definition run_pure {A} (m : M A) : M (result A) :=
  fun w => (w, Ok (snd (m w))).

Definition read_forces (all : bool) (lines : option (list string)) : M pyval :=
  lines ← lines_or_OUTCAR lines;
  v ← get_self;
  natoms ← run_pure len_atoms;
  lift (read_forces_pure all (resort (gvi v)) lines natoms).

(** The index of the last line that holds [magstr], or [-1]. *)
Definition last_index (magstr : string) (lines : list string) : Z :=
  foldl (fun nidx '(n, line) =>
           if Py.contains magstr line then Z.of_nat n else nidx)
        (-1) (enumerate lines).

(** The array [magnetic_moments] of [_read_magnetic_moments] before it is
    indexed: zeros, or the moments of the last block, one per site in the
    order of the external program. *)
Definition raw_magnetic_moments (lines : list string) (natoms : nat)
  : result (list Q) :=
  let nidx := last_index "magnetization (x)" lines in
  if -1 <? nidx then
    mapR (fun m =>
            line ← of_option IndexError (lines !! (Z.to_nat nidx + m + 4)%nat);
            x ← Seq.index (Py.split line) 4;
            to_float x)
         (seq 0 natoms)
  else Ok (replicate natoms 0%Q).

Definition _read_magnetic_moments (lines : option (list string))
  : M (list Q) :=
  lines ← lines_or_OUTCAR lines;
  n ← len_atoms;
  magnetic_moments ← lift (raw_magnetic_moments lines n);
  v ← get_self;
  lift (Seq.take magnetic_moments (resort (gvi v))).

Definition magnetic_moment_step (magnetic_moment : option Q) (line : string)
  : result (option Q) :=
  if Py.contains "number of electron  " line
  then x ← last_item (Py.split line); q ← to_float x; Ok (Some q)
  else Ok magnetic_moment.

Definition _read_magnetic_moment (lines : option (list string)) : M Q :=
  lines ← lines_or_OUTCAR lines;
  magnetic_moment ← lift (foldR magnetic_moment_step None lines);
  lift (of_option (UnboundLocalError "magnetic_moment") magnetic_moment).

Definition no_magmoms_warning : string :=
  "Magnetic moment data not written in OUTCAR (LORBIT<10), setting magnetic_moments to zero." +:+
  String "010" "Set LORBIT>=10 to get information on magnetic moments".

(** [(p['lorbit'] is not None and p['lorbit'] >= 10) or
     (p['lorbit'] is None and q['rwigs'])] *)
Definition moments_written (p q : gmap string pyval) : result bool :=
  lorbit ← lookup_key p "lorbit";
  match lorbit with
  | PNone => rwigs ← lookup_key q "rwigs"; Ok (PyVal.truthy rwigs)
  | _ =>
      match PyVal.number lorbit with
      | Some x => Ok (Qle_bool 10 x)
      | None => Raise TypeError
      end
  end.

Definition read_mag (lines : option (list string)) : M (Q * list Q) :=
  lines ← lines_or_OUTCAR lines;
  v ← get_self;
  let p := int_params (gvi v) in
  let q := list_float_params (gvi v) in
  if PyVal.truthy (spinpol (gvi v)) then
    magnetic_moment ← _read_magnetic_moment (Some lines);
    written ← lift (moments_written p q);
    if (written : bool) then
      magnetic_moments ← _read_magnetic_moments (Some lines);
      mret (magnetic_moment, magnetic_moments)
    else
      warn no_magmoms_warning;;
      n ← len_atoms;
      mret (magnetic_moment, replicate n 0%Q)
  else
    n ← len_atoms;
    mret (0%Q, replicate n 0%Q).

(** *** Reading the results *)

Definition dquote : string := String (ascii_of_nat 34) EmptyString.

Definition incomplete_msg (file : string) : string :=
  "The file " +:+ dquote +:+ file +:+ dquote +:+
  " is incomplete, and no DFT data was available. " +:+
  "This is likely due to an incomplete calculation.".

Definition _read_xml : M XmlCalc :=
  d ← get_dir;
  v ← get_self;
  let file := _indir (directory v) "vasprun.xml" in
  match from_option vasprun_xml XmlAbsent d with
  | XmlAbsent => raise (FileNotFoundError file)
  | XmlParseError | XmlNoCalc => raise (ReadError (incomplete_msg file))
  | XmlRead c => modify_self (with_xml_calc (Some c));; mret c
  end.

(** The property [_xml_calc] *)
Definition get_xml_calc : M XmlCalc :=
  v ← get_self;
  match _xml_calc v with
  | None => raise (RuntimeError
      "vasprun.xml data has not yet been loaded. Run read_results() first.")
  | Some c => mret c
  end.

Definition update_results (new : gmap string pyval) : M unit :=
  modify_self (fun v => with_results (new ∪ results v) v).

Definition set_old_keyword (name : string) (x : pyval) : M unit :=
  modify_self (fun v => with_old_keywords (<[name := x]> (old_keywords v)) v).

Definition _set_old_keywords : M unit :=
  c ← get_xml_calc;
  modify_self (fun v => with_gvi (with_spinpol (PBool (xml_spin_polarized c)) (gvi v)) v);;
  v ← get_self;
  x ← lift (get_potential_energy (results v) true);
  set_old_keyword "energy_free" x;;
  x ← lift (get_potential_energy (results v) false);
  set_old_keyword "energy_zero" x;;
  x ← lift (get_property (results v) "forces" true);
  set_old_keyword "forces" x;;
  c ← get_xml_calc;
  set_old_keyword "fermi" (xml_fermi_level c);;
  x ← lift (get_property (results v) "dipole" true);
  set_old_keyword "dipole" x;;
  x ← lift (get_property (results v) "stress" false);
  set_old_keyword "stress" x;;
  set_old_keyword "nbands" (default PNone (results v !! "nbands")).

(** [xml_results['forces'][self.resort]] *)
Definition resort_forces (forces : pyval) (resort : list Z) : result pyval :=
  match forces with
  | PList rows => PList <$> Seq.take rows resort
  | _ => Raise TypeError
  end.

Definition read_results : M unit :=
  outcar ← load_file_OUTCAR;
  calc_xml ← _read_xml;
  let xml_results := xml_results calc_xml in
  v ← get_self;
  forces ← lift (lookup_key xml_results "forces");
  forces ← lift (resort_forces forces (resort (gvi v)));
  let xml_results := <["forces" := forces]> xml_results in
  modify_self (with_xml_calc
    (Some (mkXmlCalc xml_results (xml_spin_polarized calc_xml)
             (xml_fermi_level calc_xml))));;
  update_results xml_results;;
  converged ← read_convergence (Some outcar);
  modify_self (with_converged converged);;
  version ← read_version;
  modify_self (with_version version);;
  '(magmom, magmoms) ← read_mag (Some outcar);
  dipole ← read_dipole (Some outcar);
  nbands ← read_nbands (Some outcar);
  update_results
    (<["magmom" := PFloat magmom]> (<["magmoms" := floats magmoms]>
       (<["dipole" := dipole]> {["nbands" := nbands]})));;
  v ← get_self;
  (if bool_decide ("stress" ∈ dom (results v)) then mret tt
   else update_results {["stress" := PNone]});;
  _set_old_keywords;;
  _store_param_state.

(** *** Running the external program *)

Definition det3 (c : vec3 * vec3 * vec3) : Q :=
  let '((a1, a2, a3), (b1, b2, b3), (c1, c2, c3)) := c in
  (a1 * (b2 * c3 - b3 * c2) - a2 * (b1 * c3 - b3 * c1) + a3 * (b1 * c2 - b2 * c1))%Q.

(** [check_atoms]; the rank of the cell is below three when its
    determinant is zero. *)
Definition check_atoms (atoms : option loc) : M unit :=
  match atoms with
  | None => raise (CalculatorSetupError
      "Expected an Atoms object, instead got object of type <class 'NoneType'>")
  | Some l =>
      a ← deref l;
      (if Qeq_bool (det3 (cell a)) 0 then
         raise (CalculatorSetupError
           "The lattice vectors are zero! This is the default value - please specify a unit cell.")
       else mret tt);;
      let '(p1, p2, p3) := pbc a in
      if negb (p1 && p2 && p3) then
        raise (CalculatorSetupError
          "Vasp cannot handle non-periodic boundaries. Please enable all PBC, e.g. atoms.pbc=True")
      else mret tt
  end.

Definition update_dir (f : Dir -> result Dir) : M unit :=
  w ← get_world;
  let dir := directory (self w) in
  d ← lift (f (default empty_dir (fs w !! dir)));
  modify_world (with_fs (<[dir := d]> (fs w))).

Definition write_input (atoms : option loc) : M unit :=
  w ← get_world;
  let dir := directory (self w) in
  (if negb (String.eqb dir ".") && negb (bool_decide (is_Some (fs w !! dir)))
   then modify_world (with_fs (<[dir := empty_dir]> (fs w)))
   else mret tt);;
  l ← lift (of_option TypeError atoms);
  a ← deref l;
  v ← get_self;
  g ← lift (initialize a (gvi v));
  modify_self (with_gvi g);;
  update_dir (GenerateVaspInput_write_input a g).

(** Where [_txt_outstream] sends the output. *)
Inductive outstream :=
| DEVNULL
| Stdout
| OpenFile (name : string)
| Stream (n : nat).

Definition _txt_outstream : M outstream :=
  v ← get_self;
  match _txt v with
  | PNone => mret DEVNULL
  | PStr txt =>
      if String.eqb txt "-" then mret Stdout
      else mret (OpenFile (_indir (directory v) txt))
  | PStream n => mret (Stream n)
  | txt =>
      raise (RuntimeError
        ("txt should either be a stringor an I/O stream, got " +:+ repr txt))
  end.

Definition is_none (v : pyval) : bool :=
  match v with PNone => true | _ => false end.

(** [self.command] *)
Definition get_command : M pyval := v ← get_self; mret (command v).

Definition _run (command : pyval) (out : outstream) (directory : string) : M Z :=
  command ← (if is_none command then get_command else mret command);
  match command with
  | PStr command =>
      w ← get_world;
      let '(errorcode, files) := shell w command directory (fs w) in
      modify_world (with_fs files);;
      mret errorcode
  | _ => raise TypeError
  end.

(** [name] *)
Definition name : string := "vasp".

Definition failed_msg (directory : string) (errorcode : Z) : string :=
  name +:+ " in " +:+ directory +:+ " returned an error: " +:+ pretty errorcode.

(** [atoms.positions = new]: the shape stays. *)
Definition set_positions (l : loc) (new : list vec3) (c : vec3 * vec3 * vec3)
  : M unit :=
  a ← deref l;
  if bool_decide (length new = length (positions a)) then
    modify_world (fun w =>
      with_heap (<[l := mkAtoms (numbers a) new c (pbc a)]> (heap w)) w)
  else raise ValueError.

(** [x > k] for a number [x] *)
Definition gt (v : pyval) (k : Z) : result bool :=
  match PyVal.number v with
  | Some x => Ok (negb (Qle_bool x (inject_Z k)))
  | None => Raise TypeError
  end.

Definition update_atoms (atoms : option loc) : M unit :=
  v ← get_self;
  ibrion ← lift (lookup_key (int_params (gvi v)) "ibrion");
  (if negb (is_none ibrion) then
     nsw ← lift (lookup_key (int_params (gvi v)) "nsw");
     if negb (is_none nsw) then
       moved ← lift (b ← gt ibrion (-1); if (b : bool) then gt nsw 0 else Ok false);
       if (moved : bool) then
         atoms_sorted ← read_CONTCAR;
         pos ← lift (Seq.take (positions atoms_sorted) (resort (gvi v)));
         l ← lift (of_option AttributeError atoms);
         set_positions l pos (cell atoms_sorted)
       else mret tt
     else mret tt
   else mret tt);;
  set_atoms atoms.

Definition calculate (atoms : option loc) : M unit :=
  check_atoms atoms;;
  clear_results;;
  match atoms with
  | Some l => l' ← copy l; set_atoms (Some l')
  | None => mret tt
  end;;
  v ← get_self;
  command ← make_command (command v);
  v ← get_self;
  write_input (_atoms v);;
  out ← _txt_outstream;
  v ← get_self;
  errorcode ← _run command out (directory v);
  (if negb (errorcode =? 0) then
     v ← get_self;
     raise (CalculationFailed (failed_msg (directory v) errorcode))
   else mret tt);;
  update_atoms atoms;;
  read_results.

(** *** The persisted snapshot *)

(** The dictionary that [asdict] makes and [fromdict] takes; a missing key
    is [None]. *)
Record Snapshot := mkSnapshot {
  dct_ase_version : option string;
  dct_vasp_version : option pyval;
  dct_inputs : option (gmap string pyval);
  dct_results : option (gmap string pyval);
  dct_atoms : option pyval
}.

Definition not_none (d : gmap string pyval) : gmap string pyval :=
  filter (fun kv => is_none (snd kv) = false) d.

(** The comprehension of [asdict] over the categories: an entry of a later
    category replaces the entry of an earlier one with the same key. *)
Definition flatten (state : list (category * gmap string pyval))
  : gmap string pyval :=
  foldl (fun inputs '(_, param_dct) => not_none param_dct ∪ inputs) ∅ state.

Definition asdict : M Snapshot :=
  let asevers := ase_version in
  vaspvers ← get_version;
  _store_param_state;;
  w ← get_world;
  let v := self w in
  let inputs := flatten (param_state v) in
  atoms ←
    match _atoms v with
    | None => mret None
    | Some l =>
        a ← deref l;
        if (0 <? natoms a)%nat then mret (Some (atoms2dict a)) else mret None
    end;
  mret (mkSnapshot (Some asevers) (Some vaspvers) (Some inputs)
          (Some (results v)) atoms).

Definition fromdict (dct : Snapshot) : M unit :=
  match dct_vasp_version dct with
  | Some x => modify_self (with_version x)
  | None => mret tt
  end;;
  match dct_inputs dct with
  | Some inputs => set None inputs;; _store_param_state
  | None => mret tt
  end;;
  match dct_atoms dct with
  | Some x =>
      atoms ← lift (toatoms x);
      l ← alloc atoms;
      set_atoms (Some l)
  | None => mret tt
  end;;
  match dct_results dct with
  | Some r => update_results r
  | None => mret tt
  end.

(** *** Further readers of the log *)

Definition fermi_step (E_f : pyval) (line : string) : result pyval :=
  if Py.contains "E-fermi" line
  then x ← Seq.index (Py.split line) 2; q ← to_float x; Ok (PFloat q)
  else Ok E_f.

Definition read_fermi (lines : option (list string)) : M pyval :=
  lines ← lines_or_OUTCAR lines; lift (foldR fermi_step PNone lines).

(** The loop of [get_number_of_electrons], which ends at the first line
    that holds the text. *)
Fixpoint find_nelect (lines : list string) : result pyval :=
  match lines with
  | [] => Ok PNone
  | line :: lines' =>
      if Py.contains "total number of electrons" line then
        s1 ← Seq.index (Py.split_on "=" line) 1;
        x ← Seq.index (Py.split s1) 0;
        q ← to_float (Py.strip x);
        Ok (PFloat q)
      else find_nelect lines'
  end.

Definition get_number_of_electrons (lines : option (list string)) : M pyval :=
  lines ← lines_or_OUTCAR lines; lift (find_nelect lines).

(** [energy.append(x)] when [all] is on, [energy = x] otherwise. *)
Definition energy_append (all : bool) (energy : pyval) (x : Q) : result pyval :=
  if all then
    match energy with
    | PList l => Ok (PList (l ++ [PFloat x]))
    | _ => Raise AttributeError
    end
  else Ok (PFloat x).

(** One line of the loop of [read_energy]; the state is [energy_free] and
    [energy_zero]. *)
Definition energy_step (all : bool) (st : pyval * pyval) (line : string)
  : result (pyval * pyval) :=
  let '(energy_free, energy_zero) := st in
  energy_free ←
    (if String.prefix "  free  energy   toten" (Py.lower line)
     then x ← Seq.index (Py.split line) (-2); q ← to_float x;
          energy_append all energy_free q
     else Ok energy_free);
  energy_zero ←
    (if String.prefix "  energy  without entropy" line
     then x ← last_item (Py.split line); q ← to_float x;
          energy_append all energy_zero q
     else Ok energy_zero);
  Ok (energy_free, energy_zero).

Definition read_energy (all : bool) (lines : option (list string)) : M pyval :=
  lines ← lines_or_OUTCAR lines;
  let init := if all then (PList [], PList []) else (PInt 0, PInt 0) in
  st ← lift (foldR (energy_step all) init lines);
  mret (PList [fst st; snd st]).

(** One line of the loop of [read_stress]; [GPa] is [ase.units.GPa]. *)
Definition stress_step (GPa : Q) (stress : pyval) (line : string) : result pyval :=
  if Py.contains " in kB  " line then
    xs ← mapR to_float (skipn 2 (Py.split line));
    let stress := Qopp <$> xs in
    stress ← Seq.take stress [0; 1; 2; 4; 5; 3];
    Ok (floats ((fun x => x * (1 # 10) * GPa)%Q <$> stress))
  else Ok stress.

Definition read_stress (GPa : Q) (lines : option (list string)) : M pyval :=
  lines ← lines_or_OUTCAR lines; lift (foldR (stress_step GPa) PNone lines).

(** One line of the loop of [read_vib_freq]; the state is [freq] and
    [i_freq]. *)
Definition vib_freq_step (st : list Q * list Q) (line : string)
  : result (list Q * list Q) :=
  let '(freq, i_freq) := st in
  let data := Py.split line in
  if bool_decide ("THz" ∈ data) then
    if negb (bool_decide ("f/i=" ∈ data)) then
      x ← Seq.index data (-2); q ← to_float x; Ok ((freq ++ [q])%list, i_freq)
    else
      x ← Seq.index data (-2); q ← to_float x; Ok (freq, (i_freq ++ [q])%list)
  else Ok (freq, i_freq).

Definition read_vib_freq (lines : option (list string)) : M (list Q * list Q) :=
  lines ← lines_or_OUTCAR lines; lift (foldR vib_freq_step ([], []) lines).

(** One line of the loops of [read_number_of_ionic_steps] ([k] is 0) and
    [read_number_of_iterations] ([k] is 1). *)
Definition iteration_step (k : Z) (niter : pyval) (line : string) : result pyval :=
  if Py.contains "- Iteration" line then
    numbers ← mapR to_int (Py.digit_runs line);
    n ← Seq.index numbers k;
    Ok (PInt n)
  else Ok niter.

Definition read_number_of_iterations : M pyval :=
  lines ← load_file_OUTCAR; lift (foldR (iteration_step 1) PNone lines).

Definition read_number_of_ionic_steps : M pyval :=
  lines ← load_file_OUTCAR; lift (foldR (iteration_step 0) PNone lines).

Definition get_number_of_iterations : M pyval := read_number_of_iterations.

(** [lines.index(x)], when [x in lines] *)
Fixpoint index_of (x : string) (lines : list string) : option nat :=
  match lines with
  | [] => None
  | line :: lines' => if String.eqb x line then Some O else S <$> index_of x lines'
  end.

(** [np.sum] *)
Definition sumQ (l : list Q) : Q := foldr Qplus 0%Q l.

(** The list [kpt_weights] that the loop of [read_k_point_weights] fills. *)
Definition raw_k_point_weights (lines : list string) : result (list Q) :=
  let N := default (length lines) (index_of ("Tetrahedra" +:+ String "010" "") lines) in
  mapR (fun n =>
          line ← of_option IndexError (lines !! n);
          x ← Seq.index (Py.split line) 3;
          to_float x)
       (seq 3 (N - 3)).

(** [read_k_point_weights] on the lines that [load_file(filename)] gives.
    Where the weights add up to zero the division yields [nan] or [inf],
    which are outside the embedding. *)
Definition read_k_point_weights (lines : list string) : result (list Q) :=
  kpt_weights ← raw_k_point_weights lines;
  Ok ((fun x => x / sumQ kpt_weights)%Q <$> kpt_weights).

(** *** Access to what was read *)

Definition get_fermi_level : M pyval :=
  calc ← get_xml_calc; mret (xml_fermi_level calc).

Definition get_spin_polarized : M bool :=
  calc ← get_xml_calc; mret (xml_spin_polarized calc).

Definition get_number_of_bands : M pyval :=
  v ← get_self; mret (default PNone (results v !! "nbands")).

(** [v.upper()] *)
Definition upper_val (v : pyval) : result pyval :=
  match v with
  | PStr s => Ok (PStr (Py.upper s))
  | _ => Raise AttributeError
  end.

Definition get_xc_functional : M pyval :=
  v ← get_self;
  let input_params := input_params (gvi v) in
  if PyVal.truthy (default PNone (input_params !! "xc"))
  then xc ← lift (lookup_key input_params "xc"); lift (upper_val xc)
  else if PyVal.truthy (default PNone (input_params !! "pp"))
  then pp ← lift (lookup_key input_params "pp"); lift (upper_val pp)
  else raise ValueError.

End Vasp.

(** ** An instance of the parent classes

    The methods of [Calculator] and of [GenerateVaspInput] as ASE has them,
    as far as the calculator relies on them: every keyword is stored in the
    first parameter dictionary that has its key, and the sort index groups
    the sites by species in the order of first appearance.  The instance
    serves to run the methods of [Vasp] on concrete worlds. *)
Module Ase.

Definition setattr (c : category) (d : gmap string pyval) (g : GenerateVaspInput)
  : GenerateVaspInput :=
  let f := fun c' old => if bool_decide (c' = c) then d else old in
  mkGVI (f Float (float_params g)) (f Exp (exp_params g))
    (f String_ (string_params g)) (f Int (int_params g))
    (f Input (input_params g)) (f Bool (bool_params g))
    (f ListInt (list_int_params g)) (f ListBool (list_bool_params g))
    (f ListFloat (list_float_params g)) (f Dict (dict_params g))
    (sort g) (resort g) (spinpol g).

(** The order in which [GenerateVaspInput.set] looks a key up. *)
Definition set_order : list category :=
  [Float; Exp; String_; Int; Bool; ListBool; ListInt; ListFloat; Dict; Input].

Fixpoint assign (cats : list category) (key : string) (value : pyval)
    (g : GenerateVaspInput) : result GenerateVaspInput :=
  match cats with
  | [] => Raise TypeError
  | c :: cats' =>
      if bool_decide (is_Some (getattr c g !! key))
      then Ok (setattr c (<[key := value]> (getattr c g)) g)
      else assign cats' key value g
  end.

Definition set (kwargs : gmap string pyval) (g : GenerateVaspInput)
  : result GenerateVaspInput :=
  foldR (fun g '(key, value) => assign set_order key value g) g
        (map_to_list kwargs).

(** [Calculator.set]: the keywords whose value is new are stored and
    returned. *)
Definition calculator_set (kwargs parameters : gmap string pyval)
  : result (gmap string pyval * gmap string pyval) :=
  let changed :=
    filter (fun kv =>
              match parameters !! fst kv with
              | Some old => PyVal.eq (snd kv) old
              | None => false
              end = false) kwargs in
  Ok (changed, changed ∪ parameters).

(** The text before and after the last [/] of a label. *)
Fixpoint rsplit_slash (s : string) : option (string * string) :=
  match s with
  | EmptyString => None
  | String c s' =>
      match rsplit_slash s' with
      | Some (d, p) => Some (String c d, p)
      | None => if Ascii.eqb c "/" then Some (EmptyString, s') else None
      end
  end.

Definition label (l : pyval) : result (string * option string) :=
  match l with
  | PNone => Ok (".", None)
  | PStr s =>
      let '(directory, prefix) :=
        match rsplit_slash s with
        | Some (d, p) => (d, p)
        | None => (".", s)
        end in
      Ok (directory, if String.eqb prefix "" then None else Some prefix)
  | _ => Raise AttributeError
  end.

Definition property (results : gmap string pyval) (name : string)
    (allow_calculation : bool) : result pyval :=
  match results !! name with
  | Some x => Ok x
  | None =>
      if allow_calculation then Raise (RuntimeError "a calculation is required")
      else Ok PNone
  end.

Definition potential_energy (results : gmap string pyval)
    (force_consistent : bool) : result pyval :=
  energy ← property results "energy" true;
  if force_consistent then of_option (KeyError "free_energy") (results !! "free_energy")
  else Ok energy.

(** The species in the order in which they first appear. *)
Fixpoint species (l : list Z) : list Z :=
  match l with
  | [] => []
  | x :: l' => x :: filter (fun y => y ≠ x) (species l')
  end.

(** The sites of one species, in their order. *)
Definition sites_of (numbers : list Z) (s : Z) : list Z :=
  Z.of_nat <$> (fst <$> filter (fun nx => snd nx = s) (enumerate numbers)).

Definition make_sort (numbers : list Z) : list Z :=
  concat (sites_of numbers <$> species numbers).

(** [resort[sort[n]] = n] for every [n] *)
Definition make_resort (sort : list Z) : list Z :=
  foldl (fun resort '(n, s) => <[Z.to_nat s := Z.of_nat n]> resort)
        (Z.of_nat <$> seq 0 (length sort)) (enumerate sort).

Definition init (atoms : Atoms) (g : GenerateVaspInput) : result GenerateVaspInput :=
  let s := make_sort (numbers atoms) in
  let ispin := default PNone (int_params g !! "ispin") in
  Ok (with_spinpol (PBool (PyVal.eq ispin (PInt 2))) (with_sort s (make_resort s) g)).

Definition vec_val (v : vec3) : pyval :=
  let '(x, y, z) := v in PList [PFloat x; PFloat y; PFloat z].

Definition to_dict (a : Atoms) : pyval :=
  let '(c1, c2, c3) := cell a in
  let '(p1, p2, p3) := pbc a in
  PDict [("numbers", PList (PInt <$> numbers a));
         ("positions", PList (vec_val <$> positions a));
         ("cell", PList [vec_val c1; vec_val c2; vec_val c3]);
         ("pbc", PList [PBool p1; PBool p2; PBool p3])].

Definition val_vec (v : pyval) : result vec3 :=
  match v with
  | PList [PFloat x; PFloat y; PFloat z] => Ok (x, y, z)
  | _ => Raise TypeError
  end.

Definition val_int (v : pyval) : result Z :=
  match v with PInt z => Ok z | _ => Raise TypeError end.

Definition field (d : list (string * pyval)) (key : string) : result pyval :=
  of_option (KeyError key) (PyVal.assoc key d).

Definition of_dict (v : pyval) : result Atoms :=
  match v with
  | PDict d =>
      ns ← field d "numbers";
      ps ← field d "positions";
      c ← field d "cell";
      b ← field d "pbc";
      match ns, ps, c, b with
      | PList ns, PList ps, PList [c1; c2; c3], PList [PBool b1; PBool b2; PBool b3] =>
          ns ← mapR val_int ns;
          ps ← mapR val_vec ps;
          c1 ← val_vec c1; c2 ← val_vec c2; c3 ← val_vec c3;
          Ok (mkAtoms ns ps (c1, c2, c3) (b1, b2, b3))
      | _, _, _, _ => Raise TypeError
      end
  | _ => Raise TypeError
  end.

Definition text (v : pyval) : string :=
  match v with
  | PNone => "None"
  | PBool true => "True"
  | PBool false => "False"
  | PInt z => pretty z
  | _ => "<object>"
  end.

#[global] Instance parent : Parent := {|
  ase_version := "3.22.1";
  repr := text;
  Calculator_set := calculator_set;
  Calculator_label := label;
  get_property := property;
  get_potential_energy := potential_energy;
  GenerateVaspInput_set := set;
  initialize := init;
  GenerateVaspInput_write_input := fun _ _ d => Ok d;
  atoms2dict := to_dict;
  toatoms := of_dict
|}.

End Ase.

(** ** A calculator to run the methods on *)

Module Fresh.

Definition nones (keys : list string) : gmap string pyval :=
  list_to_map ((fun k => (k, PNone)) <$> keys).

(** The parameter dictionaries as [GenerateVaspInput.__init__] leaves them,
    with a few keys of each. *)
Definition params : GenerateVaspInput := {|
  float_params := nones ["encut"; "sigma"];
  exp_params := nones ["ediff"; "ediffg"];
  string_params := nones ["algo"; "prec"];
  int_params := nones ["ibrion"; "nsw"; "ispin"; "lorbit"; "nelm"];
  input_params :=
    <["txt" := PStr "-"]> (<["kpts" := PTuple [PInt 1; PInt 1; PInt 1]]>
      (<["gamma" := PBool false]> (nones ["xc"; "pp"; "setups"])));
  bool_params := nones ["lwave"; "lcharg"];
  list_int_params := nones ["ldaul"];
  list_bool_params := nones ["lattice_constraints"];
  list_float_params := nones ["rwigs"; "magmom"];
  dict_params := nones ["ldau_luj"];
  sort := [];
  resort := [];
  spinpol := PNone
|}.

(** The calculator after [Vasp()] *)
Definition calc : Vasp := {|
  _atoms := None;
  results := ∅;
  parameters := ∅;
  gvi := params;
  param_state := snapshot params;
  _xml_calc := None;
  directory := ".";
  prefix := Some "vasp";
  command := PNone;
  _txt := PStr "vasp.out";
  version := PNone;
  converged := PNone;
  old_keywords := ∅
|}.

(** A world with nothing in it: no structure, no file, no environment
    variable, and an external program that exits with [code]. *)
Definition world (code : Z) : World := {|
  self := calc;
  heap := ∅;
  fs := ∅;
  environ := ∅;
  executable := "/usr/bin/python3";
  warnings := [];
  shell := fun _ _ files => (code, files)
|}.

Definition with_environ (e : gmap string string) (w : World) : World :=
  mkWorld (self w) (heap w) (fs w) e (executable w) (warnings w) (shell w).

End Fresh.

(** * Properties *)

(** ** Text and sequences *)

Lemma contains_cons needle c hay :
  Py.contains needle (String c hay) = false ->
  String.prefix needle (String c hay) = false /\ Py.contains needle hay = false.
Proof.
  cbn [Py.contains]. intros Hc. apply orb_false_iff in Hc. exact Hc.
Qed.

(** Where [old] does not occur, [replace] changes nothing. *)
Lemma replace_absent old new s :
  Py.contains old s = false -> Py.replace old new s = s.
Proof.
  unfold Py.replace. induction s as [|c s IH]; [reflexivity|].
  intros Hc. apply contains_cons in Hc as [Hp Hc].
  cbn [Py.replace_go]. rewrite Hp. f_equal. auto.
Qed.

Lemma mapR_Forall2 {A B} (f : A -> result B) l out :
  mapR f l = Ok out <-> Forall2 (fun x y => f x = Ok y) l out.
Proof.
  revert out. induction l as [|x l IH]; intros out; cbn [mapR].
  - split.
    + intros [= <-]. constructor.
    + intros Hf. inversion Hf. reflexivity.
  - split.
    + destruct (f x) as [e|y] eqn:Hx; [discriminate|]. cbn.
      destruct (mapR f l) as [e|ys] eqn:Hl; [discriminate|]. cbn.
      intros [= <-]. constructor; [exact Hx|]. apply IH. reflexivity.
    + intros Hf. inversion Hf as [|? y ? ys Hx Hys]; subst.
      rewrite Hx. cbn. apply IH in Hys. rewrite Hys. reflexivity.
Qed.

(** Element [k] of [arr[idx]] is [arr[idx[k]]], and the result is as long as
    the index. *)
Lemma take_Forall2 {A} (arr : list A) idx out :
  Seq.take arr idx = Ok out <-> Forall2 (fun i x => Seq.index arr i = Ok x) idx out.
Proof. apply mapR_Forall2. Qed.

Lemma index_nonneg {A} (l : list A) (i : nat) x :
  l !! i = Some x -> Seq.index l (Z.of_nat i) = Ok x.
Proof.
  intros Hx. unfold Seq.index.
  assert (i < length l)%nat by (eapply lookup_lt_Some; eauto).
  destruct (Z.ltb_spec (Z.of_nat i) 0); [lia|].
  destruct (Z.leb_spec 0 (Z.of_nat i)); [|lia].
  destruct (Z.ltb_spec (Z.of_nat i) (Z.of_nat (length l))); [|lia].
  cbn. rewrite Nat2Z.id, Hx. reflexivity.
Qed.

(** ** Command resolution *)

(** The resolution as the specification words it: the command when one is
    given, otherwise the value of the first variable that is set, behind the
    interpreter for [VASP_SCRIPT]. *)
Definition claimed_command (command : pyval) (environ : gmap string string)
    (exe : string) : result pyval :=
  match command with
  | PNone =>
      match environ !! "ASE_VASP_COMMAND", environ !! "VASP_COMMAND",
            environ !! "VASP_SCRIPT" with
      | Some value, _, _ => Ok (PStr value)
      | None, Some value, _ => Ok (PStr value)
      | None, None, Some value => Ok (PStr (exe +:+ " " +:+ value))
      | None, None, None => Raise (CalculatorSetupError setup_msg)
      end
  | _ => Ok command
  end.

(** C1, as stated, fails: the value of the variable is not used as it is,
    the text [PREFIX] in it is replaced by the prefix of the calculator;
    and an empty command counts as no command. *)
Lemma make_command_substitutes_PREFIX :
  let w := Fresh.with_environ {["VASP_COMMAND" := "mpirun vasp_std > PREFIX.log"]}
             (Fresh.world 0) in
  claimed_command PNone (environ w) (executable w)
    = Ok (PStr "mpirun vasp_std > PREFIX.log") /\
  snd (make_command PNone w) = Ok (PStr "mpirun vasp_std > vasp.log") /\
  snd (make_command PNone w) <> claimed_command PNone (environ w) (executable w) /\
  claimed_command (PStr "") (environ w) (executable w) = Ok (PStr "") /\
  snd (make_command (PStr "") w) = Ok (PStr "mpirun vasp_std > vasp.log").
Proof. vm_compute. repeat split; congruence. Qed.

(** C1, amended: a command that is true is returned as it is; otherwise the
    first variable that is set among [ASE_VASP_COMMAND], [VASP_COMMAND],
    [VASP_SCRIPT] gives the command, its value with every [PREFIX] replaced
    by the prefix of the calculator (the value itself when it holds no
    [PREFIX]), behind the interpreter for [VASP_SCRIPT]; with no command and
    no variable a [CalculatorSetupError] is raised.  The world is left as it
    was. *)
Theorem make_command_priority (w : World) (command : pyval) :
  let sub := fun value =>
    match prefix (self w) with
    | Some p => Ok (Py.replace "PREFIX" p value)
    | None => Raise TypeError
    end in
  fst (make_command command w) = w /\
  (PyVal.truthy command = true -> snd (make_command command w) = Ok command) /\
  (PyVal.truthy command = false ->
   snd (make_command command w) =
     match environ w !! "ASE_VASP_COMMAND", environ w !! "VASP_COMMAND",
           environ w !! "VASP_SCRIPT" with
     | Some value, _, _ => PStr <$> sub value
     | None, Some value, _ => PStr <$> sub value
     | None, None, Some value =>
         (fun cmd => PStr (executable w +:+ " " +:+ cmd)) <$> sub value
     | None, None, None => Raise (CalculatorSetupError setup_msg)
     end) /\
  (forall p value, Py.contains "PREFIX" value = false ->
     Py.replace "PREFIX" p value = value).
Proof.
  cbv zeta. unfold make_command, mbind, M_bind, get_world, mret, M_ret, lift.
  destruct (PyVal.truthy command) eqn:Ht; cbn [fst snd].
  - repeat split; try reflexivity; try discriminate.
    intros; apply replace_absent; assumption.
  - repeat split; try reflexivity; try discriminate.
    + intros _. unfold env_commands. cbn [search_env].
      destruct (environ w !! "ASE_VASP_COMMAND") as [v1|];
        [destruct (prefix (self w)); reflexivity|].
      destruct (environ w !! "VASP_COMMAND") as [v2|];
        [destruct (prefix (self w)); reflexivity|].
      destruct (environ w !! "VASP_SCRIPT") as [v3|];
        [destruct (prefix (self w)); reflexivity|].
      reflexivity.
    + intros; apply replace_absent; assumption.
Qed.

(** ** Values *)

Section pyval_induction.
Variable P : pyval -> Prop.
Hypothesis HNone : P PNone.
Hypothesis HBool : forall b, P (PBool b).
Hypothesis HInt : forall z, P (PInt z).
Hypothesis HFloat : forall q, P (PFloat q).
Hypothesis HStr : forall s, P (PStr s).
Hypothesis HList : forall l, Forall P l -> P (PList l).
Hypothesis HTuple : forall l, Forall P l -> P (PTuple l).
Hypothesis HDict : forall l, Forall (fun kv => P (snd kv)) l -> P (PDict l).
Hypothesis HPath : forall s, P (PPath s).
Hypothesis HStream : forall n, P (PStream n).

Fixpoint pyval_nested_ind (v : pyval) : P v :=
  match v with
  | PNone => HNone
  | PBool b => HBool b
  | PInt z => HInt z
  | PFloat q => HFloat q
  | PStr s => HStr s
  | PList l =>
      HList l ((fix go l : Forall P l :=
                  match l with
                  | [] => List.Forall_nil P
                  | x :: l' => @List.Forall_cons _ P x l' (pyval_nested_ind x) (go l')
                  end) l)
  | PTuple l =>
      HTuple l ((fix go l : Forall P l :=
                   match l with
                   | [] => List.Forall_nil P
                   | x :: l' => @List.Forall_cons _ P x l' (pyval_nested_ind x) (go l')
                   end) l)
  | PDict l =>
      HDict l ((fix go l : Forall (fun kv => P (snd kv)) l :=
                  match l with
                  | [] => List.Forall_nil _
                  | kv :: l' =>
                      @List.Forall_cons _ (fun kv => P (snd kv)) kv l'
                        (pyval_nested_ind (snd kv)) (go l')
                  end) l)
  | PPath s => HPath s
  | PStream n => HStream n
  end.
End pyval_induction.

Lemma Qeq_bool_refl q : Qeq_bool q q = true.
Proof. apply Qeq_bool_iff. reflexivity. Qed.

(** Without [nan], every value is equal to itself. *)
Lemma pyval_eq_refl v : PyVal.eq v v = true.
Proof.
  induction v as [| | | | |l IH|l IH|l IH| |] using pyval_nested_ind;
    cbn [PyVal.eq PyVal.number]; auto using Qeq_bool_refl, String.eqb_refl, Nat.eqb_refl.
  - induction IH as [|x l Hx _ IHl]; [reflexivity|]. rewrite Hx. exact IHl.
  - induction IH as [|x l Hx _ IHl]; [reflexivity|]. rewrite Hx. exact IHl.
  - rewrite Nat.eqb_refl. cbn [andb].
    assert (Hsub : forall m, Forall (fun kv => kv ∈ m) l ->
      (fix go (l0 : list (string * pyval)) : bool :=
         match l0 with
         | [] => true
         | (k, v) :: l' =>
             existsb (fun kw => String.eqb k (fst kw) && PyVal.eq v (snd kw)) m && go l'
         end) l = true).
    { intros m Hm. induction IH as [|[k v] l' Hv _ IHl]; [reflexivity|].
      inversion Hm as [|? ? Hin Hm']; subst.
      rewrite IHl by assumption. rewrite andb_true_r.
      apply existsb_exists. exists (k, v). split.
      - apply list_elem_of_In. exact Hin.
      - cbn. rewrite String.eqb_refl. exact Hv. }
    apply Hsub. apply Forall_forall. auto.
Qed.

Lemma compare_dict_refl d : compare_dict d d = true.
Proof.
  unfold compare_dict. rewrite bool_decide_false by (intros Hne; apply Hne; reflexivity).
  apply forallb_forall. intros [k v] Hin.
  apply list_elem_of_In, elem_of_map_to_list in Hin. rewrite Hin.
  unfold PyVal.any_ne. rewrite pyval_eq_refl. reflexivity.
Qed.

(** ** Method calls *)

Ltac mrun :=
  repeat (unfold mbind, M_bind, mret, M_ret, lift, raise, get_world, get_self,
            modify_world, modify_self in *;
          cbn [fst snd] in *).

(** ** The change detector *)

Lemma close_refl tol x : (0 <= tol)%Q -> Calculator.close tol x x = true.
Proof.
  intros Htol. unfold Calculator.close. apply Qle_bool_iff.
  assert (Hz : (Qabs (x - x) == 0)%Q).
  { rewrite (Qabs_wd (x - x) 0) by ring. reflexivity. }
  rewrite Hz. exact Htol.
Qed.

Lemma close_rows_refl tol l : (0 <= tol)%Q -> Calculator.close_rows tol l l = true.
Proof.
  intros Htol. induction l as [|[[x y] z] l IH]; [reflexivity|].
  cbn [Calculator.close_rows Calculator.close3].
  rewrite !close_refl, IH by assumption. reflexivity.
Qed.

(** The parent's comparison finds the last-used structure unchanged. *)
Lemma Calculator_check_state_same a tol :
  (0 <= tol)%Q -> Calculator.check_state (Some a) a tol = [].
Proof.
  intros Htol. unfold Calculator.check_state.
  rewrite !close_rows_refl by assumption.
  rewrite !bool_decide_true by reflexivity. reflexivity.
Qed.

Lemma changed_params_snapshot g : changed_params g (snapshot g) = [].
Proof.
  unfold changed_params, snapshot. cbn [omap list_omap getattr].
  rewrite !compare_dict_refl. reflexivity.
Qed.

(** One coordinate of one site moved by [delta]. *)
Definition shift (axis : nat) (delta : Q) (v : vec3) : vec3 :=
  let '(x, y, z) := v in
  match axis with
  | O => ((x + delta)%Q, y, z)
  | S O => (x, (y + delta)%Q, z)
  | _ => (x, y, (z + delta)%Q)
  end.

Definition perturb (i axis : nat) (delta : Q) (a : Atoms) : Atoms :=
  mkAtoms (numbers a) (alter (shift axis delta) i (positions a)) (cell a) (pbc a).

Lemma close_shifted tol x delta :
  (tol < Qabs delta)%Q -> Calculator.close tol x (x + delta) = false.
Proof.
  intros Hd. unfold Calculator.close.
  destruct (Qle_bool (Qabs (x - (x + delta))) tol) eqn:Hle; [|reflexivity].
  apply Qle_bool_iff in Hle.
  assert (Hz : (Qabs (x - (x + delta)) == Qabs delta)%Q).
  { rewrite (Qabs_wd (x - (x + delta)) (- delta)) by ring. apply Qabs_opp. }
  rewrite Hz in Hle. exfalso. eapply Qlt_not_le; eauto.
Qed.

Lemma close3_shifted tol axis delta v :
  (tol < Qabs delta)%Q -> Calculator.close3 tol v (shift axis delta v) = false.
Proof.
  intros Hd. destruct v as [[x y] z].
  destruct axis as [|[|axis]]; cbn [shift Calculator.close3];
    rewrite close_shifted by assumption;
    rewrite ?andb_false_r; reflexivity.
Qed.

Lemma close_rows_perturbed tol i axis delta (l : list vec3) :
  (i < length l)%nat -> (tol < Qabs delta)%Q ->
  Calculator.close_rows tol l (alter (shift axis delta) i l) = false.
Proof.
  intros Hi Hd. revert i Hi. induction l as [|v l IH]; intros i Hi; [cbn in Hi; lia|].
  destruct i as [|i]; cbn [alter list_alter Calculator.close_rows].
  - rewrite close3_shifted by assumption. reflexivity.
  - rewrite IH by (cbn in Hi; lia). apply andb_false_r.
Qed.

Lemma check_state_frame w l tol : fst (check_state l tol w) = w.
Proof.
  unfold check_state, deref. mrun. destruct (heap w !! l); reflexivity.
Qed.

(** C5.  [check_state] leaves the world as it is; with the structure and
    the parameters of the last snapshot it reports no change, again and
    again; and when one coordinate of one site is off by more than the
    tolerance it reports at least [positions]. *)
Theorem check_state_pure_comparison :
  (forall w l tol, fst (check_state l tol w) = w) /\
  (forall w l l0 a tol,
     _atoms (self w) = Some l0 -> heap w !! l0 = Some a -> heap w !! l = Some a ->
     param_state (self w) = snapshot (gvi (self w)) -> (0 <= tol)%Q ->
     check_state l tol w = (w, Ok []) /\
     check_state l tol (fst (check_state l tol w)) = (w, Ok [])) /\
  (forall w l l0 a i axis delta tol,
     _atoms (self w) = Some l0 -> heap w !! l0 = Some a ->
     heap w !! l = Some (perturb i axis delta a) ->
     (i < length (positions a))%nat -> (tol < Qabs delta)%Q ->
     exists changes,
       check_state l tol w = (w, Ok changes) /\ "positions" ∈ changes).
Proof.
  split; [exact check_state_frame|]. split.
  - intros w l l0 a tol Hl0 Ha0 Ha Hps Htol.
    assert (Hcs : check_state l tol w = (w, Ok [])).
    { unfold check_state, deref. mrun. rewrite Ha. cbn.
      rewrite Hl0. cbn. rewrite Ha0, Hps.
      rewrite Calculator_check_state_same by assumption.
      rewrite changed_params_snapshot. reflexivity. }
    rewrite Hcs. cbn [fst]. auto.
  - intros w l l0 a i axis delta tol Hl0 Ha0 Ha Hi Hd.
    eexists. split.
    + unfold check_state, deref. mrun. rewrite Ha. cbn.
      rewrite Hl0. cbn. rewrite Ha0. reflexivity.
    + unfold Calculator.check_state. cbn [positions perturb].
      rewrite close_rows_perturbed by assumption.
      apply list_elem_of_In. left. reflexivity.
Qed.

(** ** The setter of [atoms] *)

Lemma fresh_loc (h : gmap loc Atoms) : h !! fresh (dom h) = None.
Proof. apply not_elem_of_dom. apply is_fresh. Qed.

(** C10.  Assigning [None] clears the results.  Assigning a structure keeps
    them when [check_state] reports no change and clears them otherwise; in
    both cases what is stored is a new object with the content of the one
    passed, which a later change of the passed object does not reach. *)
Theorem atoms_setter (w : World) :
  (exists w', set_atoms None w = (w', Ok tt) /\
     results (self w') = ∅ /\ _atoms (self w') = None) /\
  (forall l a changes,
     heap w !! l = Some a ->
     snd (check_state l default_tol w) = Ok changes ->
     exists w' l',
       set_atoms (Some l) w = (w', Ok tt) /\
       results (self w') = (if changes is [] then results (self w) else ∅) /\
       _atoms (self w') = Some l' /\
       l' <> l /\ heap w !! l' = None /\
       heap w' = <[l' := a]> (heap w) /\
       (forall a', <[l := a']> (heap w') !! l' = Some a)).
Proof.
  split.
  - eexists. split; [reflexivity|]. split; reflexivity.
  - intros l a changes Ha Hcs.
    pose proof (check_state_frame w l default_tol) as Hfr.
    destruct (check_state l default_tol w) as [w0 r] eqn:Hc.
    cbn [fst snd] in *. subst w0 r.
    assert (Hne : fresh (dom (heap w)) <> l).
    { intros Heq. pose proof (fresh_loc (heap w)) as Hf. rewrite Heq in Hf. congruence. }
    unfold set_atoms. mrun. rewrite Hc.
    destruct changes as [|c changes]; unfold copy, deref, alloc, clear_results; mrun;
      cbn [heap with_self with_heap self]; rewrite Ha; cbn;
      (do 2 eexists; split; [reflexivity|]);
      cbn [self with_self with_atoms results _atoms heap with_heap with_xml_calc with_results];
      (repeat split; [exact Hne | apply fresh_loc | ]);
      intros a'; rewrite lookup_insert_ne by congruence; apply lookup_insert_eq.
Qed.

(** ** Frames *)

(** [m] keeps [P]: when [P] holds before the call it holds after it,
    whether the call returns or raises. *)
Definition preserves {A} (P : World -> Prop) (m : M A) : Prop :=
  forall w, P w -> P (fst (m w)).

Lemma preserves_bind {A B} P (m : M A) (f : A -> M B) :
  preserves P m -> (forall a, preserves P (f a)) -> preserves P (m ≫= f).
Proof.
  intros Hm Hf w Hw. unfold mbind, M_bind.
  specialize (Hm w Hw). destruct (m w) as [w1 [e|a]]; cbn [fst] in *; [exact Hm|].
  apply Hf. exact Hm.
Qed.

Lemma preserves_ret {A} P (a : A) : preserves P (mret a).
Proof. intros w Hw. exact Hw. Qed.

Lemma preserves_lift {A} P (r : result A) : preserves P (lift r).
Proof. intros w Hw. exact Hw. Qed.

Lemma preserves_raise {A} P e : preserves P (@raise A e).
Proof. intros w Hw. exact Hw. Qed.

Lemma preserves_lift_bind {A B} P (r : result A) (f : A -> M B) :
  (forall a, r = Ok a -> preserves P (f a)) -> preserves P (lift r ≫= f).
Proof.
  intros Hf w Hw. unfold mbind, M_bind, lift. destruct r as [e|a]; [exact Hw|].
  apply Hf; [reflexivity|exact Hw].
Qed.

Lemma preserves_get_world P : preserves P get_world.
Proof. intros w Hw. exact Hw. Qed.

Lemma preserves_get_self P : preserves P get_self.
Proof. intros w Hw. exact Hw. Qed.

Lemma preserves_modify_world P f :
  (forall w, P w -> P (f w)) -> preserves P (modify_world f).
Proof. intros Hf w Hw. apply Hf. exact Hw. Qed.

Lemma preserves_modify_self P f :
  (forall w, P w -> P (with_self (f (self w)) w)) -> preserves P (modify_self f).
Proof. intros Hf. apply preserves_modify_world. exact Hf. Qed.

Create HintDb frame.

#[local] Hint Resolve preserves_ret preserves_lift preserves_raise
  preserves_get_world preserves_get_self : frame.

(** Takes a frame goal apart along the binds and the case distinctions of
    the method. *)
Ltac frame_step :=
  match goal with
  | |- preserves _ (_ ≫= _) => apply preserves_bind; [|intros]
  | |- preserves _ (mret _) => apply preserves_ret
  | |- preserves _ (lift _) => apply preserves_lift
  | |- preserves _ (raise _) => apply preserves_raise
  | |- preserves _ get_world => apply preserves_get_world
  | |- preserves _ get_self => apply preserves_get_self
  | |- preserves _ (match ?x with _ => _ end) => destruct x
  | |- preserves _ (let '(_, _) := ?x in _) => destruct x
  end.

Ltac frame := repeat frame_step.

(** A call that returns went through both parts of a bind. *)
Lemma bind_Ok {A B} (m : M A) (f : A -> M B) w w' b :
  (m ≫= f) w = (w', Ok b) ->
  exists w1 a, m w = (w1, Ok a) /\ f a w1 = (w', Ok b).
Proof.
  unfold mbind, M_bind. destruct (m w) as [w1 [e|a]]; [discriminate|].
  intros Hf. eauto.
Qed.

(** ** Keywords and results *)

Lemma pop_all_lookup keys (kwargs : gmap string pyval) k :
  pop_all keys kwargs !! k = if bool_decide (k ∈ keys) then None else kwargs !! k.
Proof.
  induction keys as [|key keys IH]; cbn [pop_all foldr].
  - rewrite bool_decide_false by apply not_elem_of_nil. reflexivity.
  - fold (pop_all keys kwargs). destruct (decide (key = k)) as [->|Hne].
    + rewrite lookup_delete_eq. rewrite bool_decide_true by apply list_elem_of_here. reflexivity.
    + rewrite lookup_delete_ne by assumption. rewrite IH.
      destruct (decide (k ∈ keys)) as [Hin|Hnin].
      * rewrite !bool_decide_true; [reflexivity| |assumption].
        apply list_elem_of_further. assumption.
      * rewrite !bool_decide_false; [reflexivity| |assumption].
        intros Hin. apply elem_of_cons in Hin as [->|Hin]; [congruence|auto].
Qed.

Lemma pop_all_own_only (kwargs : gmap string pyval) :
  (forall k, k ∈ dom kwargs -> k ∈ own_keywords) ->
  pop_all own_keywords kwargs = ∅.
Proof.
  intros Hdom. apply map_eq. intros k. rewrite pop_all_lookup, lookup_empty.
  destruct (decide (k ∈ own_keywords)) as [Hin|Hnin].
  - rewrite bool_decide_true by assumption. reflexivity.
  - rewrite bool_decide_false by assumption.
    apply not_elem_of_dom. intros Hk. apply Hnin. auto.
Qed.

Lemma pop_all_none (kwargs : gmap string pyval) :
  (forall k, k ∈ own_keywords -> kwargs !! k = None) ->
  pop_all own_keywords kwargs = kwargs.
Proof.
  intros Hnone. apply map_eq. intros k. rewrite pop_all_lookup.
  destruct (decide (k ∈ own_keywords)) as [Hin|Hnin].
  - rewrite bool_decide_true by assumption. symmetry. auto.
  - rewrite bool_decide_false by assumption. reflexivity.
Qed.

Section Keywords.

Context `{Parent}.

(** C9.  With no keyword beside [label], [directory], [txt] and [command],
    [set] leaves the results as they are (the parent's [set] reports no
    changed parameter when it is given no keyword).  With any further
    keyword a call that returns has emptied the results; and it does
    return, with the results emptied, when the keywords are further
    keywords only and the parents store them, whatever their values and
    whatever is stored. *)
Theorem set_results (w : World) (kwargs : gmap string pyval) :
  ((forall k, k ∈ dom kwargs -> k ∈ ["label"; "directory"; "txt"; "command"]) ->
   (forall p changed p', Calculator_set ∅ p = Ok (changed, p') -> changed = ∅) ->
   results (self (fst (set None kwargs w))) = results (self w)) /\
  (forall atoms_kw w',
     pop_all own_keywords kwargs <> ∅ ->
     set atoms_kw kwargs w = (w', Ok tt) ->
     results (self w') = ∅) /\
  (forall changed p' g',
     kwargs <> ∅ ->
     (forall k, k ∈ own_keywords -> kwargs !! k = None) ->
     Calculator_set kwargs (parameters (self w)) = Ok (changed, p') ->
     GenerateVaspInput_set kwargs (gvi (self w)) = Ok g' ->
     exists w',
       set None kwargs w = (w', Ok tt) /\
       results (self w') = ∅ /\ gvi (self w') = g').
Proof.
  split; [|split].
  - intros Hdom Hset.
    assert (Hpop : pop_all own_keywords kwargs = ∅).
    { apply pop_all_own_only. intros k Hk. specialize (Hdom k Hk).
      unfold own_keywords.
      repeat (apply elem_of_cons in Hdom as [->|Hdom]; [set_solver|]).
      inversion Hdom. }
    assert (Hatoms : kwargs !! "atoms" = None).
    { apply not_elem_of_dom. intros Hk. specialize (Hdom _ Hk).
      repeat (apply elem_of_cons in Hdom as [Hdom|Hdom]; [discriminate|]).
      inversion Hdom. }
    pose (P := fun w' : World => results (self w') = results (self w)).
    assert (Hp : preserves P (set None kwargs)).
    { unfold set. rewrite Hpop, Hatoms.
      apply preserves_bind; [frame; apply preserves_modify_self; intros; assumption|intros].
      apply preserves_bind; [frame; apply preserves_modify_self; intros; assumption|intros].
      apply preserves_bind; [frame; apply preserves_modify_self; intros; assumption|intros].
      apply preserves_bind; [frame|intros].
      apply preserves_bind; [frame; apply preserves_modify_self; intros; assumption|intros].
      apply preserves_bind; [frame|intros v].
      apply preserves_lift_bind. intros [changed p'] Hcs.
      apply Hset in Hcs as ->.
      apply preserves_bind; [apply preserves_modify_self; intros; assumption|intros].
      rewrite !bool_decide_false by (intros Hne; apply Hne; reflexivity).
      frame. }
    apply Hp. reflexivity.
  - intros atoms_kw w' Hrest Hset. unfold set in Hset.
    repeat (apply bind_Ok in Hset as (? & ? & _ & Hset)).
    match type of Hset with context [let '(_, _) := ?x in _] => destruct x end.
    rewrite bool_decide_true in Hset by assumption.
    repeat (apply bind_Ok in Hset as (? & ? & _ & Hset)).
    unfold modify_self, modify_world in Hset. injection Hset as <-. reflexivity.
  - intros changed p' g' Hne Hnone Hcs Hgs.
    unfold set. rewrite pop_all_none by assumption.
    rewrite !Hnone by (unfold own_keywords; set_solver).
    mrun. rewrite Hcs. cbn [self with_self with_parameters gvi].
    rewrite (bool_decide_true (kwargs <> ∅)) by assumption.
    destruct (bool_decide (changed <> ∅)); unfold clear_results; mrun;
      cbn [self with_self with_parameters with_xml_calc with_results gvi];
      rewrite Hgs; eexists; (split; [reflexivity|]); split; reflexivity.
Qed.

End Keywords.

(** ** The persisted sort index *)

(** The calculator with [sort] and [resort] replaced. *)
Definition with_sort_index (s r : list Z) (w : World) : World :=
  with_self (with_gvi (with_sort s r (gvi (self w))) (self w)) w.

Lemma with_sort_index_twice s r s' r' w :
  with_sort_index s' r' (with_sort_index s r w) = with_sort_index s' r' w.
Proof. reflexivity. Qed.

(** A well-formed line adds one number to each list. *)
Lemma read_sort_line_Ok line a b x y w :
  Py.split line = [a; b] -> Py.int a = Some x -> Py.int b = Some y ->
  read_sort_line line w =
    (with_sort_index (sort (gvi (self w)) ++ [x]) (resort (gvi (self w)) ++ [y]) w, Ok tt).
Proof.
  intros Hs Ha Hb. unfold read_sort_line. rewrite Hs. mrun. rewrite Ha, Hb. reflexivity.
Qed.

(** Whatever a line holds, it raises nothing but [ValueError]. *)
Lemma read_sort_line_error line w e :
  snd (read_sort_line line w) = Raise e -> e = ValueError.
Proof.
  unfold read_sort_line.
  destruct (Py.split line) as [|a [|b [|c l]]]; mrun;
    try (intros [= <-]; reflexivity).
  destruct (Py.int a); cbn; [|intros [= <-]; reflexivity].
  destruct (Py.int b); cbn; [discriminate|intros [= <-]; reflexivity].
Qed.

Lemma read_sort_line_bad_count line w :
  length (Py.split line) <> 2%nat -> snd (read_sort_line line w) = Raise ValueError.
Proof.
  unfold read_sort_line.
  destruct (Py.split line) as [|a [|b [|c l]]]; cbn [length]; try reflexivity.
  intros Hn. exfalso. apply Hn. reflexivity.
Qed.

Lemma for_each_lines_Ok lines xs ys w :
  Forall3 (fun line x y =>
             exists a b, Py.split line = [a; b] /\ Py.int a = Some x /\ Py.int b = Some y)
          lines xs ys ->
  for_each lines read_sort_line w =
    (with_sort_index (sort (gvi (self w)) ++ xs) (resort (gvi (self w)) ++ ys) w, Ok tt).
Proof.
  intros Hl. revert w. induction Hl as [|line x y lines xs ys (a & b & Hs & Ha & Hb) _ IH];
    intros w; cbn [for_each].
  - rewrite !app_nil_r. destruct w as [[? ? ? [] ? ? ? ? ? ? ? ? ?] ? ? ? ? ? ?]. reflexivity.
  - unfold mbind, M_bind. rewrite (read_sort_line_Ok _ _ _ _ _ _ Hs Ha Hb).
    rewrite IH. cbn. rewrite <- !app_assoc. reflexivity.
Qed.

Lemma for_each_bad_count lines w :
  Exists (fun line => length (Py.split line) <> 2%nat) lines ->
  snd (for_each lines read_sort_line w) = Raise ValueError.
Proof.
  intros Hex. revert w. induction lines as [|line lines IH]; intros w.
  - inversion Hex.
  - cbn [for_each]. unfold mbind, M_bind.
    destruct (read_sort_line line w) as [w1 [e|[]]] eqn:Hline.
    + cbn. f_equal. eapply read_sort_line_error. rewrite Hline. reflexivity.
    + apply IH. inversion Hex as [? ? Hbad|]; subst; [|assumption].
      pose proof (read_sort_line_bad_count line w Hbad) as Hr.
      rewrite Hline in Hr. discriminate.
Qed.

Section SortIndex.

Context `{Parent}.

(** C8.  When [ase-sort.dat] is there, its lines alone decide: lines of two
    integers each give [sort] and [resort], whatever the structure, and a
    line that does not hold two tokens raises [ValueError]; when it is not
    there, the index is made anew by [initialize] from the structure of
    [CONTCAR]. *)
Theorem read_sort_trusts_file (w : World) (d : Dir) :
  fs w !! directory (self w) = Some d ->
  (forall fd xs ys,
     ase_sort_dat d = Some fd ->
     Forall3 (fun line x y =>
                exists a b, Py.split line = [a; b] /\
                            Py.int a = Some x /\ Py.int b = Some y) fd xs ys ->
     read_sort w = (with_sort_index xs ys w, Ok tt)) /\
  (forall fd,
     ase_sort_dat d = Some fd ->
     Exists (fun line => length (Py.split line) <> 2%nat) fd ->
     snd (read_sort w) = Raise ValueError) /\
  (ase_sort_dat d = None ->
   forall atoms g,
     CONTCAR d = Some atoms -> initialize atoms (gvi (self w)) = Ok g ->
     read_sort w = (with_self (with_gvi g (self w)) w, Ok tt)).
Proof.
  intros Hd. split; [|split].
  - intros fd xs ys Hfd Hlines. unfold read_sort, get_dir. mrun.
    rewrite Hd. cbn. rewrite Hfd.
    rewrite (for_each_lines_Ok _ _ _ _ Hlines). reflexivity.
  - intros fd Hfd Hbad. unfold read_sort, get_dir. mrun.
    rewrite Hd. cbn. rewrite Hfd.
    apply for_each_bad_count. exact Hbad.
  - intros Hfd atoms g Hc Hi. unfold read_sort, read_CONTCAR, get_dir. mrun.
    rewrite Hd. cbn. rewrite Hfd. rewrite Hd. cbn. rewrite Hc. cbn.
    rewrite Hi. reflexivity.
Qed.

End SortIndex.

(** ** A failed run *)

Section Calculate.

Context `{Parent}.

(** The statements of [calculate] that come before the external program is
    run: the command and the output stream that the run is given. *)
Definition before_run (atoms : option loc) : M (pyval * outstream) :=
  check_atoms atoms;;
  clear_results;;
  match atoms with
  | Some l => l' ← copy l; set_atoms (Some l')
  | None => mret tt
  end;;
  v ← get_self;
  command ← make_command (command v);
  v ← get_self;
  write_input (_atoms v);;
  out ← _txt_outstream;
  mret (command, out).

Definition no_results (w : World) : Prop := results (self w) = ∅.

Ltac frame_self :=
  apply preserves_modify_self; intros; assumption.

Lemma clear_results_no_results w : no_results (fst (clear_results w)).
Proof. reflexivity. Qed.

Lemma preserves_clear_results : preserves no_results clear_results.
Proof. intros w _. reflexivity. Qed.

Lemma preserves_copy l : preserves no_results (copy l).
Proof.
  unfold copy, deref, alloc. frame.
  apply preserves_modify_world; intros; assumption.
Qed.

Lemma preserves_check_state l tol : preserves no_results (check_state l tol).
Proof. intros w Hw. rewrite check_state_frame. exact Hw. Qed.

Lemma preserves_set_atoms a : preserves no_results (set_atoms a).
Proof.
  unfold set_atoms. destruct a as [l|].
  - apply preserves_bind; [apply preserves_check_state|intros changes].
    apply preserves_bind; [destruct changes; [frame|apply preserves_clear_results]|intros].
    apply preserves_bind; [apply preserves_copy|intros]. frame_self.
  - apply preserves_bind; [frame_self|intros]. apply preserves_clear_results.
Qed.

Lemma preserves_make_command c : preserves no_results (make_command c).
Proof. unfold make_command. frame. Qed.

Lemma preserves_write_input a : preserves no_results (write_input a).
Proof.
  unfold write_input, update_dir, deref.
  frame; try frame_self; apply preserves_modify_world; intros; assumption.
Qed.

Lemma preserves_txt_outstream : preserves no_results _txt_outstream.
Proof.
  unfold _txt_outstream. frame.
Qed.

Lemma before_run_no_results atoms w w1 x :
  before_run atoms w = (w1, Ok x) -> no_results w1.
Proof.
  unfold before_run. intros Hb.
  apply bind_Ok in Hb as (wa & [] & _ & Hb).
  apply bind_Ok in Hb as (wb & [] & Hclear & Hb).
  assert (Hwb : no_results wb).
  { pose proof (clear_results_no_results wa) as Hc. rewrite Hclear in Hc. exact Hc. }
  match type of Hb with ?m wb = _ =>
    assert (Hp : preserves no_results m)
  end.
  { apply preserves_bind.
    - destruct atoms; [|frame].
      apply preserves_bind; [apply preserves_copy|intros; apply preserves_set_atoms].
    - intros. frame.
      + apply preserves_make_command.
      + apply preserves_write_input.
      + apply preserves_txt_outstream. }
  specialize (Hp wb Hwb). rewrite Hb in Hp. exact Hp.
Qed.

(** C2.  When [calculate] has come to run the external program and the
    program exits with a status that is not zero, [CalculationFailed] is
    raised with the name of the program, the directory and the status in
    its message, and the results are empty: they were cleared before the
    run and nothing has been put into them. *)
Theorem calculate_failure (w w1 : World) (atoms : option loc)
    (command : string) (out : outstream) (errorcode : Z)
    (files : gmap string Dir) :
  before_run atoms w = (w1, Ok (PStr command, out)) ->
  shell w1 command (directory (self w1)) (fs w1) = (errorcode, files) ->
  errorcode <> 0 ->
  calculate atoms w =
    (with_fs files w1,
     Raise (CalculationFailed
              ("vasp in " +:+ directory (self w1) +:+ " returned an error: " +:+
               pretty errorcode))) /\
  results (self (with_fs files w1)) = ∅.
Proof.
  intros Hb Hsh Hcode. split.
  - unfold before_run in Hb. unfold calculate.
    repeat match type of Hb with
    | (_ ≫= _) _ = _ =>
        let Hm := fresh "Hm" in
        apply bind_Ok in Hb as (? & ? & Hm & Hb);
        unfold mbind at 1, M_bind at 1; rewrite Hm
    end.
    injection Hb as -> -> ->.
    unfold _run, get_command, is_none. mrun. rewrite Hsh. cbn.
    destruct (Z.eqb_spec errorcode 0) as [->|_]; [congruence|]. reflexivity.
  - exact (before_run_no_results _ _ _ _ Hb).
Qed.

End Calculate.

(** ** The sort permutation *)

(** The Sort Permutation of a structure of [n] sites: [sort] and [resort]
    hold [n] site indices each and [resort[sort[i]] = i] for every [i]. *)
Definition sort_permutation (n : nat) (sort resort : list Z) : Prop :=
  length sort = n /\ length resort = n /\
  forall i, (i < n)%nat ->
    exists s, sort !! i = Some (Z.of_nat s) /\ (s < n)%nat /\
              resort !! s = Some (Z.of_nat i).

Lemma index_nonneg_inv {A} (l : list A) (i : nat) x :
  Seq.index l (Z.of_nat i) = Ok x -> l !! i = Some x.
Proof.
  unfold Seq.index.
  destruct (Z.ltb_spec (Z.of_nat i) 0); [lia|].
  destruct (_ && _); [|discriminate].
  rewrite Nat2Z.id. destruct (l !! i); [|discriminate].
  intros [= ->]. reflexivity.
Qed.

(** [sort] is onto: [sort[resort[j]] = j] as well. *)
Lemma sort_permutation_inverse n sort resort j :
  sort_permutation n sort resort -> (j < n)%nat ->
  exists i, (i < n)%nat /\ resort !! j = Some (Z.of_nat i) /\
            sort !! i = Some (Z.of_nat j).
Proof.
  intros (Hls & Hlr & Hinv) Hj.
  set (ss := Z.to_nat <$> sort).
  assert (Hss : forall i s, ss !! i = Some s ->
            (i < n)%nat /\ sort !! i = Some (Z.of_nat s) /\ (s < n)%nat /\
            resort !! s = Some (Z.of_nat i)).
  { intros i s Hi. unfold ss in Hi. rewrite list_lookup_fmap in Hi.
    assert (Hin : (i < n)%nat).
    { destruct (sort !! i) eqn:Hsi; [|discriminate].
      apply lookup_lt_Some in Hsi. lia. }
    destruct (Hinv i Hin) as (s' & Hs' & Hlt & Hr).
    rewrite Hs' in Hi. cbn in Hi. rewrite Nat2Z.id in Hi. injection Hi as <-.
    auto. }
  assert (Hnd : NoDup ss).
  { apply NoDup_alt. intros i i' s Hi Hi'.
    apply Hss in Hi as (_ & _ & _ & Hr). apply Hss in Hi' as (_ & _ & _ & Hr').
    rewrite Hr in Hr'. injection Hr' as Heq. lia. }
  assert (Hsub : ss ⊆+ seq 0 n).
  { apply NoDup_submseteq; [exact Hnd|]. intros s Hs.
    apply list_elem_of_lookup in Hs as [i Hi]. apply Hss in Hi as (_ & _ & Hlt & _).
    apply elem_of_seq. lia. }
  assert (Hperm : ss ≡ₚ seq 0 n).
  { apply submseteq_length_Permutation; [exact Hsub|].
    unfold ss. rewrite length_fmap, length_seq. lia. }
  assert (Hjin : j ∈ ss).
  { rewrite Hperm. apply elem_of_seq. lia. }
  apply list_elem_of_lookup in Hjin as [i Hi].
  apply Hss in Hi as (Hin & Hs & _ & Hr). eauto.
Qed.

(** Indexing by [resort] undoes the order of the external program. *)
Lemma resort_restores {A} n sort resort (caller external stored : list A) :
  sort_permutation n sort resort -> length caller = n ->
  Forall2 (fun s x => Seq.index caller s = Ok x) sort external ->
  Forall2 (fun r x => Seq.index external r = Ok x) resort stored ->
  stored = caller.
Proof.
  intros Hsp Hlen Hext Hst.
  pose proof Hsp as (Hls & Hlr & _).
  apply list_eq_same_length with n; [exact Hlen|apply Forall2_length in Hst; lia|].
  - intros j x y Hj Hx Hy.
    destruct (sort_permutation_inverse n sort resort j Hsp Hj) as (i & Hi & Hr & Hs).
    destruct (Forall2_lookup_l _ _ _ _ _ Hst Hr) as (x' & Hx' & Hix).
    rewrite Hx in Hx'. injection Hx' as <-.
    apply index_nonneg_inv in Hix.
    destruct (Forall2_lookup_r _ _ _ _ _ Hext Hix) as (s & Hs' & Hic).
    rewrite Hs in Hs'. injection Hs' as <-.
    apply index_nonneg_inv in Hic. congruence.
Qed.

(** ** Per-atom arrays *)

(** [stored] is [external] indexed by [resort]: it is as long as [resort]
    and [stored[i] = external[resort[i]]] for every [i]. *)
Definition resorted {A} (resort : list Z) (external stored : list A) : Prop :=
  Forall2 (fun r x => Seq.index external r = Ok x) resort stored.

(** A method that changes nothing leaves every world as it is. *)
Lemma unchanged {A} (m : M A) :
  (forall w0, preserves (fun w => w = w0) m) -> forall w, fst (m w) = w.
Proof. intros Hm w. apply (Hm w w). reflexivity. Qed.

Lemma lines_or_OUTCAR_frame lines w : fst (lines_or_OUTCAR lines w) = w.
Proof.
  apply unchanged. intros w0. unfold lines_or_OUTCAR, load_file_OUTCAR, get_dir.
  frame.
Qed.

Lemma len_atoms_frame w : fst (len_atoms w) = w.
Proof. apply unchanged. intros w0. unfold len_atoms, deref. frame. Qed.

(** With [all] switched on, every block that is kept has been indexed. *)
Lemma forces_fold_all resort lines natoms l st st' :
  foldR (forces_step true resort lines natoms) st l = Ok st' ->
  Forall (fun stored => exists external, resorted resort external stored) (snd st) ->
  Forall (fun stored => exists external, resorted resort external stored) (snd st').
Proof.
  revert st. induction l as [|[n line] l IH]; intros [forces all_forces]; cbn [foldR].
  - intros [= <-]. auto.
  - unfold mbind at 1, result_bind at 1.
    destruct (forces_step true resort lines natoms (forces, all_forces) (n, line))
      as [e|st1] eqn:Hstep; [discriminate|].
    intros Hfold Hall. apply (IH _ Hfold).
    unfold forces_step in Hstep.
    destruct (Py.contains "TOTAL-FORCE" line); [|injection Hstep as <-; exact Hall].
    destruct natoms as [e|k]; [discriminate|]. cbn in Hstep.
    destruct (forces_at lines n k) as [e|external]; [discriminate|]. cbn in Hstep.
    destruct (Seq.take external resort) as [e|r] eqn:Hr; [discriminate|].
    injection Hstep as <-. cbn [snd]. apply Forall_app. split; [exact Hall|].
    apply Forall_singleton. exists external. apply take_Forall2. exact Hr.
Qed.

Section Arrays.

Context `{Parent}.

Definition stores_forces (x : pyval) (w : World) : Prop :=
  results (self w) !! "forces" = Some x.

Ltac frame_forces :=
  frame;
  try (apply preserves_modify_self; intros; assumption);
  try (apply preserves_modify_world; intros; assumption).

Lemma preserves_reading x (lines : option (list string)) :
  preserves (stores_forces x) (read_convergence lines) /\
  preserves (stores_forces x) read_version /\
  preserves (stores_forces x) (read_mag lines) /\
  preserves (stores_forces x) (read_dipole lines) /\
  preserves (stores_forces x) (read_nbands lines).
Proof.
  unfold read_convergence, read_relaxed, read_version, read_mag, read_dipole,
    read_nbands, _read_magnetic_moment, _read_magnetic_moments, len_atoms, deref,
    lines_or_OUTCAR, load_file_OUTCAR, get_dir, warn.
  repeat split; frame_forces.
Qed.

Lemma preserves_update_results x new :
  new !! "forces" = None -> preserves (stores_forces x) (update_results new).
Proof.
  intros Hnew. apply preserves_modify_self. intros w Hw.
  unfold stores_forces in *. cbn. rewrite lookup_union_r by exact Hnew. exact Hw.
Qed.

Lemma preserves_old_keywords x :
  preserves (stores_forces x) _set_old_keywords.
Proof.
  unfold _set_old_keywords, get_xml_calc, set_old_keyword. frame_forces.
Qed.


End Arrays.

(** ** Text of the log *)

Lemma app_nil s : "" +:+ s = s.
Proof. reflexivity. Qed.

Lemma app_cons c s t : String c s +:+ t = String c (s +:+ t).
Proof. reflexivity. Qed.

Lemma app_assoc_str s t u : (s +:+ t) +:+ u = s +:+ t +:+ u.
Proof.
  induction s as [|c s IH]; [reflexivity|]. rewrite !app_cons. f_equal. exact IH.
Qed.

Lemma split_on_app sep m x :
  Py.split_on sep (m +:+ String sep x) = (Py.split_on sep m ++ Py.split_on sep x)%list.
Proof.
  unfold Py.split_on. induction m as [|c m IH];
    rewrite ?app_nil, ?app_cons; cbn [Py.split_on_go].
  - rewrite Ascii.eqb_refl. destruct (Py.split_on_go sep x). reflexivity.
  - destruct (Py.split_on_go sep (m +:+ String sep x)) as [t ts].
    destruct (Py.split_on_go sep m) as [t1 ts1].
    destruct (Py.split_on_go sep x) as [t2 ts2].
    cbn in IH. injection IH as -> ->.
    destruct (Ascii.eqb c sep); reflexivity.
Qed.

(** No character of [s] is [c]. *)
Fixpoint without (c : ascii) (s : string) : Prop :=
  match s with
  | EmptyString => True
  | String c' s' => c' <> c /\ without c s'
  end.

Lemma split_on_without sep x : without sep x -> Py.split_on sep x = [x].
Proof.
  unfold Py.split_on. induction x as [|c x IH]; [reflexivity|].
  intros [Hc Hx]. cbn [Py.split_on_go]. specialize (IH Hx).
  destruct (Py.split_on_go sep x) as [t ts]. injection IH as -> ->.
  apply Ascii.eqb_neq in Hc. rewrite Hc. reflexivity.
Qed.

Lemma join_split_on sep m :
  Py.join (String sep EmptyString) (Py.split_on sep m) = m.
Proof.
  unfold Py.join, Py.split_on. induction m as [|c m IH]; [reflexivity|].
  cbn [Py.split_on_go]. destruct (Py.split_on_go sep m) as [t ts].
  destruct (Ascii.eqb_spec c sep) as [->|Hne].
  - cbn [String.concat]. rewrite app_nil, app_cons, app_nil. f_equal. exact IH.
  - destruct ts as [|t' ts]; cbn [String.concat] in *.
    + f_equal. exact IH.
    + rewrite app_cons. f_equal. exact IH.
Qed.

Lemma split_on_nonempty sep m : Py.split_on sep m <> [].
Proof. unfold Py.split_on. destruct (Py.split_on_go sep m). discriminate. Qed.

Lemma join_snoc sep l y :
  l <> [] -> Py.join sep (l ++ [y]) = Py.join sep l +:+ sep +:+ y.
Proof.
  unfold Py.join. induction l as [|s l IH]; [congruence|]. intros _.
  destruct l as [|s' l].
  - reflexivity.
  - cbn [app String.concat] in *. rewrite IH by discriminate.
    rewrite !app_assoc_str. reflexivity.
Qed.

Lemma without_contains2 c1 c2 x :
  without c1 x -> Py.contains (String c1 (String c2 EmptyString)) x = false.
Proof.
  induction x as [|c x IH]; [reflexivity|]. intros [Hc Hx].
  cbn [Py.contains String.prefix].
  destruct (ascii_dec c1 c) as [->|_]; [congruence|]. cbn. auto.
Qed.

(** Where the mantissa holds no [e], the only [-e] of the joined text is
    the one put in. *)
Lemma replace_exponent m x :
  without "e" m -> without "-" x ->
  Py.replace "-e" "e-" (m +:+ "-e" +:+ x) = m +:+ "e-" +:+ x.
Proof.
  intros Hm Hx. unfold Py.replace. induction m as [|c m IH].
  - rewrite !app_nil. change ("-e" +:+ x) with (String "-" (String "e" x)).
    assert (Hp : String.prefix "-e" (String "-" (String "e" x)) = true).
    { cbn [String.prefix].
      destruct (ascii_dec "-" "-"); [|congruence].
      destruct (ascii_dec "e" "e"); [|congruence].
      destruct x; reflexivity. }
    change (Py.replace_go "-e" "e-" 0 (String "-" (String "e" x)))
      with (if String.prefix "-e" (String "-" (String "e" x))
            then "e-" +:+ Py.replace_go "-e" "e-" 0 x
            else String "-" (Py.replace_go "-e" "e-" 0 (String "e" x))).
    rewrite Hp. f_equal.
    apply (replace_absent "-e" "e-").
    apply without_contains2. exact Hx.
  - destruct Hm as [Hc Hm].
    change (String c m +:+ "-e" +:+ x) with (String c (m +:+ "-e" +:+ x)).
    change (String c m +:+ "e-" +:+ x) with (String c (m +:+ "e-" +:+ x)).
    cbn [Py.replace_go].
    assert (Hp : String.prefix "-e" (String c (m +:+ "-e" +:+ x)) = false).
    { destruct m as [|c' m]; rewrite ?app_nil, ?app_cons.
      - change ("-e" +:+ x) with (String "-" (String "e" x)).
        cbn [String.prefix]. destruct (ascii_dec "-" c); [|reflexivity].
        destruct (ascii_dec "e" "-"); [discriminate|reflexivity].
      - destruct Hm as [Hc' _]. cbn [String.prefix].
        destruct (ascii_dec "-" c); [|reflexivity].
        destruct (ascii_dec "e" c'); [congruence|reflexivity]. }
    rewrite Hp. f_equal. apply IH. exact Hm.
Qed.

Lemma lower_app s t : Py.lower (s +:+ t) = Py.lower s +:+ Py.lower t.
Proof.
  induction s as [|c s IH]; [reflexivity|].
  rewrite app_cons. cbn [Py.lower]. rewrite app_cons. f_equal. exact IH.
Qed.

Lemma contains1_cons c c' s :
  Py.contains (String c EmptyString) (String c' s) = false ->
  c' <> c /\ Py.contains (String c EmptyString) s = false.
Proof.
  cbn [Py.contains String.prefix]. destruct (ascii_dec c c') as [->|Hne].
  - destruct s; discriminate.
  - cbn. auto.
Qed.

Lemma without_of_contains c s :
  Py.contains (String c EmptyString) s = false -> without c s.
Proof.
  induction s as [|c' s IH]; [constructor|]. intros Hc.
  apply contains1_cons in Hc as [Hne Hc]. split; auto.
Qed.

Lemma not_lower_e c : Py.lower_ascii c <> "e"%char -> c <> "e"%char.
Proof. intros Hl ->. apply Hl. reflexivity. Qed.

Lemma without_e_of_lower s : without "e" (Py.lower s) -> without "e" s.
Proof.
  induction s as [|c s IH]; [auto|]. intros [Hc Hs].
  split; [apply not_lower_e; exact Hc|auto].
Qed.

Lemma contains_app_l needle s t :
  Py.contains needle (s +:+ t) = false -> Py.contains needle t = false.
Proof.
  induction s as [|c s IH]; [auto|]. rewrite app_cons. intros Hc.
  apply contains_cons in Hc as [_ Hc]. auto.
Qed.

Lemma without_app c s t : without c (s +:+ t) -> without c s /\ without c t.
Proof.
  induction s as [|c' s IH]; rewrite ?app_nil, ?app_cons; cbn [without]; [auto|].
  intros [Hc Hs]. apply IH in Hs as [Hs Ht]. auto.
Qed.

(** The repair: a second number written without the [e] of its exponent,
    the mantissa [m] followed by [-] and the digits [x], becomes
    [m e- x]. *)
Lemma fix_exponent_repairs m x :
  Py.contains "e" (Py.lower (m +:+ "-" +:+ x)) = false ->
  without "-" x ->
  fix_exponent (m +:+ "-" +:+ x) = m +:+ "e-" +:+ x.
Proof.
  intros He Hx. unfold fix_exponent. rewrite He. cbn [negb].
  apply without_of_contains, without_e_of_lower, without_app in He as [Hm _].
  change (m +:+ "-" +:+ x) with (m +:+ String "-" x).
  rewrite split_on_app, (split_on_without "-" x Hx).
  rewrite reverse_snoc. rewrite reverse_cons, reverse_involutive.
  rewrite join_snoc by apply split_on_nonempty.
  rewrite join_split_on.
  change ("-" +:+ "e" +:+ x) with ("-e" +:+ x).
  apply replace_exponent; assumption.
Qed.

(** ** Convergence *)

(** The order of the lists: the first magnitude is below the threshold, or
    it is the threshold and the second one is below it. *)
Lemma pair_lt_spec a b ediff :
  pair_lt a b ediff = true <->
  (Qabs a < ediff)%Q \/ ((Qabs a == ediff)%Q /\ (Qabs b < ediff)%Q).
Proof.
  unfold pair_lt.
  destruct (Qeq_bool (Qabs a) ediff) eqn:Ha; cbn [negb].
  - apply Qeq_bool_iff in Ha.
    destruct (Qeq_bool (Qabs b) ediff) eqn:Hb; cbn [negb].
    + apply Qeq_bool_iff in Hb. split; [discriminate|].
      intros [Hlt|[_ Hlt]]; exfalso.
      * rewrite Ha in Hlt. exact (Qlt_irrefl _ Hlt).
      * rewrite Hb in Hlt. exact (Qlt_irrefl _ Hlt).
    + rewrite negb_true_iff. split.
      * intros Hle. right. split; [exact Ha|].
        apply Qnot_le_lt. intros Hle'. apply Qle_bool_iff in Hle'. congruence.
      * intros [Hlt|[_ Hlt]].
        -- exfalso. rewrite Ha in Hlt. exact (Qlt_irrefl _ Hlt).
        -- destruct (Qle_bool ediff (Qabs b)) eqn:Hle; [|reflexivity].
           apply Qle_bool_iff in Hle. exfalso. exact (Qlt_not_le _ _ Hlt Hle).
  - rewrite negb_true_iff. split.
    + intros Hle. left.
      apply Qnot_le_lt. intros Hle'. apply Qle_bool_iff in Hle'. congruence.
    + intros [Hlt|[Heq _]].
      * destruct (Qle_bool ediff (Qabs a)) eqn:Hle; [|reflexivity].
        apply Qle_bool_iff in Hle. exfalso. exact (Qlt_not_le _ _ Hlt Hle).
      * apply Qeq_bool_iff in Heq. congruence.
Qed.

Lemma pyval_eq_int i j : PyVal.eq (PInt i) (PInt j) = bool_decide (i = j).
Proof.
  cbn [PyVal.eq PyVal.number].
  destruct (decide (i = j)) as [->|Hne].
  - rewrite bool_decide_true by reflexivity. apply Qeq_bool_refl.
  - rewrite bool_decide_false by assumption.
    destruct (Qeq_bool (inject_Z i) (inject_Z j)) eqn:Hq; [|reflexivity].
    apply Qeq_bool_iff in Hq. unfold Qeq in Hq. cbn in Hq. lia.
Qed.

(** A line that the first loop of [read_convergence] passes over. *)
Definition quiet (line : string) : Prop :=
  Py.contains "EDIFF  " line = false /\
  (Py.contains "total energy-change" line = false \/
   Py.contains "MIXING" line = true).

Lemma electronic_step_quiet st line : quiet line -> electronic_step st line = Ok st.
Proof.
  intros [He Ht]. destruct st as [ediff converged]. unfold electronic_step.
  rewrite He. cbn.
  destruct (Py.contains "total energy-change" line); [|reflexivity].
  destruct Ht as [Ht| ->]; [discriminate|reflexivity].
Qed.

Lemma electronic_step_line ediff converged line a b :
  Py.contains "EDIFF  " line = false ->
  Py.contains "total energy-change" line = true ->
  Py.contains "MIXING" line = false ->
  energy_change_pair line = Ok (a, b) ->
  electronic_step (Some ediff, converged) line
    = Ok (Some ediff, PBool (pair_lt a b ediff)).
Proof.
  intros He Ht Hm Hp. unfold electronic_step. rewrite He, Ht, Hm, Hp. reflexivity.
Qed.

Lemma foldR_app {A S} (f : S -> A -> result S) s l1 l2 :
  foldR f s (l1 ++ l2) = (s' ← foldR f s l1; foldR f s' l2).
Proof.
  revert s. induction l1 as [|x l1 IH]; intros s; [reflexivity|].
  cbn [app foldR]. destruct (f s x) as [e|s1]; [reflexivity|]. cbn. apply IH.
Qed.

Lemma foldR_quiet st lines :
  Forall quiet lines -> foldR electronic_step st lines = Ok st.
Proof.
  induction 1 as [|line lines Hq _ IH]; [reflexivity|].
  cbn [foldR]. rewrite (electronic_step_quiet _ _ Hq). exact IH.
Qed.

(** The verdict of the specification: every check that applies must
    pass. *)
Definition claimed_convergence (electronic : pyval) (requested relaxed : bool)
  : pyval :=
  if requested then PBool (PyVal.truthy electronic && relaxed) else electronic.

(** A log of a relaxation whose last electronic loop did not converge, and
    that still holds the marker line. *)
Definition unconverged_log : list string :=
  ["   EDIFF  = 0.1E-03   stopping-criterion for ELM" +:+ String "010" "";
   "  total energy-change (2. order) : 0.5000000E+00  ( 0.4000000E+00)" +:+ String "010" "";
   " reached required accuracy - stopping structural energy minimisation" +:+ String "010" ""].

Definition relaxing_world : World :=
  let w := Fresh.world 0 in
  let g := gvi (self w) in
  let g' :=
    mkGVI (float_params g) (exp_params g) (string_params g)
      (<["ibrion" := PInt 2]> (<["nsw" := PInt 5]> (int_params g)))
      (input_params g) (bool_params g) (list_int_params g) (list_bool_params g)
      (list_float_params g) (dict_params g) (sort g) (resort g) (spinpol g) in
  with_fs {["." := mkDir (Some unconverged_log) None None XmlAbsent]}
    (with_self (with_gvi g' (self w)) w).



(** ** Magnetic moments *)

(** The per-atom moments were not asked for: [lorbit] is [None] or a number
    below 10, and [rwigs] is not set. *)
Definition moments_not_requested (p q : gmap string pyval) : Prop :=
  exists lorbit rwigs,
    p !! "lorbit" = Some lorbit /\ q !! "rwigs" = Some rwigs /\
    PyVal.truthy rwigs = false /\
    (lorbit = PNone \/ exists x, PyVal.number lorbit = Some x /\ (x < 10)%Q).

Lemma moments_not_written p q :
  moments_not_requested p q -> moments_written p q = Ok false.
Proof.
  intros (lorbit & rwigs & Hl & Hr & Ht & Hcase). unfold moments_written, lookup_key.
  rewrite Hl. cbn. destruct Hcase as [->|(x & Hx & Hlt)].
  - rewrite Hr. cbn. rewrite Ht. reflexivity.
  - assert (Hle : Qle_bool 10 x = false).
    { destruct (Qle_bool 10 x) eqn:Hle; [|reflexivity].
      apply Qle_bool_iff in Hle. exfalso. exact (Qlt_not_le _ _ Hlt Hle). }
    destruct lorbit; cbn in Hx; try discriminate; injection Hx as <-;
      cbn [PyVal.number]; rewrite Hle; reflexivity.
Qed.

(** The total moment that [_read_magnetic_moment] finds in the lines. *)
Definition net_moment (lines : list string) : result Q :=
  m ← foldR magnetic_moment_step None lines;
  of_option (UnboundLocalError "magnetic_moment") m.

Lemma lines_or_OUTCAR_again lines w ls :
  snd (lines_or_OUTCAR lines w) = Ok ls ->
  lines_or_OUTCAR lines w = (w, Ok ls) /\ lines_or_OUTCAR (Some ls) w = (w, Ok ls).
Proof.
  intros Hls. pose proof (lines_or_OUTCAR_frame lines w) as Hfr.
  destruct (lines_or_OUTCAR lines w) as [w1 r] eqn:Hl. cbn in Hls, Hfr. subst.
  split; [reflexivity|].
  destruct ls as [|x ls]; [|reflexivity].
  destruct lines as [[|y lines]|]; [exact Hl|discriminate|exact Hl].
Qed.


(** ** The persisted snapshot *)

Lemma not_none_lookup (d : gmap string pyval) k v :
  not_none d !! k = Some v <-> d !! k = Some v /\ is_none v = false.
Proof. unfold not_none. rewrite map_lookup_filter_Some. reflexivity. Qed.

(** The entries of [kwargs] whose key is one of [keys]. *)
Definition restrict (kwargs : gmap string pyval) (keys : gset string)
  : gmap string pyval :=
  filter (fun kv => fst kv ∈ keys) kwargs.

(** Every key is a key of one parameter dictionary only. *)
Definition one_owner (g : GenerateVaspInput) : Prop :=
  forall c c' k, k ∈ dom (getattr c g) -> k ∈ dom (getattr c' g) -> c = c'.

Definition flatten_from (inputs : gmap string pyval)
    (state : list (category * gmap string pyval)) : gmap string pyval :=
  foldl (fun inputs '(_, param_dct) => not_none param_dct ∪ inputs) inputs state.

Lemma flatten_from_Some state inputs k v :
  flatten_from inputs state !! k = Some v ->
  inputs !! k = Some v \/
  exists c d, (c, d) ∈ state /\ d !! k = Some v /\ is_none v = false.
Proof.
  revert inputs. induction state as [|[c d] state IH]; intros inputs; cbn [flatten_from foldl].
  - auto.
  - intros Hk. apply IH in Hk as [Hk|(c' & d' & Hin & Hd & Hv)].
    + apply lookup_union_Some_raw in Hk as [Hk|[_ Hk]].
      * apply not_none_lookup in Hk as [Hk Hv]. right. exists c, d.
        split; [apply list_elem_of_here|auto].
      * auto.
    + right. exists c', d'. split; [apply list_elem_of_further; exact Hin|auto].
Qed.

Lemma flatten_from_intro state inputs k v :
  (inputs !! k = Some v \/
   exists c d, (c, d) ∈ state /\ d !! k = Some v /\ is_none v = false) ->
  (forall c d, (c, d) ∈ state -> forall v', d !! k = Some v' -> v' = v) ->
  flatten_from inputs state !! k = Some v.
Proof.
  revert inputs. induction state as [|[c d] state IH]; intros inputs Hk Hall;
    cbn [flatten_from foldl].
  - destruct Hk as [Hk|(c' & d' & Hin & _)]; [exact Hk|]. inversion Hin.
  - apply IH.
    + destruct (d !! k) as [v'|] eqn:Hd.
      * assert (v' = v) as -> by (apply (Hall c d); [apply list_elem_of_here|exact Hd]).
        destruct (is_none v) eqn:Hv.
        -- destruct Hk as [Hk|(c' & d' & Hin & Hd' & Hv')]; [|congruence].
           left. apply lookup_union_Some_raw. right. split; [|exact Hk].
           destruct (not_none d !! k) as [u|] eqn:Hu; [|reflexivity].
           apply not_none_lookup in Hu as [Hu Hnu]. congruence.
        -- left. apply lookup_union_Some_raw. left.
           apply not_none_lookup. auto.
      * destruct Hk as [Hk|(c' & d' & Hin & Hd' & Hv')].
        -- left. apply lookup_union_Some_raw. right. split; [|exact Hk].
           destruct (not_none d !! k) as [u|] eqn:Hu; [|reflexivity].
           apply not_none_lookup in Hu as [Hu _]. congruence.
        -- apply elem_of_cons in Hin as [Heq|Hin]; [congruence|].
           right. exists c', d'. auto.
    + intros c' d' Hin. apply (Hall c' d'). apply list_elem_of_further. exact Hin.
Qed.

Lemma snapshot_elem g c d : (c, d) ∈ snapshot g <-> d = getattr c g.
Proof.
  unfold snapshot. split.
  - intros Hin. repeat (apply elem_of_cons in Hin as [[= -> ->]|Hin]; [reflexivity|]).
    inversion Hin.
  - intros ->. destruct c; cbn [getattr];
      repeat (first [apply list_elem_of_here | apply list_elem_of_further]).
Qed.

(** With one owner for every key, the flattened inputs are the entries of
    the parameter dictionaries that are not [None]. *)
Lemma flatten_lookup g k v :
  one_owner g ->
  flatten (snapshot g) !! k = Some v <->
  exists c, getattr c g !! k = Some v /\ is_none v = false.
Proof.
  intros Hown. change (flatten (snapshot g)) with (flatten_from ∅ (snapshot g)). split.
  - intros Hk. apply flatten_from_Some in Hk as [Hk|(c & d & Hin & Hd & Hv)].
    + rewrite lookup_empty in Hk. discriminate.
    + apply snapshot_elem in Hin as ->. eauto.
  - intros (c & Hc & Hv). apply flatten_from_intro.
    + right. exists c, (getattr c g). split; [apply snapshot_elem; reflexivity|auto].
    + intros c' d' Hin v' Hd'. apply snapshot_elem in Hin as ->.
      assert (c' = c) as ->.
      { eapply Hown; apply elem_of_dom; eauto. }
      congruence.
Qed.

Lemma check_state_Ok w l a tol :
  heap w !! l = Some a -> exists changes, check_state l tol w = (w, Ok changes).
Proof.
  intros Ha. unfold check_state, deref. mrun. rewrite Ha. cbn. eauto.
Qed.

(** Assigning a structure that is in the heap returns, and touches neither
    the parameters nor empty results. *)
Lemma set_atoms_Some_Ok w l a :
  heap w !! l = Some a ->
  exists w',
    set_atoms (Some l) w = (w', Ok tt) /\
    gvi (self w') = gvi (self w) /\
    param_state (self w') = param_state (self w) /\
    (results (self w) = ∅ -> results (self w') = ∅).
Proof.
  intros Ha. destruct (check_state_Ok w l a default_tol Ha) as [changes Hc].
  unfold set_atoms. unfold mbind at 1, M_bind at 1. rewrite Hc.
  destruct changes as [|c changes]; unfold copy, deref, alloc, clear_results; mrun;
    cbn [heap with_self with_heap self]; rewrite Ha; cbn;
    (eexists; split; [reflexivity|]); cbn; auto.
Qed.

Section Snapshot.

Context `{Parent}.

(** Export from one calculator, import into another. *)
Definition round_trip (w t : World) : World * result unit :=
  match asdict w with
  | (_, inr dct) => fromdict dct t
  | (_, inl e) => (t, Raise e)
  end.

Definition keeps_inputs (w : World) (w' : World) : Prop :=
  gvi (self w') = gvi (self w) /\ results (self w') = results (self w).

Lemma asdict_Ok w dct :
  snd (asdict w) = Ok dct ->
  dct_inputs dct = Some (flatten (snapshot (gvi (self w)))) /\
  dct_results dct = Some (results (self w)) /\
  is_Some (dct_vasp_version dct).
Proof.
  intros Hd. destruct (asdict w) as [w' r] eqn:Ha. cbn in Hd. subst r.
  unfold asdict in Ha.
  apply bind_Ok in Ha as (w1 & vaspvers & Hv & Ha).
  assert (Hk : keeps_inputs w w1).
  { assert (Hp : preserves (keeps_inputs w) get_version).
    { unfold get_version, read_version, get_dir. frame;
        apply preserves_modify_self; intros; assumption. }
    specialize (Hp w (conj eq_refl eq_refl)). rewrite Hv in Hp. exact Hp. }
  destruct Hk as [Hg Hr].
  apply bind_Ok in Ha as (w2 & [] & Hs & Ha). injection Hs as <-.
  apply bind_Ok in Ha as (w3 & w3' & Hw & Ha). injection Hw as <- <-.
  apply bind_Ok in Ha as (w4 & atoms & _ & Ha). injection Ha as _ <-.
  cbn. rewrite Hg, Hr. eauto.
Qed.

(** The call [m] on [w] returns, and [Q] holds of what it returns and of
    the world after it. *)
Definition returns {A} (m : M A) (w : World) (Q : A -> World -> Prop) : Prop :=
  exists w' a, m w = (w', Ok a) /\ Q a w'.

Lemma returns_bind {A B} (m : M A) (f : A -> M B) w (I : A -> World -> Prop) Q :
  returns m w I -> (forall a w1, I a w1 -> returns (f a) w1 Q) ->
  returns (m ≫= f) w Q.
Proof.
  intros (w1 & a & Hm & HI) Hf. destruct (Hf a w1 HI) as (w2 & b & Hfa & HQ).
  exists w2, b. split; [|exact HQ]. unfold mbind, M_bind. rewrite Hm. exact Hfa.
Qed.

Lemma returns_ret {A} (a : A) w (Q : A -> World -> Prop) :
  Q a w -> returns (mret a) w Q.
Proof. intros HQ. exists w, a. split; [reflexivity|exact HQ]. Qed.

Lemma returns_modify_self f w (Q : unit -> World -> Prop) :
  Q tt (with_self (f (self w)) w) -> returns (modify_self f) w Q.
Proof. intros HQ. eexists _, tt. split; [reflexivity|exact HQ]. Qed.

(** What the keywords of [set] itself leave as it is. *)
Definition same_state (t0 t1 : World) : Prop :=
  heap t1 = heap t0 /\ results (self t1) = results (self t0) /\
  gvi (self t1) = gvi (self t0) /\ parameters (self t1) = parameters (self t0).

Lemma returns_keyword (o : option pyval) (f : pyval -> Vasp -> Vasp) t0 t1 :
  same_state t0 t1 ->
  (forall x v, results (f x v) = results v /\ gvi (f x v) = gvi v /\
               parameters (f x v) = parameters v) ->
  returns (match o with Some x => modify_self (f x) | None => mret tt end) t1
          (fun _ t2 => same_state t0 t2).
Proof.
  intros (Hh & Hr & Hg & Hp) Hf. destruct o as [x|].
  - apply returns_modify_self. destruct (Hf x (self t1)) as (Hr' & Hg' & Hp').
    unfold same_state. cbn. rewrite Hr', Hg', Hp'. auto.
  - apply returns_ret. unfold same_state. auto.
Qed.

(** C7, amended.  Exported by [asdict] and imported by [fromdict] into a
    calculator with the same keys and no results, the parameters that are
    not [None] and the results come back, provided that: every key is a
    key of one parameter dictionary only; [label] and [atoms] are no keys
    of parameters that are not [None], and a parameter named [directory],
    [txt] or [command] that is not [None] has the same value in the
    importing calculator (these keywords [set] takes for itself); the
    importing calculator has no parameter where the exported one has none;
    and the parents store every keyword in the dictionary that has its
    key. *)
Theorem snapshot_round_trip (w t : World) (dct : Snapshot)
    (changed p' : gmap string pyval) (g' : GenerateVaspInput) :
  let inputs := flatten (snapshot (gvi (self w))) in
  let kwargs := pop_all own_keywords inputs in
  snd (asdict w) = Ok dct ->
  one_owner (gvi (self w)) ->
  (forall c, dom (getattr c (gvi (self t))) = dom (getattr c (gvi (self w)))) ->
  (forall c k v, getattr c (gvi (self w)) !! k = Some v ->
                 k ∈ ["label"; "atoms"] -> v = PNone) ->
  (forall c k v, getattr c (gvi (self w)) !! k = Some v -> is_none v = false ->
                 k ∈ ["directory"; "txt"; "command"] ->
                 getattr c (gvi (self t)) !! k = Some v) ->
  (forall c k v, getattr c (gvi (self t)) !! k = Some v -> is_none v = false ->
                 exists v', getattr c (gvi (self w)) !! k = Some v' /\
                            is_none v' = false) ->
  results (self t) = ∅ ->
  Calculator_set kwargs (parameters (self t)) = Ok (changed, p') ->
  (kwargs <> ∅ ->
   GenerateVaspInput_set kwargs (gvi (self t)) = Ok g' /\
   forall c, getattr c g' =
             restrict kwargs (dom (getattr c (gvi (self t)))) ∪ getattr c (gvi (self t))) ->
  (forall x, dct_atoms dct = Some x -> exists a, toatoms x = Ok a) ->
  exists t',
    fromdict dct t = (t', Ok tt) /\
    (forall c, not_none (getattr c (gvi (self t'))) = not_none (getattr c (gvi (self w)))) /\
    param_state (self t') = snapshot (gvi (self t')) /\
    results (self t') = results (self w).
Proof.
  intros inputs kwargs Hd Hown Hdom Hkw Hsame Hfresh Hres Hcs Hgs Hat.
  apply asdict_Ok in Hd as (Hin & Hr & [vv Hv]).
  assert (Hinputs : forall k v, inputs !! k = Some v <->
            exists c, getattr c (gvi (self w)) !! k = Some v /\ is_none v = false).
  { intros k v. apply flatten_lookup. exact Hown. }
  assert (Hnone : forall k, k ∈ ["label"; "atoms"] -> inputs !! k = None).
  { intros k Hk. destruct (inputs !! k) as [v|] eqn:Hi; [|reflexivity].
    apply Hinputs in Hi as (c & Hc & Hn).
    rewrite (Hkw c k v Hc Hk) in Hn. discriminate. }
  (* the parameters after [set] *)
  assert (Hparams : forall c,
    not_none (restrict kwargs (dom (getattr c (gvi (self t)))) ∪ getattr c (gvi (self t)))
      = not_none (getattr c (gvi (self w))) /\
    (kwargs = ∅ ->
     not_none (getattr c (gvi (self t))) = not_none (getattr c (gvi (self w))))).
  { assert (Hk : forall c k v,
      getattr c (gvi (self w)) !! k = Some v -> is_none v = false ->
      (kwargs !! k = Some v /\ k ∉ own_keywords) \/
      (kwargs !! k = None /\ getattr c (gvi (self t)) !! k = Some v)).
    { intros c k v Hw Hn. unfold kwargs. rewrite pop_all_lookup.
      destruct (decide (k ∈ own_keywords)) as [Hk|Hk].
      - right. rewrite bool_decide_true by exact Hk. split; [reflexivity|].
        unfold own_keywords in Hk.
        apply elem_of_cons in Hk as [->|Hk].
        { rewrite (Hkw c _ v Hw) in Hn; [discriminate|apply list_elem_of_here]. }
        apply elem_of_cons in Hk as [->|Hk].
        { apply Hsame; [assumption..|apply list_elem_of_here]. }
        apply elem_of_cons in Hk as [->|Hk].
        { apply Hsame; [assumption..|]. apply list_elem_of_further, list_elem_of_here. }
        apply elem_of_cons in Hk as [->|Hk].
        { rewrite (Hkw c _ v Hw) in Hn; [discriminate|].
          apply list_elem_of_further, list_elem_of_here. }
        apply elem_of_cons in Hk as [->|Hk]; [|inversion Hk].
        apply Hsame; [assumption..|].
        do 2 apply list_elem_of_further. apply list_elem_of_here.
      - left. rewrite bool_decide_false by exact Hk. split; [|exact Hk].
        apply Hinputs. eauto. }
    assert (Hkw' : forall k v, kwargs !! k = Some v ->
      forall c, k ∈ dom (getattr c (gvi (self w))) ->
      getattr c (gvi (self w)) !! k = Some v /\ is_none v = false).
    { intros k v Hkv c Hc. unfold kwargs in Hkv. rewrite pop_all_lookup in Hkv.
      destruct (bool_decide (k ∈ own_keywords)); [discriminate|].
      apply Hinputs in Hkv as (c' & Hc' & Hn).
      assert (c' = c) as -> by (eapply Hown; [apply elem_of_dom; eauto|exact Hc]).
      auto. }
    intros c. split.
    - apply map_eq. intros k.
      destruct (not_none (getattr c (gvi (self w))) !! k) as [v|] eqn:Hw.
      + apply not_none_lookup in Hw as [Hw Hn]. apply not_none_lookup. split; [|exact Hn].
        destruct (Hk c k v Hw Hn) as [[Hkv _]|[Hkv Ht]].
        * apply lookup_union_Some_raw. left. unfold restrict.
          apply map_lookup_filter_Some. split; [exact Hkv|].
          cbn. rewrite Hdom. apply elem_of_dom. eauto.
        * apply lookup_union_Some_raw. right. split; [|exact Ht].
          unfold restrict. apply map_lookup_filter_None. left. exact Hkv.
      + match goal with |- ?m !! k = None =>
          destruct (m !! k) as [v|] eqn:Hm; [|reflexivity] end.
        exfalso. apply not_none_lookup in Hm as [Hm Hn].
        apply lookup_union_Some_raw in Hm as [Hm|[_ Hm]].
        * unfold restrict in Hm. apply map_lookup_filter_Some in Hm as [Hm Hkd].
          cbn in Hkd. rewrite Hdom in Hkd.
          destruct (Hkw' k v Hm c Hkd) as [Hw' Hn'].
          assert (not_none (getattr c (gvi (self w))) !! k = Some v)
            by (apply not_none_lookup; auto).
          congruence.
        * destruct (Hfresh c k v Hm Hn) as (v' & Hw' & Hn').
          destruct (Hk c k v' Hw' Hn') as [[Hkv _]|[_ Ht]].
          -- assert (not_none (getattr c (gvi (self w))) !! k = Some v')
               by (apply not_none_lookup; auto).
             congruence.
          -- assert (v' = v) as -> by congruence.
             assert (not_none (getattr c (gvi (self w))) !! k = Some v)
               by (apply not_none_lookup; auto).
             congruence.
    - intros He. apply map_eq. intros k.
      destruct (not_none (getattr c (gvi (self w))) !! k) as [v|] eqn:Hw.
      + apply not_none_lookup in Hw as [Hw Hn]. apply not_none_lookup. split; [|exact Hn].
        destruct (Hk c k v Hw Hn) as [[Hkv _]|[_ Ht]]; [|exact Ht].
        rewrite He, lookup_empty in Hkv. discriminate.
      + match goal with |- ?m !! k = None =>
          destruct (m !! k) as [v|] eqn:Hm; [|reflexivity] end.
        exfalso. apply not_none_lookup in Hm as [Hm Hn].
        destruct (Hfresh c k v Hm Hn) as (v' & Hw' & Hn').
        destruct (Hk c k v' Hw' Hn') as [[Hkv _]|[_ Ht]].
        * rewrite He, lookup_empty in Hkv. discriminate.
        * assert (v' = v) as -> by congruence.
          assert (not_none (getattr c (gvi (self w))) !! k = Some v)
            by (apply not_none_lookup; auto).
          congruence. }
  (* the calculator after [set] and [_store_param_state] *)
  set (t0 := with_self (with_version vv (self t)) t).
  assert (Hset : returns (set None inputs;; _store_param_state) t0
    (fun _ t1 =>
       heap t1 = heap t /\ results (self t1) = ∅ /\
       param_state (self t1) = snapshot (gvi (self t1)) /\
       forall c, not_none (getattr c (gvi (self t1)))
                 = not_none (getattr c (gvi (self w))))).
  { assert (H0 : same_state t0 t0) by (unfold same_state; auto).
    apply returns_bind with (I := fun _ t1 =>
       heap t1 = heap t /\ results (self t1) = ∅ /\
       forall c, not_none (getattr c (gvi (self t1)))
                 = not_none (getattr c (gvi (self w)))).
    2:{ intros _ t1 (Hh & Hr1 & Hg1). apply returns_modify_self. cbn. auto. }
    unfold set. fold kwargs.
    rewrite (Hnone "label") by apply list_elem_of_here.
    rewrite (Hnone "atoms") by apply list_elem_of_further, list_elem_of_here.
    apply returns_bind with (I := fun _ t1 => same_state t0 t1);
      [apply returns_ret; exact H0|intros _ t1 H1].
    apply returns_bind with (I := fun _ t2 => same_state t0 t2);
      [apply returns_keyword; [exact H1|intros; cbn; auto]|clear t1 H1; intros _ t1 H1].
    apply returns_bind with (I := fun _ t2 => same_state t0 t2).
    { unfold set_txt.
      apply (returns_keyword _ (fun txt => with_txt match txt with PPath s => PStr s | _ => txt end));
        [exact H1|intros; cbn; auto]. }
    clear t1 H1; intros _ t1 H1.
    apply returns_bind with (I := fun _ t2 => same_state t0 t2);
      [apply returns_ret; exact H1|clear t1 H1; intros _ t1 H1].
    apply returns_bind with (I := fun _ t2 => same_state t0 t2);
      [apply returns_keyword; [exact H1|intros; cbn; auto]|clear t1 H1; intros _ t1 H1].
    destruct H1 as (Hh & Hr1 & Hg1 & Hp1). cbn in Hh, Hr1, Hg1, Hp1.
    unfold returns. mrun. rewrite Hp1, Hcs.
    cbn [self with_self with_parameters gvi].
    destruct (decide (kwargs = ∅)) as [He|Hne].
    - rewrite (bool_decide_false (kwargs <> ∅)) by (intros Hn; apply Hn; exact He).
      destruct (bool_decide (changed <> ∅)); unfold clear_results; mrun;
        (do 2 eexists; split; [reflexivity|]); cbn;
        rewrite ?Hg1, ?Hr1; (split; [exact Hh|]); (split; [reflexivity || exact Hres|]);
        intros c; apply Hparams; exact He.
    - rewrite (bool_decide_true (kwargs <> ∅)) by exact Hne.
      destruct (Hgs Hne) as [Hg Hattr].
      destruct (bool_decide (changed <> ∅)); unfold clear_results; mrun;
        cbn [self with_self with_parameters with_xml_calc with_results gvi];
        rewrite Hg1, Hg; (do 2 eexists; split; [reflexivity|]); cbn;
        (split; [exact Hh|]); (split; [reflexivity|]);
        intros c; rewrite Hattr; apply Hparams. }
  destruct Hset as (t1 & [] & Hset & Hheap & Hres1 & Hps1 & Hnn1).
  (* the structure, when the snapshot holds one *)
  assert (Hatoms : exists t2,
    match dct_atoms dct with
    | Some x => atoms ← lift (toatoms x); l ← alloc atoms; set_atoms (Some l)
    | None => mret tt
    end t1 = (t2, Ok tt) /\
    gvi (self t2) = gvi (self t1) /\ param_state (self t2) = param_state (self t1) /\
    results (self t2) = ∅).
  { destruct (dct_atoms dct) as [x|] eqn:Hx.
    - destruct (Hat x eq_refl) as [a Ha]. rewrite Ha.
      unfold alloc. mrun.
      match goal with |- context [set_atoms (Some ?l) ?w0] =>
        destruct (set_atoms_Some_Ok w0 l a) as (t2 & Hs & Hg2 & Hp2 & Hr2);
          [cbn; apply lookup_insert_eq|]
      end.
      rewrite Hs. exists t2. cbn in Hg2, Hp2, Hr2. auto.
    - exists t1. auto. }
  destruct Hatoms as (t2 & Hatoms & Hg2 & Hp2 & Hr2).
  exists (with_self (with_results (results (self w) ∪ results (self t2)) (self t2)) t2).
  split.
  - unfold fromdict. rewrite Hv, Hin, Hr.
    unfold mbind at 1, M_bind at 1. unfold modify_self at 1, modify_world at 1.
    unfold mbind at 1, M_bind at 1.
    fold inputs. fold t0. rewrite Hset.
    unfold mbind at 1, M_bind at 1. rewrite Hatoms. reflexivity.
  - cbn. rewrite Hg2, Hp2, Hr2, Hps1. split; [exact Hnn1|]. split; [reflexivity|].
    apply map_union_empty.
Qed.

End Snapshot.

(** ** Concrete runs *)

(** A calculator whose parameter dictionaries are [g]. *)
Definition with_params (g : GenerateVaspInput) (w : World) : World :=
  with_self (with_gvi g (self w)) w.

(** [input_params['txt']] names a log file. *)
Definition logging_params : GenerateVaspInput :=
  Ase.setattr Input (<["txt" := PStr "run.log"]> (input_params Fresh.params))
    Fresh.params.

(** The key [nelm] stands in two dictionaries: without values, and with two
    values. *)
Definition doubled_keys : GenerateVaspInput :=
  Ase.setattr Float (<["nelm" := PNone]> (float_params Fresh.params)) Fresh.params.

Definition doubled_params : GenerateVaspInput :=
  Ase.setattr Float (<["nelm" := PFloat 1]> (float_params Fresh.params))
    (Ase.setattr Int (<["nelm" := PInt 60]> (int_params Fresh.params)) Fresh.params).

(** C7, as stated, fails.  A parameter named [txt] goes to the output
    stream of the importing calculator and not to its parameters; and of a
    key that stands in two dictionaries only the value of the later one is
    exported, and it is imported into the earlier one. *)
Lemma round_trip_loses_parameters :
  (let w := with_params logging_params (Fresh.world 0) in
   let t' := fst (round_trip w (Fresh.world 0)) in
   snd (round_trip w (Fresh.world 0)) = Ok tt /\
   not_none (input_params (gvi (self w))) !! "txt" = Some (PStr "run.log") /\
   not_none (input_params (gvi (self t'))) !! "txt" = Some (PStr "-") /\
   _txt (self t') = PStr "run.log") /\
  (let w := with_params doubled_params (Fresh.world 0) in
   let t := with_params doubled_keys (Fresh.world 0) in
   let t' := fst (round_trip w t) in
   snd (round_trip w t) = Ok tt /\
   not_none (float_params (gvi (self w))) !! "nelm" = Some (PFloat 1) /\
   not_none (float_params (gvi (self t'))) !! "nelm" = Some (PInt 60) /\
   not_none (int_params (gvi (self w))) !! "nelm" = Some (PInt 60) /\
   not_none (int_params (gvi (self t'))) !! "nelm" = None).
Proof. vm_compute. repeat split. Qed.

Definition all_categories : list category :=
  [Float; Exp; String_; Int; Input; Bool; ListInt; ListBool; ListFloat; Dict].

Lemma all_categories_elem c : c ∈ all_categories.
Proof.
  destruct c; unfold all_categories;
    repeat (first [apply list_elem_of_here | apply list_elem_of_further]).
Qed.

(** A check of [one_owner] that runs. *)
Definition one_owner_check (g : GenerateVaspInput) : bool :=
  forallb (fun c =>
    forallb (fun c' =>
      bool_decide (c = c') ||
      bool_decide (dom (getattr c g) ∩ dom (getattr c' g) = ∅))
      all_categories) all_categories.

Lemma one_owner_checked g : one_owner_check g = true -> one_owner g.
Proof.
  intros Hc c c' k Hk Hk'. unfold one_owner_check in Hc.
  rewrite forallb_forall in Hc.
  specialize (Hc c (proj1 (list_elem_of_In _ _) (all_categories_elem c))).
  rewrite forallb_forall in Hc.
  specialize (Hc c' (proj1 (list_elem_of_In _ _) (all_categories_elem c'))).
  apply orb_true_iff in Hc as [Hc|Hc]; apply bool_decide_eq_true in Hc; [exact Hc|].
  exfalso. assert (Hin : k ∈ dom (getattr c g) ∩ dom (getattr c' g))
    by (apply elem_of_intersection; auto).
  rewrite Hc in Hin. exact (not_elem_of_empty (C := gset string) k Hin).
Qed.

(** A structure of two sites in a cubic cell. *)
Definition cubic : Atoms :=
  mkAtoms [1; 8] [(0, 0, 0); (1 # 2, 0, 0)]%Q
    ((4, 0, 0), (0, 4, 0), (0, 0, 4))%Q (true, true, true).

(** The caller holds the structure at address 1, the command is given, and
    the external program is killed (status 137). *)
Definition crash_world : World :=
  let w := Fresh.world 137 in
  with_heap {[1%positive := cubic]}
    (with_self (with_command (PStr "vasp_std") (self w)) w).

Lemma calculate_failure_witness :
  snd (calculate (Some 1%positive) crash_world)
    = Raise (CalculationFailed "vasp in . returned an error: 137") /\
  results (self (fst (calculate (Some 1%positive) crash_world))) = ∅.
Proof.
  pose (w1 := fst (before_run (Some 1%positive) crash_world)).
  assert (Hb : before_run (Some 1%positive) crash_world
               = (w1, Ok (PStr "vasp_std", OpenFile "vasp.out")))
    by (vm_compute; reflexivity).
  assert (Hs : shell w1 "vasp_std" (directory (self w1)) (fs w1) = (137, fs w1))
    by (vm_compute; reflexivity).
  destruct (calculate_failure crash_world w1 (Some 1%positive) "vasp_std"
              (OpenFile "vasp.out") 137 (fs w1) Hb Hs ltac:(discriminate))
    as [Hc Hr].
  rewrite Hc. split; [reflexivity|exact Hr].
Defined.


(** A spin-polarized calculator with the structure [cubic], for which the
    per-atom moments were not asked for. *)
Definition magnetic_world : World :=
  let w := Fresh.world 0 in
  with_heap {[1%positive := cubic]}
    (with_self
       (with_atoms (Some 1%positive)
          (with_gvi (with_spinpol (PBool true) (gvi (self w))) (self w))) w).

Definition magnetic_log : list string :=
  [" number of electron       8.0000000 magnetization       2.0000000"].


(** A directory whose [ase-sort.dat] fits no structure of the calculator:
    there is none. *)
Definition sorted_world : World :=
  with_fs {["." := mkDir None (Some ["7 9" +:+ String "010" ""; "0 1"]) None XmlAbsent]}
    (Fresh.world 0).

Lemma read_sort_trusts_file_witness :
  read_sort sorted_world = (with_sort_index [7; 0] [9; 1] sorted_world, Ok tt).
Proof.
  destruct (read_sort_trusts_file sorted_world
              (mkDir None (Some ["7 9" +:+ String "010" ""; "0 1"]) None XmlAbsent)
              eq_refl) as [Hr _].
  apply (Hr _ [7; 0] [9; 1] eq_refl).
  repeat constructor; do 2 eexists; repeat split; vm_compute; reflexivity.
Defined.

(** A calculator with two parameters set, a result and the structure
    [cubic]. *)
Definition exported_world : World :=
  let g :=
    Ase.setattr Float (<["encut" := PFloat 400]> (float_params Fresh.params))
      (Ase.setattr Int (<["ibrion" := PInt 2]> (int_params Fresh.params))
         Fresh.params) in
  let w := with_params g (Fresh.world 0) in
  with_heap {[1%positive := cubic]}
    (with_self
       (with_atoms (Some 1%positive)
          (with_results {["energy" := PFloat (-3 # 2)]} (self w))) w).

Definition exported_dct : Snapshot :=
  match snd (asdict exported_world) with
  | inr dct => dct
  | inl _ => mkSnapshot None None None None None
  end.

Definition exported_kwargs : gmap string pyval :=
  pop_all own_keywords (flatten (snapshot (gvi (self exported_world)))).

Definition imported_params : GenerateVaspInput :=
  match GenerateVaspInput_set exported_kwargs Fresh.params with
  | inr g => g
  | inl _ => Fresh.params
  end.

(** Takes a lookup in a dictionary that is written out apart, entry by
    entry. *)
Ltac entries H :=
  apply elem_of_map_to_list in H; vm_compute in H;
  repeat (apply elem_of_cons in H as [H|H]; [injection H as -> ->|]);
  try (inversion H; fail).

Lemma snapshot_round_trip_witness :
  exists t',
    fromdict exported_dct (Fresh.world 0) = (t', Ok tt) /\
    (forall c, not_none (getattr c (gvi (self t')))
               = not_none (getattr c (gvi (self exported_world)))) /\
    param_state (self t') = snapshot (gvi (self t')) /\
    results (self t') = results (self exported_world).
Proof.
  apply (snapshot_round_trip exported_world (Fresh.world 0) exported_dct
           exported_kwargs (exported_kwargs ∪ ∅) imported_params).
  - vm_compute. reflexivity.
  - apply one_owner_checked. vm_compute. reflexivity.
  - intros c. destruct c; vm_compute; reflexivity.
  - intros c k v Hl Hk.
    repeat (apply elem_of_cons in Hk as [->|Hk]); try (inversion Hk; fail);
      destruct c; vm_compute in Hl; discriminate.
  - intros c k v Hl Hn Hk.
    repeat (apply elem_of_cons in Hk as [->|Hk]); try (inversion Hk; fail);
      destruct c; vm_compute in Hl; try discriminate;
      injection Hl as <-; vm_compute; reflexivity.
  - intros c k v Hl Hn.
    destruct c; entries Hl; try discriminate; eexists; split; vm_compute; reflexivity.
  - reflexivity.
  - vm_compute. reflexivity.
  - intros _. split; [vm_compute; reflexivity|].
    intros c. destruct c; vm_compute; reflexivity.
  - intros x Hx. vm_compute in Hx. injection Hx as <-.
    eexists. vm_compute. reflexivity.
Defined.

(** Five sites of three species, and what is known of each in the order of
    the caller. *)
Definition mixed_numbers : list Z := [1; 8; 1; 8; 6].
Definition mixed_sites : list string := ["H1"; "O1"; "H2"; "O2"; "C1"].


(** The caller holds at address 2 the stored structure with one coordinate
    moved by a thousandth. *)
Definition moved_world : World :=
  with_heap (<[2%positive := perturb 1 0 (1 # 1000) cubic]> (heap magnetic_world))
    magnetic_world.

Lemma check_state_pure_comparison_witness :
  check_state 1%positive default_tol moved_world = (moved_world, Ok []) /\
  exists changes,
    check_state 2%positive default_tol moved_world = (moved_world, Ok changes) /\
    "positions" ∈ changes.
Proof.
  destruct check_state_pure_comparison as (_ & Hsame & Hmoved). split.
  - apply (Hsame moved_world 1%positive 1%positive cubic default_tol);
      try reflexivity. discriminate.
  - apply (Hmoved moved_world 2%positive 1%positive cubic 1%nat 0%nat (1 # 1000)%Q
             default_tol); try reflexivity.
    cbn. lia.
Defined.

(** A calculator with [encut] set and an energy among its results. *)
Definition converged_world : World :=
  let g := Ase.setattr Float (<["encut" := PFloat 400]> (float_params Fresh.params))
             Fresh.params in
  let w := with_params g (Fresh.world 0) in
  with_self (with_results {["energy" := PFloat (-3 # 2)]} (self w)) w.

Lemma set_results_witness :
  results (self (fst (set None {["label" := PStr "run/vasp"]} converged_world)))
    = {["energy" := PFloat (-3 # 2)]} /\
  exists w',
    set None {["encut" := PFloat 400]} converged_world = (w', Ok tt) /\
    results (self w') = ∅ /\ float_params (gvi (self w')) !! "encut" = Some (PFloat 400).
Proof.
  split.
  - destruct (set_results converged_world {["label" := PStr "run/vasp"]}) as (Hkeep & _).
    apply Hkeep.
    + intros k Hk. apply elem_of_dom in Hk as [v Hk].
      apply lookup_singleton_Some in Hk as [<- _]. apply list_elem_of_here.
    + intros p changed p' Hc. vm_compute in Hc. injection Hc as <- _. reflexivity.
  - destruct (set_results converged_world {["encut" := PFloat 400]}) as (_ & _ & Hclear).
    destruct (Hclear {["encut" := PFloat 400]} {["encut" := PFloat 400]}
                (gvi (self converged_world))) as (w' & Hs & Hr & Hg).
    + apply map_non_empty_singleton.
    + intros k Hk. apply lookup_singleton_None. intros <-.
      repeat (apply elem_of_cons in Hk as [Hk|Hk]; [discriminate|]). inversion Hk.
    + vm_compute. reflexivity.
    + vm_compute. reflexivity.
    + exists w'. rewrite Hg. repeat split; try assumption.
Defined.

(** The calculator of [moved_world] with a result. *)
Definition stored_world : World :=
  with_self (with_results {["energy" := PFloat (-3 # 2)]} (self moved_world))
    moved_world.

Lemma atoms_setter_witness :
  (exists w' l',
     set_atoms (Some 1%positive) stored_world = (w', Ok tt) /\
     results (self w') = {["energy" := PFloat (-3 # 2)]} /\
     _atoms (self w') = Some l' /\ l' <> 1%positive /\
     <[1%positive := perturb 0 0 1 cubic]> (heap w') !! l' = Some cubic) /\
  (exists w',
     set_atoms (Some 2%positive) stored_world = (w', Ok tt) /\
     results (self w') = ∅).
Proof.
  destruct (atoms_setter stored_world) as [_ Hset]. split.
  - destruct (Hset 1%positive cubic [] eq_refl) as (w' & l' & Hs & Hr & Ha & Hne & _ & _ & Hal).
    { vm_compute. reflexivity. }
    exists w', l'. repeat split; try assumption. apply Hal.
  - destruct (Hset 2%positive (perturb 1 0 (1 # 1000) cubic) ["positions"] eq_refl)
      as (w' & l' & Hs & Hr & _).
    { vm_compute. reflexivity. }
    exists w'. split; assumption.
Defined.

(** * Further properties of the readers *)

(** ** Loops over the lines *)

(** Lines that leave the state as it is can be left out. *)
Lemma foldR_skip {A S} (f : S -> A -> result S) (P : A -> Prop) s l :
  (forall s x, P x -> f s x = Ok s) -> Forall P l -> foldR f s l = Ok s.
Proof.
  intros Hf Hl. induction Hl as [|x l Hx _ IH]; [reflexivity|].
  cbn [foldR]. rewrite (Hf _ _ Hx). exact IH.
Qed.

(** The state after the last line that changes it. *)
Lemma foldR_last {A S} (f : S -> A -> result S) (P : A -> Prop) s0 s1 s2
    before x after :
  (forall s y, P y -> f s y = Ok s) ->
  foldR f s0 before = Ok s1 -> f s1 x = Ok s2 -> Forall P after ->
  foldR f s0 (before ++ x :: after) = Ok s2.
Proof.
  intros Hf Hb Hx Ha. rewrite foldR_app, Hb. cbn. rewrite Hx. cbn.
  apply (foldR_skip f P); assumption.
Qed.

(** A reader that takes its lines from the argument or from [OUTCAR] and
    leaves the world alone. *)
Lemma reader_lines {A} (g : list string -> result A) lines ls w :
  snd (lines_or_OUTCAR lines w) = Ok ls ->
  (lines_or_OUTCAR lines ≫= fun lines => lift (g lines)) w = (w, g ls).
Proof.
  intros Hls. apply lines_or_OUTCAR_again in Hls as [Hl _].
  unfold mbind, M_bind. rewrite Hl. reflexivity.
Qed.

Lemma lookup_index {A} (l : list A) (i : Z) x :
  0 <= i -> l !! Z.to_nat i = Some x -> Seq.index l i = Ok x.
Proof.
  intros Hi Hx. rewrite <- (Z2Nat.id i) by exact Hi. apply index_nonneg. exact Hx.
Qed.

(** ** The Fermi level of the log *)

Definition no_fermi (line : string) : Prop := Py.contains "E-fermi" line = false.

(** X1.  [read_fermi] returns the third token of the last line that holds
    [E-fermi], provided the lines with [E-fermi] before it could be read;
    without such a line it returns [None].  The world stays as it is. *)
Theorem read_fermi_last_line (w : World) (lines : option (list string))
    (ls : list string) :
  snd (lines_or_OUTCAR lines w) = Ok ls ->
  (Forall no_fermi ls -> read_fermi lines w = (w, Ok PNone)) /\
  (forall before line after E_f x q,
     ls = (before ++ line :: after)%list ->
     foldR fermi_step PNone before = Ok E_f ->
     Py.contains "E-fermi" line = true ->
     Py.split line !! 2%nat = Some x -> Py.float x = Some q ->
     Forall no_fermi after ->
     read_fermi lines w = (w, Ok (PFloat q))).
Proof.
  intros Hls.
  assert (Hskip : forall s y, no_fermi y -> fermi_step s y = Ok s).
  { intros s y Hy. unfold fermi_step. rewrite Hy. reflexivity. }
  split.
  - intros Hno. unfold read_fermi. rewrite (reader_lines _ _ _ _ Hls).
    rewrite (foldR_skip _ _ _ _ Hskip Hno). reflexivity.
  - intros before line after E_f x q -> Hb Hc Hx Hq Ha.
    unfold read_fermi. rewrite (reader_lines _ _ _ _ Hls).
    rewrite (foldR_last _ _ _ _ (PFloat q) _ _ _ Hskip Hb); [reflexivity| |exact Ha].
    unfold fermi_step. rewrite Hc.
    rewrite (lookup_index _ 2 x) by (lia || exact Hx). cbn.
    unfold to_float. rewrite Hq. reflexivity.
Qed.

Definition fermi_log : list string :=
  [" E-fermi :   1.5000     XC(G=0):  -9.6484     alpha+bet : -7.4836";
   " free energy";
   " E-fermi :   2.2500     XC(G=0):  -9.6484     alpha+bet : -7.4836";
   " end"].

Lemma read_fermi_last_line_witness :
  read_fermi (Some fermi_log) (Fresh.world 0)
    = (Fresh.world 0, Ok (PFloat (22500 # 10000))) /\
  read_fermi (Some [" end"]) (Fresh.world 0) = (Fresh.world 0, Ok PNone).
Proof.
  split.
  - destruct (read_fermi_last_line (Fresh.world 0) (Some fermi_log) fermi_log eq_refl)
      as [_ Hlast].
    apply (Hlast [" E-fermi :   1.5000     XC(G=0):  -9.6484     alpha+bet : -7.4836";
                  " free energy"]
             " E-fermi :   2.2500     XC(G=0):  -9.6484     alpha+bet : -7.4836"
             [" end"] (PFloat (15000 # 10000)) "2.2500");
      try (vm_compute; reflexivity).
    repeat constructor.
  - destruct (read_fermi_last_line (Fresh.world 0) (Some [" end"]) [" end"] eq_refl)
      as [Hnone _].
    apply Hnone. repeat constructor.
Defined.

(** ** The number of electrons *)

Definition no_nelect (line : string) : Prop :=
  Py.contains "total number of electrons" line = false.

Lemma find_nelect_skip before rest :
  Forall no_nelect before -> find_nelect (before ++ rest) = find_nelect rest.
Proof.
  induction 1 as [|l before Hl _ IH]; [reflexivity|].
  cbn [app find_nelect]. rewrite Hl. exact IH.
Qed.

(** X2.  [get_number_of_electrons] stops at the first line that holds
    [total number of electrons]: it returns the first token after the
    first [=] of that line, whatever the lines after it hold, and [None]
    when there is no such line. *)
Theorem get_number_of_electrons_first_line (w : World)
    (lines : option (list string)) (ls : list string) :
  snd (lines_or_OUTCAR lines w) = Ok ls ->
  (Forall no_nelect ls -> get_number_of_electrons lines w = (w, Ok PNone)) /\
  (forall before line after s1 x q,
     ls = (before ++ line :: after)%list ->
     Forall no_nelect before ->
     Py.contains "total number of electrons" line = true ->
     Py.split_on "=" line !! 1%nat = Some s1 ->
     Py.split s1 !! 0%nat = Some x -> Py.float (Py.strip x) = Some q ->
     get_number_of_electrons lines w = (w, Ok (PFloat q))).
Proof.
  intros Hls. split.
  - intros Hno. unfold get_number_of_electrons. rewrite (reader_lines _ _ _ _ Hls).
    rewrite <- (app_nil_r ls), (find_nelect_skip _ _ Hno). reflexivity.
  - intros before line after s1 x q -> Hb Hc Hs Hx Hq.
    unfold get_number_of_electrons. rewrite (reader_lines _ _ _ _ Hls).
    rewrite (find_nelect_skip _ _ Hb). cbn [find_nelect]. rewrite Hc.
    rewrite (lookup_index _ 1 s1) by (lia || exact Hs). cbn.
    rewrite (lookup_index _ 0 x) by (lia || exact Hx). cbn.
    unfold to_float. rewrite Hq. reflexivity.
Qed.

Definition nelect_log : list string :=
  [" POSCAR: H2O";
   "   NELECT =       8.0000    total number of electrons";
   "   NELECT =       oops      total number of electrons"].

Lemma get_number_of_electrons_first_line_witness :
  get_number_of_electrons (Some nelect_log) (Fresh.world 0)
    = (Fresh.world 0, Ok (PFloat (80000 # 10000))).
Proof.
  destruct (get_number_of_electrons_first_line (Fresh.world 0) (Some nelect_log)
              nelect_log eq_refl) as [_ Hfirst].
  apply (Hfirst [" POSCAR: H2O"]
           "   NELECT =       8.0000    total number of electrons"
           ["   NELECT =       oops      total number of electrons"]
           "       8.0000    total number of electrons" "8.0000");
    try (vm_compute; reflexivity).
  repeat constructor.
Defined.

(** ** The version *)

Definition no_version (line : string) : Prop := Py.contains " vasp." line = false.

Lemma prefix_app p s : String.prefix p (p +:+ s) = true.
Proof.
  induction p as [|a p IH].
  - destruct s; reflexivity.
  - change (String a p +:+ s) with (String a (p +:+ s)). cbn [String.prefix].
    destruct (ascii_dec a a) as [_|Hne]; [exact IH|congruence].
Qed.

Lemma contains_prefix p s : String.prefix p s = true -> Py.contains p s = true.
Proof. intros Hp. destruct s; cbn [Py.contains]; rewrite Hp; reflexivity. Qed.

Lemma find_version_skip before rest :
  Forall no_version before -> find_version (before ++ rest) = find_version rest.
Proof.
  induction 1 as [|l before Hl _ IH]; [reflexivity|].
  cbn [app find_version]. rewrite Hl. exact IH.
Qed.

Lemma read_version_file w :
  read_version w =
    (w, match fs w !! directory (self w) ≫= OUTCAR with
        | None => Ok PNone
        | Some lines => find_version lines
        end).
Proof.
  unfold read_version, get_dir. mrun.
  destruct (option_bind _ _ _ _); reflexivity.
Qed.

(** X3.  [read_version] returns [None], and raises nothing, when there is
    no [OUTCAR] or no line of it holds [ vasp.]; otherwise the version is
    the first token after the first six characters of the first line that
    holds [ vasp.], wherever in the line that text stands: the token after
    the text when the line starts with it. *)
Theorem read_version_first_marker (w : World) :
  let file := fs w !! directory (self w) ≫= OUTCAR in
  (file = None ->
   read_version w = (w, Ok PNone) /\
   load_file_OUTCAR w =
     (w, Raise (FileNotFoundError (_indir (directory (self w)) "OUTCAR")))) /\
  (forall lines, file = Some lines -> Forall no_version lines ->
     read_version w = (w, Ok PNone)) /\
  (forall before line after,
     file = Some (before ++ line :: after)%list ->
     Forall no_version before -> Py.contains " vasp." line = true ->
     read_version w =
       (w, x ← Seq.index (Py.split (Py.drop_str 6 line)) 0; Ok (PStr x))) /\
  (forall before rest after x,
     file = Some (before ++ (" vasp." +:+ rest) :: after)%list ->
     Forall no_version before -> Py.split rest !! 0%nat = Some x ->
     read_version w = (w, Ok (PStr x))).
Proof.
  intros file. pose proof (read_version_file w) as Hrv. fold file in Hrv.
  assert (Hline : forall before line after,
            file = Some (before ++ line :: after)%list ->
            Forall no_version before -> Py.contains " vasp." line = true ->
            read_version w =
              (w, x ← Seq.index (Py.split (Py.drop_str 6 line)) 0; Ok (PStr x))).
  { intros before line after Hf Hb Hc. rewrite Hrv, Hf.
    rewrite (find_version_skip _ _ Hb). cbn [find_version]. rewrite Hc. reflexivity. }
  split; [|split; [|split]].
  - intros Hf. split; [rewrite Hrv, Hf; reflexivity|].
    unfold load_file_OUTCAR, get_dir. mrun. fold file. rewrite Hf. reflexivity.
  - intros lines Hf Hno. rewrite Hrv, Hf.
    rewrite <- (app_nil_r lines), (find_version_skip _ _ Hno). reflexivity.
  - exact Hline.
  - intros before rest after x Hf Hb Hx.
    rewrite (Hline _ _ _ Hf Hb) by (apply contains_prefix, prefix_app).
    change (Py.drop_str 6 (" vasp." +:+ rest)) with rest.
    rewrite (lookup_index _ 0 x) by (lia || exact Hx). reflexivity.
Qed.

Definition version_world : World :=
  with_fs {["." := mkDir (Some [" running on    4 total cores";
                                " vasp.5.4.4.18Apr17-6-g9f103f2a35 (build Apr 1 2020) complex";
                                " vasp.6.1.0"]) None None XmlAbsent]}
    (Fresh.world 0).

Lemma read_version_first_marker_witness :
  read_version version_world
    = (version_world, Ok (PStr "5.4.4.18Apr17-6-g9f103f2a35")) /\
  read_version (Fresh.world 0) = (Fresh.world 0, Ok PNone).
Proof.
  split.
  - destruct (read_version_first_marker version_world) as (_ & _ & _ & Hfirst).
    apply (Hfirst [" running on    4 total cores"]
             "5.4.4.18Apr17-6-g9f103f2a35 (build Apr 1 2020) complex"
             [" vasp.6.1.0"]); try (vm_compute; reflexivity).
    repeat constructor.
  - destruct (read_version_first_marker (Fresh.world 0)) as (Hnone & _).
    apply Hnone. reflexivity.
Defined.

(** X4.  [get_version] reads the version once: a version that is stored is
    returned without a look at the files, a version that is read is
    stored, and a second call gives the same version and changes
    nothing. *)
Theorem get_version_caches (w w1 : World) (x : pyval) :
  get_version w = (w1, Ok x) ->
  get_version w1 = (w1, Ok x) /\
  w1 = with_self (with_version x (self w)) w /\
  (version (self w) <> PNone -> x = version (self w)) /\
  (version (self w) = PNone -> read_version w = (w, Ok x)).
Proof.
  intros Hg. unfold get_version in Hg. mrun.
  destruct (version (self w)) eqn:Hv;
    try (injection Hg as <- <-; unfold get_version; mrun; rewrite Hv;
         repeat split; try congruence;
         destruct w as [[] ? ? ? ? ? ?]; cbn in *; subst; reflexivity).
  rewrite read_version_file in Hg.
  pose proof (read_version_file w) as Hrv.
  destruct (match fs w !! directory (self w) ≫= OUTCAR with
            | None => Ok PNone | Some lines => find_version lines end)
    as [e|y] eqn:Hr; [discriminate|].
  injection Hg as <- <-.
  split; [|split; [reflexivity|split; [congruence|intros _; exact Hrv]]].
  unfold get_version. mrun. cbn [self with_self with_version version].
  destruct y; try reflexivity.
  rewrite read_version_file. cbn [fs with_self self directory with_version].
  unfold mbind. rewrite Hr. cbn. destruct w as [[] ? ? ? ? ? ?]; reflexivity.
Qed.

Lemma get_version_caches_witness :
  get_version (fst (get_version version_world))
    = (fst (get_version version_world), Ok (PStr "5.4.4.18Apr17-6-g9f103f2a35")).
Proof.
  apply (get_version_caches version_world). vm_compute. reflexivity.
Defined.

(** ** The number of bands *)

(** A line of a warning box. *)
Definition warning_line (line : string) : Prop := exists s, line = String "|" s.

(** A line that [read_nbands] passes over: a warning line, or a line that
    is not empty and does not hold [NBANDS]. *)
Definition no_nbands (line : string) : Prop :=
  warning_line line \/ (line <> "" /\ Py.contains "NBANDS" line = false).

Lemma find_nbands_skip before rest :
  Forall no_nbands before -> find_nbands (before ++ rest) = find_nbands rest.
Proof.
  induction 1 as [|l before Hl _ IH]; [reflexivity|].
  cbn [app find_nbands]. destruct Hl as [[s ->]|[Hne Hc]].
  - cbn. exact IH.
  - destruct l as [|c l]; [congruence|]. cbn [strip_warnings].
    destruct (Ascii.eqb c "|"); cbn [mbind result_bind];
      [cbn; exact IH|rewrite Hc; exact IH].
Qed.

(** X5.  [read_nbands] returns the last token of the first line that holds
    [NBANDS] and is no warning line: the lines of a warning box are passed
    over, whatever they hold, and the lines after the first hit are not
    looked at.  An empty line before the hit raises [IndexError]; without
    a hit the result is [None]. *)
Theorem read_nbands_first_line (w : World) (lines : option (list string))
    (ls : list string) :
  snd (lines_or_OUTCAR lines w) = Ok ls ->
  (Forall no_nbands ls -> read_nbands lines w = (w, Ok PNone)) /\
  (forall before c line after x n,
     ls = (before ++ String c line :: after)%list ->
     Forall no_nbands before ->
     c <> "|"%char -> Py.contains "NBANDS" (String c line) = true ->
     last_item (Py.split (String c line)) = Ok x -> Py.int x = Some n ->
     read_nbands lines w = (w, Ok (PInt n))) /\
  (forall before after,
     ls = (before ++ "" :: after)%list -> Forall no_nbands before ->
     read_nbands lines w = (w, Raise IndexError)).
Proof.
  intros Hls. split; [|split].
  - intros Hno. unfold read_nbands. rewrite (reader_lines _ _ _ _ Hls).
    rewrite <- (app_nil_r ls), (find_nbands_skip _ _ Hno). reflexivity.
  - intros before c line after x n -> Hb Hc Hn Hx Hi.
    unfold read_nbands. rewrite (reader_lines _ _ _ _ Hls).
    rewrite (find_nbands_skip _ _ Hb). cbn [find_nbands strip_warnings].
    destruct (Ascii.eqb_spec c "|") as [->|_]; [congruence|]. cbn [mbind result_bind].
    rewrite Hn, Hx. cbn [mbind result_bind]. unfold to_int. rewrite Hi. reflexivity.
  - intros before after -> Hb.
    unfold read_nbands. rewrite (reader_lines _ _ _ _ Hls).
    rewrite (find_nbands_skip _ _ Hb). reflexivity.
Qed.

Definition nbands_log : list string :=
  ["|      Your NBANDS is too small for this calculation.      |";
   "   k-points           NKPTS =      4   k-points in BZ     NKDIM =      4   number of bands    NBANDS=     12";
   "   number of bands    NBANDS=     16"].

Lemma read_nbands_first_line_witness :
  read_nbands (Some nbands_log) (Fresh.world 0) = (Fresh.world 0, Ok (PInt 12)) /\
  read_nbands (Some [" "; ""; " NBANDS= 4"]) (Fresh.world 0)
    = (Fresh.world 0, Raise IndexError).
Proof.
  split.
  - destruct (read_nbands_first_line (Fresh.world 0) (Some nbands_log) nbands_log
                eq_refl) as (_ & Hfirst & _).
    apply (Hfirst ["|      Your NBANDS is too small for this calculation.      |"]
             " "%char
             "  k-points           NKPTS =      4   k-points in BZ     NKDIM =      4   number of bands    NBANDS=     12"
             ["   number of bands    NBANDS=     16"] "12");
      try (vm_compute; reflexivity); [|discriminate].
    constructor; [|constructor]. left. eexists. reflexivity.
  - destruct (read_nbands_first_line (Fresh.world 0) (Some [" "; ""; " NBANDS= 4"])
                [" "; ""; " NBANDS= 4"] eq_refl) as (_ & _ & Hempty).
    apply (Hempty [" "] [" NBANDS= 4"]); [reflexivity|].
    constructor; [|constructor]. right. split; [discriminate|reflexivity].
Defined.

(** ** The stress of the log *)

Definition no_stress (line : string) : Prop := Py.contains " in kB  " line = false.

(** X6.  [read_stress] takes the numbers after the second token of the last
    line that holds [ in kB  ], in the order xx yy zz xy yz zx of the log,
    and returns six of them in the order xx yy zz yz zx xy, each with the
    opposite sign and in units of a tenth of [GPa]; numbers after the
    sixth are dropped.  A line with fewer than six numbers raises
    [IndexError], and without such a line the result is [None]. *)
Theorem read_stress_voigt_order (GPa : Q) (w : World)
    (lines : option (list string)) (ls : list string) :
  snd (lines_or_OUTCAR lines w) = Ok ls ->
  (Forall no_stress ls -> read_stress GPa lines w = (w, Ok PNone)) /\
  (forall before line after stress xx yy zz xy yz zx more,
     ls = (before ++ line :: after)%list ->
     foldR (stress_step GPa) PNone before = Ok stress ->
     Py.contains " in kB  " line = true ->
     mapR to_float (skipn 2 (Py.split line))
       = Ok (xx :: yy :: zz :: xy :: yz :: zx :: more) ->
     Forall no_stress after ->
     read_stress GPa lines w =
       (w, Ok (floats [(- xx * (1 # 10) * GPa)%Q; (- yy * (1 # 10) * GPa)%Q;
                       (- zz * (1 # 10) * GPa)%Q; (- yz * (1 # 10) * GPa)%Q;
                       (- zx * (1 # 10) * GPa)%Q; (- xy * (1 # 10) * GPa)%Q]))) /\
  (forall before line after stress xs,
     ls = (before ++ line :: after)%list ->
     foldR (stress_step GPa) PNone before = Ok stress ->
     Py.contains " in kB  " line = true ->
     mapR to_float (skipn 2 (Py.split line)) = Ok xs -> (length xs < 6)%nat ->
     read_stress GPa lines w = (w, Raise IndexError)).
Proof.
  intros Hls.
  assert (Hskip : forall s y, no_stress y -> stress_step GPa s y = Ok s).
  { intros s y Hy. unfold stress_step. rewrite Hy. reflexivity. }
  split; [|split].
  - intros Hno. unfold read_stress. rewrite (reader_lines _ _ _ _ Hls).
    rewrite (foldR_skip _ _ _ _ Hskip Hno). reflexivity.
  - intros before line after stress xx yy zz xy yz zx more -> Hb Hc Hx Ha.
    unfold read_stress. rewrite (reader_lines _ _ _ _ Hls).
    erewrite (foldR_last _ _ _ _ _ _ _ _ Hskip Hb); [reflexivity| |exact Ha].
    unfold stress_step. rewrite Hc, Hx. cbn [mbind result_bind fmap list_fmap].
    unfold Seq.take. cbn [mapR].
    rewrite (lookup_index _ 0 (- xx)%Q) by (lia || reflexivity).
    rewrite (lookup_index _ 1 (- yy)%Q) by (lia || reflexivity).
    rewrite (lookup_index _ 2 (- zz)%Q) by (lia || reflexivity).
    rewrite (lookup_index _ 4 (- yz)%Q) by (lia || reflexivity).
    rewrite (lookup_index _ 5 (- zx)%Q) by (lia || reflexivity).
    rewrite (lookup_index _ 3 (- xy)%Q) by (lia || reflexivity).
    reflexivity.
  - intros before line after stress xs -> Hb Hc Hx Hlen.
    unfold read_stress. rewrite (reader_lines _ _ _ _ Hls).
    assert (Hstep : stress_step GPa stress line = Raise IndexError).
    { unfold stress_step. rewrite Hc, Hx. cbn [mbind result_bind].
      destruct xs as [|x0 [|x1 [|x2 [|x3 [|x4 [|x5 xs]]]]]]; try reflexivity.
      cbn in Hlen. lia. }
    rewrite foldR_app, Hb. cbn [mbind result_bind foldR]. rewrite Hstep. reflexivity.
Qed.

Definition stress_log : list string :=
  ["  in kB      10.0     20.0     30.0      4.0      5.0      6.0";
   "  external pressure =        1.22 kB"].

Lemma read_stress_voigt_order_witness :
  read_stress 1 (Some stress_log) (Fresh.world 0) =
    (Fresh.world 0,
     Ok (floats [(- (100 # 10) * (1 # 10) * 1)%Q; (- (200 # 10) * (1 # 10) * 1)%Q;
                 (- (300 # 10) * (1 # 10) * 1)%Q; (- (50 # 10) * (1 # 10) * 1)%Q;
                 (- (60 # 10) * (1 # 10) * 1)%Q; (- (40 # 10) * (1 # 10) * 1)%Q])).
Proof.
  destruct (read_stress_voigt_order 1 (Fresh.world 0) (Some stress_log) stress_log
              eq_refl) as (_ & Hlast & _).
  apply (Hlast [] "  in kB      10.0     20.0     30.0      4.0      5.0      6.0"
           ["  external pressure =        1.22 kB"] PNone
           (100 # 10)%Q (200 # 10)%Q (300 # 10)%Q (40 # 10)%Q (50 # 10)%Q (60 # 10)%Q []);
    try (vm_compute; reflexivity).
  repeat constructor.
Defined.

(** ** Vibrational frequencies *)

(** The lines of a frequency: those with a token [THz]; the frequency is
    imaginary when a token [f/i=] stands in the line as well. *)
Definition frequency_line (imaginary : bool) (line : string) : bool :=
  bool_decide ("THz" ∈ Py.split line) &&
  (if imaginary then bool_decide ("f/i=" ∈ Py.split line)
   else negb (bool_decide ("f/i=" ∈ Py.split line))).

(** The number of a frequency line: its last token but one. *)
Definition frequency (line : string) : result Q :=
  x ← Seq.index (Py.split line) (-2); to_float x.

Lemma vib_freq_step_frequency f0 i0 line :
  vib_freq_step (f0, i0) line =
    if bool_decide ("THz" ∈ Py.split line) then
      q ← frequency line;
      if bool_decide ("f/i=" ∈ Py.split line) then Ok (f0, (i0 ++ [q])%list)
      else Ok ((f0 ++ [q])%list, i0)
    else Ok (f0, i0).
Proof.
  unfold vib_freq_step, frequency.
  destruct (bool_decide ("THz" ∈ Py.split line)); [|reflexivity].
  destruct (bool_decide ("f/i=" ∈ Py.split line)); cbn [negb];
    destruct (Seq.index (Py.split line) (-2)) as [e|x]; try reflexivity;
    cbn [mbind result_bind]; destruct (to_float x); reflexivity.
Qed.

Lemma vib_freq_fold ls : forall f0 i0 f i,
  foldR vib_freq_step (f0, i0) ls = Ok (f, i) <->
  exists fs is_,
    mapR frequency (List.filter (frequency_line false) ls) = Ok fs /\
    mapR frequency (List.filter (frequency_line true) ls) = Ok is_ /\
    f = (f0 ++ fs)%list /\ i = (i0 ++ is_)%list.
Proof.
  induction ls as [|line ls IH]; intros f0 i0 f i.
  - cbn. split.
    + intros [= <- <-]. exists [], []. rewrite !app_nil_r. auto.
    + intros (fs & is_ & [= <-] & [= <-] & -> & ->). rewrite !app_nil_r. reflexivity.
  - cbn [foldR List.filter]. rewrite vib_freq_step_frequency.
    assert (Hfl : forall b, frequency_line b line =
              bool_decide ("THz" ∈ Py.split line) &&
              (if b then bool_decide ("f/i=" ∈ Py.split line)
               else negb (bool_decide ("f/i=" ∈ Py.split line)))) by reflexivity.
    rewrite !Hfl. clear Hfl.
    destruct (bool_decide ("THz" ∈ Py.split line)); cbn [andb negb];
      [destruct (bool_decide ("f/i=" ∈ Py.split line)); cbn [negb]|].
    + cbn [mapR]. destruct (frequency line) as [e|q]; cbn [mbind result_bind].
      * split; [discriminate|]. intros (fs & is_ & _ & [=] & _).
      * rewrite IH. split.
        -- intros (fs & is_ & Hf & Hi & -> & ->). exists fs, (q :: is_).
           rewrite Hf, Hi. cbn. rewrite <- app_assoc. auto.
        -- intros (fs & is_ & Hf & Hi & -> & ->).
           destruct (mapR frequency (List.filter (frequency_line true) ls))
             as [e|is'] eqn:Hi'; [discriminate|]. cbn in Hi. injection Hi as <-.
           exists fs, is'. rewrite <- app_assoc. auto.
    + cbn [mapR]. destruct (frequency line) as [e|q]; cbn [mbind result_bind].
      * split; [discriminate|]. intros (fs & is_ & [=] & _).
      * rewrite IH. split.
        -- intros (fs & is_ & Hf & Hi & -> & ->). exists (q :: fs), is_.
           rewrite Hf, Hi. cbn. rewrite <- app_assoc. auto.
        -- intros (fs & is_ & Hf & Hi & -> & ->).
           destruct (mapR frequency (List.filter (frequency_line false) ls))
             as [e|fs'] eqn:Hf'; [discriminate|]. cbn in Hf. injection Hf as <-.
           exists fs', is_. rewrite <- app_assoc. auto.
    + cbn [mbind result_bind]. apply IH.
Qed.

(** X7.  [read_vib_freq] returns, when it returns, the numbers of the
    frequency lines in the order of the log, the real ones in the first
    list and the imaginary ones in the second: every frequency line gives
    one entry of one of the lists, no other line gives any.  It does
    return when the number of every frequency line can be read. *)
Theorem read_vib_freq_partition (w : World) (lines : option (list string))
    (ls : list string) (freq i_freq : list Q) :
  snd (lines_or_OUTCAR lines w) = Ok ls ->
  (read_vib_freq lines w = (w, Ok (freq, i_freq)) <->
   mapR frequency (List.filter (frequency_line false) ls) = Ok freq /\
   mapR frequency (List.filter (frequency_line true) ls) = Ok i_freq) /\
  (read_vib_freq lines w = (w, Ok (freq, i_freq)) ->
   (length freq + length i_freq)%nat
     = length (List.filter (fun line => bool_decide ("THz" ∈ Py.split line)) ls)).
Proof.
  intros Hls.
  assert (Hiff : read_vib_freq lines w = (w, Ok (freq, i_freq)) <->
            mapR frequency (List.filter (frequency_line false) ls) = Ok freq /\
            mapR frequency (List.filter (frequency_line true) ls) = Ok i_freq).
  { unfold read_vib_freq. rewrite (reader_lines _ _ _ _ Hls). split.
    - intros [= Hf]. apply vib_freq_fold in Hf as (fs & is_ & Hf & Hi & -> & ->).
      auto.
    - intros [Hf Hi]. f_equal. apply vib_freq_fold. exists freq, i_freq. auto. }
  split; [exact Hiff|].
  intros Hr. apply Hiff in Hr as [Hf Hi].
  apply mapR_Forall2, Forall2_length in Hf. apply mapR_Forall2, Forall2_length in Hi.
  rewrite <- Hf, <- Hi. clear. induction ls as [|line ls IH]; [reflexivity|].
  cbn [List.filter].
  assert (Hfl : forall b, frequency_line b line =
            bool_decide ("THz" ∈ Py.split line) &&
            (if b then bool_decide ("f/i=" ∈ Py.split line)
             else negb (bool_decide ("f/i=" ∈ Py.split line)))) by reflexivity.
  rewrite !Hfl. clear Hfl.
  destruct (bool_decide ("THz" ∈ Py.split line)); cbn [andb]; [|exact IH].
  destruct (bool_decide ("f/i=" ∈ Py.split line)); cbn [negb length]; lia.
Qed.

Definition vib_log : list string :=
  ["   1 f  =   47.686876 THz   299.625475 2PiTHz 1590.662533 cm-1   197.217087 meV";
   " Eigenvectors and eigenvalues of the dynamical matrix";
   "   2 f/i=    3.332029 THz    20.935755 2PiTHz  111.144200 cm-1    13.780165 meV";
   "   3 f  =   11.500000 THz    72.256631 2PiTHz  383.598750 cm-1    47.560364 meV"].

Lemma read_vib_freq_partition_witness :
  read_vib_freq (Some vib_log) (Fresh.world 0)
    = (Fresh.world 0,
       Ok ([(197217087 # 1000000)%Q; (47560364 # 1000000)%Q],
           [(13780165 # 1000000)%Q])).
Proof.
  apply (read_vib_freq_partition (Fresh.world 0) (Some vib_log) vib_log); [reflexivity|].
  split; vm_compute; reflexivity.
Defined.

(** ** The energies of the log *)

Lemma last_snoc {A} (l : list A) x d : List.last (l ++ [x]) d = x.
Proof. apply List.last_last. Qed.

(** With [all] off the loop keeps the last entry of each of the lists that
    it makes with [all] on. *)
Lemma energy_fold_last ls : forall fs zs fa za,
  foldR (energy_step true) (PList fs, PList zs) ls = Ok (fa, za) ->
  exists fs' zs',
    fa = PList fs' /\ za = PList zs' /\
    foldR (energy_step false) (List.last fs (PInt 0), List.last zs (PInt 0)) ls
      = Ok (List.last fs' (PInt 0), List.last zs' (PInt 0)).
Proof.
  induction ls as [|line ls IH]; intros fs zs fa za.
  - cbn. intros [= <- <-]. eauto.
  - cbn [foldR].
    destruct (energy_step true (PList fs, PList zs) line) as [e|[f1 z1]] eqn:Hstep;
      [discriminate|]. cbn [mbind result_bind]. intros Hfold.
    assert (Hone : exists fs1 zs1,
              f1 = PList fs1 /\ z1 = PList zs1 /\
              energy_step false (List.last fs (PInt 0), List.last zs (PInt 0)) line
                = Ok (List.last fs1 (PInt 0), List.last zs1 (PInt 0))).
    { unfold energy_step in *.
      destruct (String.prefix "  free  energy   toten" (Py.lower line)).
      - destruct (Seq.index (Py.split line) (-2)) as [e|x]; [discriminate|].
        cbn [mbind result_bind] in *.
        destruct (to_float x) as [e|q]; [discriminate|]. cbn [mbind result_bind] in *.
        destruct (String.prefix "  energy  without entropy" line).
        + destruct (last_item (Py.split line)) as [e|x']; [discriminate|].
          cbn [mbind result_bind] in *.
          destruct (to_float x') as [e|q']; [discriminate|].
          cbn in Hstep. injection Hstep as <- <-.
          do 2 eexists. split; [reflexivity|]. split; [reflexivity|].
          cbn. rewrite !last_snoc. reflexivity.
        + cbn in Hstep. injection Hstep as <- <-.
          do 2 eexists. split; [reflexivity|]. split; [reflexivity|].
          cbn. rewrite !last_snoc. reflexivity.
      - cbn [mbind result_bind] in *.
        destruct (String.prefix "  energy  without entropy" line).
        + destruct (last_item (Py.split line)) as [e|x']; [discriminate|].
          cbn [mbind result_bind] in *.
          destruct (to_float x') as [e|q']; [discriminate|].
          cbn in Hstep. injection Hstep as <- <-.
          do 2 eexists. split; [reflexivity|]. split; [reflexivity|].
          cbn. rewrite !last_snoc. reflexivity.
        + cbn in Hstep. injection Hstep as <- <-.
          do 2 eexists. split; [reflexivity|]. split; reflexivity. }
    destruct Hone as (fs1 & zs1 & -> & -> & Hone).
    rewrite Hone. cbn [mbind result_bind]. apply IH. exact Hfold.
Qed.

(** X8.  What [read_energy] returns with [all] off is what it would have
    come to last with [all] on: the last free energy and the last energy
    without entropy of the log, and the integer 0 for an energy that the
    log does not hold. *)
Theorem read_energy_last_of_all (w : World) (lines : option (list string))
    (v : pyval) :
  read_energy true lines w = (w, Ok v) ->
  exists energy_free energy_zero,
    v = PList [PList energy_free; PList energy_zero] /\
    read_energy false lines w =
      (w, Ok (PList [List.last energy_free (PInt 0);
                     List.last energy_zero (PInt 0)])).
Proof.
  intros Hr.
  destruct (lines_or_OUTCAR lines w) as [w1 [e|ls]] eqn:Hl.
  { unfold read_energy in Hr. unfold mbind at 1, M_bind at 1 in Hr.
    rewrite Hl in Hr. discriminate. }
  assert (Hls : snd (lines_or_OUTCAR lines w) = Ok ls) by (rewrite Hl; reflexivity).
  apply lines_or_OUTCAR_again in Hls as [Hl' _].
  unfold read_energy in *. unfold mbind at 1, M_bind at 1 in Hr.
  unfold mbind at 1, M_bind at 1. rewrite Hl' in *. mrun.
  destruct (foldR (energy_step true) (PList [], PList []) ls) as [e|[fa za]] eqn:Hf;
    [discriminate|].
  apply energy_fold_last in Hf as (fs' & zs' & -> & -> & Hf).
  injection Hr as <-. exists fs', zs'. split; [reflexivity|].
  cbn [List.last] in Hf. rewrite Hf. reflexivity.
Qed.

Definition energy_log : list string :=
  ["  free  energy   TOTEN  =       -14.50000000 eV";
   "  energy  without entropy=      -14.40000000  energy(sigma->0) =      -14.45000000";
   "  FREE  energy   toten  =       -15.50000000 eV"].

Lemma read_energy_last_of_all_witness :
  read_energy false (Some energy_log) (Fresh.world 0)
    = (Fresh.world 0,
       Ok (PList [PFloat (-1550000000 # 100000000); PFloat (-1445000000 # 100000000)]))
  /\ read_energy false (Some [" end"]) (Fresh.world 0)
    = (Fresh.world 0, Ok (PList [PInt 0; PInt 0])).
Proof.
  split.
  - destruct (read_energy_last_of_all (Fresh.world 0) (Some energy_log)
                (PList [PList [PFloat (-1450000000 # 100000000);
                               PFloat (-1550000000 # 100000000)];
                        PList [PFloat (-1445000000 # 100000000)]]))
      as (fs & zs & Hv & Hr); [vm_compute; reflexivity|].
    injection Hv as <- <-. exact Hr.
  - destruct (read_energy_last_of_all (Fresh.world 0) (Some [" end"])
                (PList [PList []; PList []]))
      as (fs & zs & Hv & Hr); [vm_compute; reflexivity|].
    injection Hv as <- <-. exact Hr.
Defined.

(** ** Digits *)

Fixpoint all_chars (P : ascii -> bool) (s : string) : bool :=
  match s with
  | EmptyString => true
  | String c s' => P c && all_chars P s'
  end.

(** A run of digits: not empty, digits only. *)
Definition digit_run (t : string) : Prop :=
  t <> "" /\ all_chars Py.is_digit t = true.

Lemma digit_runs_go_spec s :
  all_chars Py.is_digit (fst (Py.digit_runs_go s)) = true /\
  Forall digit_run (snd (Py.digit_runs_go s)).
Proof.
  induction s as [|c s [IHt IHts]]; [split; [reflexivity|constructor]|].
  cbn [Py.digit_runs_go]. destruct (Py.digit_runs_go s) as [t ts]. cbn [fst snd] in *.
  destruct (Py.is_digit c) eqn:Hc; cbn [fst snd].
  - split; [cbn; rewrite Hc; exact IHt|exact IHts].
  - split; [reflexivity|]. destruct t as [|c' t]; [exact IHts|].
    cbn [Py.cons_token]. constructor; [|exact IHts]. split; [discriminate|exact IHt].
Qed.

Lemma digit_runs_spec s : Forall digit_run (Py.digit_runs s).
Proof.
  unfold Py.digit_runs. pose proof (digit_runs_go_spec s) as [Ht Hts].
  destruct (Py.digit_runs_go s) as [t ts]. cbn [fst snd] in *.
  destruct t as [|c t]; [exact Hts|].
  cbn [Py.cons_token]. constructor; [|exact Hts]. split; [discriminate|exact Ht].
Qed.

Lemma rev_app_rev_app s1 s2 s3 :
  String.rev_app (String.rev_app s1 s2) s3 = String.rev_app s2 (s1 +:+ s3).
Proof.
  revert s2 s3. induction s1 as [|a s1 IH]; intros s2 s3; [reflexivity|].
  cbn [String.rev_app]. rewrite IH. reflexivity.
Qed.

Lemma rev_rev s : String.rev (String.rev s) = s.
Proof.
  unfold String.rev. rewrite rev_app_rev_app. cbn [String.rev_app].
  induction s as [|a s IH]; [reflexivity|].
  change (String a s +:+ "") with (String a (s +:+ "")). rewrite IH. reflexivity.
Qed.

Lemma all_chars_rev_app P s1 s2 :
  all_chars P (String.rev_app s1 s2) = all_chars P s1 && all_chars P s2.
Proof.
  revert s2. induction s1 as [|a s1 IH]; intros s2; [reflexivity|].
  cbn [String.rev_app all_chars]. rewrite IH. cbn [all_chars].
  destruct (P a), (all_chars P s1), (all_chars P s2); reflexivity.
Qed.

Lemma lstrip_no_space s :
  all_chars (fun c => negb (Py.is_space c)) s = true -> Py.lstrip s = s.
Proof.
  destruct s as [|c s]; [reflexivity|]. cbn [all_chars Py.lstrip].
  destruct (Py.is_space c); [discriminate|reflexivity].
Qed.

Lemma strip_no_space s :
  all_chars (fun c => negb (Py.is_space c)) s = true -> Py.strip s = s.
Proof.
  intros Hs. unfold Py.strip. rewrite (lstrip_no_space s Hs).
  rewrite lstrip_no_space; [apply rev_rev|].
  unfold String.rev. rewrite all_chars_rev_app, Hs. reflexivity.
Qed.

Lemma all_chars_impl (P Q : ascii -> bool) s :
  (forall c, P c = true -> Q c = true) ->
  all_chars P s = true -> all_chars Q s = true.
Proof.
  intros HPQ. induction s as [|c s IH]; [reflexivity|]. cbn [all_chars].
  intros Hs. apply andb_true_iff in Hs as [Hc Hs].
  rewrite (HPQ c Hc), (IH Hs). reflexivity.
Qed.

Lemma digit_not_space c : Py.is_digit c = true -> negb (Py.is_space c) = true.
Proof.
  destruct c as [[] [] [] [] [] [] [] []]; vm_compute; congruence.
Qed.

Lemma digit_sign c s :
  Py.is_digit c = true -> Py.sign (String c s) = (1, String c s).
Proof.
  destruct c as [[] [] [] [] [] [] [] []]; vm_compute; congruence.
Qed.

Lemma digit_value c : Py.is_digit c = true -> exists d, Py.digit c = Some d /\ 0 <= d.
Proof.
  unfold Py.is_digit, Py.digit.
  destruct (_ && _) eqn:Hb; [|discriminate]. intros _.
  apply andb_true_iff in Hb as [Hlo _]. apply Nat.leb_le in Hlo.
  eexists. split; [reflexivity|lia].
Qed.

Lemma digits_go_digits s : forall prev acc cnt,
  all_chars Py.is_digit s = true -> (s <> "" \/ prev = true) -> 0 <= acc ->
  exists v n, Py.digits_go prev acc cnt s = Some (v, n) /\ 0 <= v.
Proof.
  induction s as [|c s IH]; intros prev acc cnt Hs Hne Hacc.
  - destruct Hne as [Hne| ->]; [congruence|]. cbn. eauto.
  - cbn [all_chars] in Hs. apply andb_true_iff in Hs as [Hc Hs].
    apply digit_value in Hc as (d & Hd & Hd0).
    cbn [Py.digits_go]. rewrite Hd. apply IH; [exact Hs|auto|lia].
Qed.

(** [int] of a run of digits is a number that is not negative. *)
Lemma int_digit_run t : digit_run t -> exists n, Py.int t = Some n /\ 0 <= n.
Proof.
  intros [Hne Hd]. unfold Py.int.
  rewrite strip_no_space by (apply (all_chars_impl _ _ _ digit_not_space Hd)).
  destruct t as [|c t]; [congruence|].
  pose proof Hd as Hd'. cbn [all_chars] in Hd'. apply andb_true_iff in Hd' as [Hc _].
  rewrite (digit_sign _ _ Hc). unfold Py.digits.
  destruct (digits_go_digits (String c t) false 0 0 Hd) as (v & n & Hv & Hv0);
    [left; discriminate|lia|].
  rewrite Hv. exists (1 * v). split; [reflexivity|lia].
Qed.

Lemma to_int_digit_runs line :
  exists ns, mapR to_int (Py.digit_runs line) = Ok ns /\ Forall (fun n => 0 <= n) ns.
Proof.
  pose proof (digit_runs_spec line) as Hruns.
  induction Hruns as [|t ts Ht _ (ns & Hns & Hpos)]; [exists []; split; [reflexivity|constructor]|].
  apply int_digit_run in Ht as (n & Hn & Hn0).
  assert (Ht : to_int t = Ok n) by (unfold to_int; rewrite Hn; reflexivity).
  exists (n :: ns). cbn [mapR]. rewrite Ht. cbn [mbind result_bind]. rewrite Hns.
  split; [reflexivity|constructor; assumption].
Qed.

(** ** The counters of the log *)

Definition no_iteration (line : string) : Prop :=
  Py.contains "- Iteration" line = false.

Lemma iteration_step_result k niter line y :
  0 <= k -> iteration_step k niter line = Ok y ->
  (y = niter /\ no_iteration line) \/ exists n, y = PInt n /\ 0 <= n.
Proof.
  intros Hk. unfold iteration_step, no_iteration.
  destruct (Py.contains "- Iteration" line); [|intros [= <-]; auto].
  destruct (to_int_digit_runs line) as (ns & -> & Hpos). cbn [mbind result_bind].
  destruct (Seq.index ns k) as [e|n] eqn:Hn; [discriminate|].
  cbn. intros [= <-]. right. exists n. split; [reflexivity|].
  rewrite <- (Z2Nat.id k) in Hn by exact Hk. apply index_nonneg_inv in Hn.
  rewrite Forall_forall in Hpos. apply Hpos. eapply list_elem_of_lookup_2. exact Hn.
Qed.

Lemma iteration_step_error k niter line e :
  iteration_step k niter line = Raise e -> e = IndexError.
Proof.
  unfold iteration_step.
  destruct (Py.contains "- Iteration" line); [|discriminate].
  destruct (to_int_digit_runs line) as (ns & -> & _). cbn [mbind result_bind].
  unfold Seq.index. destruct (_ && _).
  - destruct (ns !! _); cbn; [discriminate|intros [= <-]; reflexivity].
  - cbn. intros [= <-]. reflexivity.
Qed.

Lemma iteration_fold k lines : forall niter,
  0 <= k ->
  (niter = PNone \/ exists n, niter = PInt n /\ 0 <= n) ->
  match foldR (iteration_step k) niter lines with
  | inl e => e = IndexError
  | inr y => y = PNone \/ exists n, y = PInt n /\ 0 <= n
  end.
Proof.
  induction lines as [|line lines IH]; intros niter Hk Hn; [exact Hn|].
  cbn [foldR]. destruct (iteration_step k niter line) as [e|y] eqn:Hstep.
  - cbn. eapply iteration_step_error. exact Hstep.
  - cbn [mbind result_bind]. apply IH; [exact Hk|].
    apply iteration_step_result in Hstep as [[-> _]|Hy]; [exact Hn|auto|exact Hk].
Qed.

(** The loop of both counters over the lines of [OUTCAR]. *)
Definition read_counter (k : Z) : M pyval :=
  load_file_OUTCAR ≫= fun lines => lift (foldR (iteration_step k) PNone lines).


Definition iteration_world : World :=
  with_fs {["." := mkDir (Some ["--------------------------------------- Iteration      1(   1)  ---------------------------------------";
                                " energy";
                                "--------------------------------------- Iteration      3(  12)  ---------------------------------------";
                                " end"]) None None XmlAbsent]}
    (Fresh.world 0).


(** ** The functional *)

Lemma upper_ascii_upper c : Py.upper_ascii (Py.upper_ascii c) = Py.upper_ascii c.
Proof. destruct c as [[] [] [] [] [] [] [] []]; reflexivity. Qed.

Lemma upper_upper s : Py.upper (Py.upper s) = Py.upper s.
Proof.
  induction s as [|c s IH]; [reflexivity|].
  cbn [Py.upper]. rewrite upper_ascii_upper, IH. reflexivity.
Qed.

(** [input_params.get(key, None)] *)
Definition input_param (w : World) (key : string) : pyval :=
  default PNone (input_params (gvi (self w)) !! key).

(** X10.  [get_xc_functional] answers from [xc] when [xc] is set, whatever
    [pp] holds, from [pp] when only [pp] is set, and raises [ValueError]
    when neither is set, a value that is [None] or empty counting as not
    set.  The answer is in upper case, so that asking for the upper case of
    it changes nothing; a value that is set and is no text raises
    [AttributeError].  The world stays as it is. *)
Theorem get_xc_functional_priority (w : World) :
  fst (get_xc_functional w) = w /\
  (forall xc, input_param w "xc" = PStr xc -> xc <> "" ->
     snd (get_xc_functional w) = Ok (PStr (Py.upper xc))) /\
  (forall pp, PyVal.truthy (input_param w "xc") = false ->
     input_param w "pp" = PStr pp -> pp <> "" ->
     snd (get_xc_functional w) = Ok (PStr (Py.upper pp))) /\
  (PyVal.truthy (input_param w "xc") = false ->
   PyVal.truthy (input_param w "pp") = false ->
   snd (get_xc_functional w) = Raise ValueError) /\
  (forall v, snd (get_xc_functional w) = Ok v ->
     exists s, v = PStr s /\ Py.upper s = s) /\
  (forall e, snd (get_xc_functional w) = Raise e -> e = ValueError \/ e = AttributeError).
Proof.
  assert (Hnonempty : forall s, s <> "" -> PyVal.truthy (PStr s) = true).
  { intros s Hs. cbn. destruct (String.eqb_spec s ""); [congruence|reflexivity]. }
  assert (Hkey : forall key, PyVal.truthy (input_param w key) = true ->
            lookup_key (input_params (gvi (self w))) key = Ok (input_param w key)).
  { intros key. unfold input_param, lookup_key.
    destruct (input_params (gvi (self w)) !! key); [reflexivity|discriminate]. }
  assert (Hrun : get_xc_functional w =
            (w, if PyVal.truthy (input_param w "xc") then upper_val (input_param w "xc")
                else if PyVal.truthy (input_param w "pp") then upper_val (input_param w "pp")
                else Raise ValueError)).
  { unfold get_xc_functional. mrun. fold (input_param w "xc"). fold (input_param w "pp").
    destruct (PyVal.truthy (input_param w "xc")) eqn:Hxc.
    - rewrite (Hkey _ Hxc). reflexivity.
    - destruct (PyVal.truthy (input_param w "pp")) eqn:Hpp; [|reflexivity].
      rewrite (Hkey _ Hpp). reflexivity. }
  assert (Hupper : forall x v, upper_val x = Ok v -> exists s, v = PStr s /\ Py.upper s = s).
  { intros x v. destruct x; try discriminate. intros [= <-].
    eexists. split; [reflexivity|apply upper_upper]. }
  assert (Herr : forall x e, upper_val x = Raise e -> e = AttributeError).
  { intros x e. destruct x; try discriminate; intros [= <-]; reflexivity. }
  rewrite Hrun. cbn [fst snd]. repeat split.
  - intros xc Hxc Hne. rewrite Hxc, (Hnonempty _ Hne). reflexivity.
  - intros pp Hxc Hpp Hne. rewrite Hxc, Hpp, (Hnonempty _ Hne). reflexivity.
  - intros -> ->. reflexivity.
  - intros v. destruct (PyVal.truthy (input_param w "xc")); [apply Hupper|].
    destruct (PyVal.truthy (input_param w "pp")); [apply Hupper|discriminate].
  - intros e. destruct (PyVal.truthy (input_param w "xc")); [right; eapply Herr; eauto|].
    destruct (PyVal.truthy (input_param w "pp")); [right; eapply Herr; eauto|].
    intros [= <-]. left. reflexivity.
Qed.

(** A calculator with [xc] and [pp] set. *)
Definition functional_world : World :=
  with_params
    (Ase.setattr Input
       (<["xc" := PStr "pbe"]> (<["pp" := PStr "lda"]> (input_params Fresh.params)))
       Fresh.params)
    (Fresh.world 0).

Lemma get_xc_functional_priority_witness :
  snd (get_xc_functional functional_world) = Ok (PStr "PBE") /\
  snd (get_xc_functional (Fresh.world 0)) = Raise ValueError.
Proof.
  split.
  - destruct (get_xc_functional_priority functional_world) as (_ & Hxc & _).
    apply (Hxc "pbe"); [reflexivity|discriminate].
  - destruct (get_xc_functional_priority (Fresh.world 0)) as (_ & _ & _ & Hnone & _).
    apply Hnone; reflexivity.
Defined.

(** ** What was read from [vasprun.xml] *)

Definition not_loaded : exn :=
  RuntimeError "vasprun.xml data has not yet been loaded. Run read_results() first.".

(** X11.  The Fermi level and the spin polarization are answered from the
    calculator that [_read_xml] has made of [vasprun.xml]: after
    [_read_xml] has returned they are those of the file, and after
    [clear_results] they raise [RuntimeError] until the file is read
    again.  A [vasprun.xml] that cannot be parsed or that holds no
    calculator raises [ReadError] and leaves the world as it is. *)
Theorem xml_access (w : World) :
  (forall w1 calc, _read_xml w = (w1, Ok calc) ->
     get_fermi_level w1 = (w1, Ok (xml_fermi_level calc)) /\
     get_spin_polarized w1 = (w1, Ok (xml_spin_polarized calc)) /\
     exists d, fs w !! directory (self w) = Some d /\ vasprun_xml d = XmlRead calc) /\
  (let w0 := fst (clear_results w) in
   get_fermi_level w0 = (w0, Raise not_loaded) /\
   get_spin_polarized w0 = (w0, Raise not_loaded)) /\
  (forall d, fs w !! directory (self w) = Some d ->
     vasprun_xml d = XmlParseError \/ vasprun_xml d = XmlNoCalc ->
     _read_xml w =
       (w, Raise (ReadError (incomplete_msg (_indir (directory (self w)) "vasprun.xml"))))).
Proof.
  split; [|split].
  - intros w1 calc Hr. unfold _read_xml, get_dir in Hr. mrun.
    destruct (fs w !! directory (self w)) as [d|] eqn:Hd; cbn in Hr; [|discriminate].
    destruct (vasprun_xml d) as [| | |c] eqn:Hv; try discriminate.
    injection Hr as <- <-. repeat split; eauto.
  - split; reflexivity.
  - intros d Hd Hv. unfold _read_xml, get_dir. mrun. rewrite Hd. cbn.
    destruct Hv as [-> | ->]; reflexivity.
Qed.

Definition xml_world : World :=
  with_fs {["." := mkDir None None None
                     (XmlRead (mkXmlCalc {["energy" := PFloat (-3 # 2)]} true
                                 (PFloat (5 # 2))))]}
    (Fresh.world 0).

Lemma xml_access_witness :
  get_fermi_level (fst (_read_xml xml_world))
    = (fst (_read_xml xml_world), Ok (PFloat (5 # 2))) /\
  snd (get_fermi_level (fst (clear_results (fst (_read_xml xml_world)))))
    = Raise not_loaded.
Proof.
  split.
  - destruct (xml_access xml_world) as (Hread & _).
    destruct (Hread (fst (_read_xml xml_world))
                (mkXmlCalc {["energy" := PFloat (-3 # 2)]} true (PFloat (5 # 2)))
                eq_refl) as (Hf & _).
    exact Hf.
  - destruct (xml_access (fst (_read_xml xml_world))) as (_ & (Hf & _) & _).
    rewrite Hf. reflexivity.
Defined.

(** ** Logs without a block *)

Lemma foldR_enumerate_skip {S} (f : S -> nat * string -> result S)
    (P : string -> Prop) s (ns : list nat) (lines : list string) :
  (forall s n line, P line -> f s (n, line) = Ok s) ->
  Forall P lines -> foldR f s (zip ns lines) = Ok s.
Proof.
  intros Hf Hl. revert ns. induction Hl as [|line lines Hline _ IH]; intros ns.
  - destruct ns; reflexivity.
  - destruct ns as [|n ns]; [reflexivity|]. cbn [zip zip_with foldR].
    rewrite (Hf _ _ _ Hline). cbn. apply IH.
Qed.

Definition no_forces (line : string) : Prop := Py.contains "TOTAL-FORCE" line = false.

(** X12.  On a log without a [TOTAL-FORCE] line, [read_forces] with [all]
    off raises [UnboundLocalError], for there are no forces to return, and
    with [all] on it returns an empty array; in both cases neither the
    structure of the calculator nor the sort index is looked at. *)
Theorem read_forces_without_block (w : World) (lines : option (list string))
    (ls : list string) :
  snd (lines_or_OUTCAR lines w) = Ok ls -> Forall no_forces ls ->
  read_forces false lines w = (w, Raise (UnboundLocalError "forces")) /\
  read_forces true lines w = (w, Ok (PList [])).
Proof.
  intros Hls Hno. apply lines_or_OUTCAR_again in Hls as [Hl _].
  assert (Hfold : forall all,
    foldR (forces_step all (resort (gvi (self w))) ls (snd (len_atoms w))) (None, [])
      (enumerate ls) = Ok (None, [])).
  { intros all. unfold enumerate. apply (foldR_enumerate_skip _ no_forces); [|exact Hno].
    intros [forces all_forces] n line Hline. unfold forces_step. rewrite Hline.
    reflexivity. }
  split; unfold read_forces; unfold mbind at 1, M_bind at 1; rewrite Hl;
    unfold run_pure; mrun; unfold read_forces_pure; rewrite Hfold; reflexivity.
Qed.

Lemma read_forces_without_block_witness :
  read_forces false (Some [" POSITION "; " end"]) (Fresh.world 0)
    = (Fresh.world 0, Raise (UnboundLocalError "forces")) /\
  read_forces true (Some [" POSITION "; " end"]) (Fresh.world 0)
    = (Fresh.world 0, Ok (PList [])).
Proof.
  apply (read_forces_without_block (Fresh.world 0) (Some [" POSITION "; " end"])
           [" POSITION "; " end"] eq_refl).
  repeat constructor.
Defined.

Definition no_magnetization (line : string) : Prop :=
  Py.contains "magnetization (x)" line = false.

Lemma last_index_none magstr lines :
  Forall (fun line => Py.contains magstr line = false) lines ->
  last_index magstr lines = -1.
Proof.
  intros Hno. unfold last_index, enumerate.
  assert (Hfold : forall z ns,
    foldl (fun (nidx : Z) '(n, line) =>
             if Py.contains magstr line then Z.of_nat n else nidx) z (zip ns lines) = z).
  { induction Hno as [|line lines Hline _ IH]; intros z ns.
    - destruct ns; reflexivity.
    - destruct ns as [|n ns]; [reflexivity|]. cbn [zip zip_with foldl].
      rewrite Hline. apply IH. }
  apply Hfold.
Qed.

(** An index into an array of [n] entries. *)
Definition in_range (n : nat) (i : Z) : Prop := - Z.of_nat n <= i < Z.of_nat n.

Lemma index_replicate {A} n (x : A) i :
  in_range n i -> Seq.index (replicate n x) i = Ok x.
Proof.
  intros [Hlo Hhi]. unfold Seq.index. rewrite length_replicate.
  destruct (Z.ltb_spec i 0).
  - destruct (Z.leb_spec 0 (i + Z.of_nat n)); [|lia].
    destruct (Z.ltb_spec (i + Z.of_nat n) (Z.of_nat n)); [|lia]. cbn.
    rewrite lookup_replicate_2 by lia. reflexivity.
  - destruct (Z.leb_spec 0 i); [|lia].
    destruct (Z.ltb_spec i (Z.of_nat n)); [|lia]. cbn.
    rewrite lookup_replicate_2 by lia. reflexivity.
Qed.

Lemma index_error {A} (l : list A) i e : Seq.index l i = Raise e -> e = IndexError.
Proof.
  unfold Seq.index. destruct (_ && _); [|intros [= <-]; reflexivity].
  destruct (l !! _); cbn; [discriminate|intros [= <-]; reflexivity].
Qed.

Lemma take_replicate {A} n (x : A) idx :
  Forall (in_range n) idx -> Seq.take (replicate n x) idx = Ok (replicate (length idx) x).
Proof.
  intros Hidx. unfold Seq.take. induction Hidx as [|i idx Hi _ IH]; [reflexivity|].
  cbn [mapR]. rewrite (index_replicate _ _ _ Hi). cbn [mbind result_bind].
  rewrite IH. reflexivity.
Qed.

Lemma take_replicate_bad {A} n (x : A) idx :
  Exists (fun i => ~ in_range n i) idx ->
  Seq.take (replicate n x) idx = Raise IndexError.
Proof.
  intros Hbad. unfold Seq.take.
  induction Hbad as [i idx Hi|i idx _ IH]; cbn [mapR].
  - assert (Hraise : Seq.index (replicate n x) i = Raise IndexError).
    { unfold Seq.index, in_range in *. rewrite length_replicate.
      destruct (Z.ltb_spec i 0).
      - destruct (Z.leb_spec 0 (i + Z.of_nat n)); [|reflexivity].
        destruct (Z.ltb_spec (i + Z.of_nat n) (Z.of_nat n)); [|reflexivity]. lia.
      - destruct (Z.leb_spec 0 i); [|lia].
        destruct (Z.ltb_spec i (Z.of_nat n)); [|reflexivity]. lia. }
    rewrite Hraise. reflexivity.
  - destruct (Seq.index (replicate n x) i) as [e|y] eqn:Hx.
    + apply index_error in Hx as ->. reflexivity.
    + cbn [mbind result_bind]. rewrite IH. reflexivity.
Qed.

(** X13.  On a log without a magnetization block, [_read_magnetic_moments]
    returns zeros, as many as the sort index [resort] has entries; an
    entry of [resort] that is no site index raises [IndexError]. *)
Theorem magnetic_moments_without_block (w : World) (lines : option (list string))
    (ls : list string) (n : nat) :
  snd (lines_or_OUTCAR lines w) = Ok ls -> Forall no_magnetization ls ->
  snd (len_atoms w) = Ok n ->
  (Forall (in_range n) (resort (gvi (self w))) ->
   _read_magnetic_moments lines w
     = (w, Ok (replicate (length (resort (gvi (self w)))) 0%Q))) /\
  (Exists (fun i => ~ in_range n i) (resort (gvi (self w))) ->
   _read_magnetic_moments lines w = (w, Raise IndexError)).
Proof.
  intros Hls Hno Hn. apply lines_or_OUTCAR_again in Hls as [Hl _].
  pose proof (len_atoms_frame w) as Hfr.
  destruct (len_atoms w) as [w1 r] eqn:Hlen. cbn in Hn, Hfr. subst w1 r.
  assert (Hraw : raw_magnetic_moments ls n = Ok (replicate n 0%Q)).
  { unfold raw_magnetic_moments. rewrite (last_index_none _ _ Hno). reflexivity. }
  assert (Hrun : _read_magnetic_moments lines w
                 = (w, Seq.take (replicate n 0%Q) (resort (gvi (self w))))).
  { unfold _read_magnetic_moments. unfold mbind at 1, M_bind at 1. rewrite Hl.
    unfold mbind at 1, M_bind at 1. rewrite Hlen. mrun. rewrite Hraw. reflexivity. }
  rewrite Hrun. split.
  - intros Hidx. rewrite (take_replicate _ _ _ Hidx). reflexivity.
  - intros Hbad. rewrite (take_replicate_bad _ _ _ Hbad). reflexivity.
Qed.

Lemma magnetic_moments_without_block_witness :
  _read_magnetic_moments (Some magnetic_log) magnetic_world = (magnetic_world, Ok []) /\
  _read_magnetic_moments (Some magnetic_log)
    (with_sort_index [0; 1] [1; 0] magnetic_world)
    = (with_sort_index [0; 1] [1; 0] magnetic_world, Ok [0%Q; 0%Q]) /\
  _read_magnetic_moments (Some magnetic_log)
    (with_sort_index [0; 1] [1; 2] magnetic_world)
    = (with_sort_index [0; 1] [1; 2] magnetic_world, Raise IndexError).
Proof.
  split; [|split].
  - destruct (magnetic_moments_without_block magnetic_world (Some magnetic_log)
                magnetic_log 2 eq_refl ltac:(repeat constructor) eq_refl) as [Hz _].
    apply Hz. constructor.
  - destruct (magnetic_moments_without_block
                (with_sort_index [0; 1] [1; 0] magnetic_world) (Some magnetic_log)
                magnetic_log 2 eq_refl ltac:(repeat constructor) eq_refl) as [Hz _].
    apply Hz. repeat constructor; unfold in_range; cbn; lia.
  - destruct (magnetic_moments_without_block
                (with_sort_index [0; 1] [1; 2] magnetic_world) (Some magnetic_log)
                magnetic_log 2 eq_refl ltac:(repeat constructor) eq_refl) as [_ Hbad].
    apply Hbad. apply Exists_cons_tl, Exists_cons_hd. unfold in_range. cbn. lia.
Defined.

(** ** The weights of the k-points *)

Lemma sumQ_scale (c : Q) (l : list Q) :
  (sumQ ((fun x => x / c) <$> l) == sumQ l / c)%Q.
Proof.
  induction l as [|x l IH]; cbn [fmap list_fmap sumQ foldr].
  - unfold Qdiv. ring.
  - fold (sumQ ((fun x => x / c)%Q <$> l)). fold (sumQ l). rewrite IH.
    unfold Qdiv. ring.
Qed.


Definition ibzkpt : list string :=
  ["Automatically generated mesh" +:+ String "010" "";
   "       2" +:+ String "010" "";
   "Reciprocal lattice" +:+ String "010" "";
   "    0.00000000000000    0.00000000000000    0.00000000000000             1" +:+ String "010" "";
   "    0.50000000000000    0.00000000000000    0.00000000000000             3" +:+ String "010" "";
   "Tetrahedra" +:+ String "010" "";
   "    1    0.18" +:+ String "010" ""].


(** ** Structures that cannot be run *)

(** A structure that [check_atoms] lets pass. *)
Definition runnable (a : Atoms) : Prop :=
  Qeq_bool (det3 (cell a)) 0 = false /\ pbc a = (true, true, true).

Lemma check_atoms_Ok w l a :
  heap w !! l = Some a -> runnable a -> check_atoms (Some l) w = (w, Ok tt).
Proof.
  intros Ha [Hdet Hpbc]. unfold check_atoms, deref. mrun. rewrite Ha. cbn.
  rewrite Hdet, Hpbc. reflexivity.
Qed.

(** Assigning a structure that is in the heap stores a copy of it and
    touches nothing else but the results. *)
Lemma set_atoms_Some_frame w l a :
  heap w !! l = Some a ->
  exists w' l',
    set_atoms (Some l) w = (w', Ok tt) /\
    _atoms (self w') = Some l' /\ heap w' !! l' = Some a /\
    fs w' = fs w /\ environ w' = environ w /\ executable w' = executable w /\
    command (self w') = command (self w) /\ prefix (self w') = prefix (self w) /\
    (results (self w) = ∅ -> results (self w') = ∅).
Proof.
  intros Ha. destruct (check_state_Ok w l a default_tol Ha) as [changes Hc].
  unfold set_atoms. unfold mbind at 1, M_bind at 1. rewrite Hc.
  destruct changes as [|c changes]; unfold copy, deref, alloc, clear_results; mrun;
    cbn [heap with_self with_heap self]; rewrite Ha; cbn;
    (do 2 eexists; split; [reflexivity|]); cbn;
    (split; [reflexivity|]); (split; [apply lookup_insert_eq|]); auto 10.
Qed.

Lemma bind_step {A B} (m : M A) (f : A -> M B) w w1 a :
  m w = (w1, Ok a) -> (m ≫= f) w = f a w1.
Proof. intros Hm. unfold mbind, M_bind. rewrite Hm. reflexivity. Qed.

Lemma bind_raise {A B} (m : M A) (f : A -> M B) w w1 e :
  m w = (w1, Raise e) -> (m ≫= f) w = (w1, Raise e).
Proof. intros Hm. unfold mbind, M_bind. rewrite Hm. reflexivity. Qed.

Lemma copy_Ok w l a :
  heap w !! l = Some a ->
  copy l w = (with_heap (<[fresh (dom (heap w)) := a]> (heap w)) w,
              Ok (fresh (dom (heap w)))).
Proof.
  intros Ha. unfold copy, deref, alloc. mrun. rewrite Ha. reflexivity.
Qed.

Section Rejected.

Context `{Parent}.


(** X16.  With a structure that can be run, no command of its own and none
    of the environment variables set, [calculate] raises
    [CalculatorSetupError] before any input is written: the files are as
    they were, the results are empty, and the calculator holds a copy of
    the structure. *)
Theorem calculate_without_command (w : World) (l : loc) (a : Atoms) :
  heap w !! l = Some a -> runnable a ->
  PyVal.truthy (command (self w)) = false ->
  (forall env, env ∈ env_commands -> environ w !! env = None) ->
  exists w' l',
    calculate (Some l) w = (w', Raise (CalculatorSetupError setup_msg)) /\
    fs w' = fs w /\ results (self w') = ∅ /\
    _atoms (self w') = Some l' /\ heap w' !! l' = Some a.
Proof.
  intros Ha Hrun Hcmd Henv.
  set (w1 := fst (clear_results w)).
  assert (Ha1 : heap w1 !! l = Some a) by exact Ha.
  pose proof (copy_Ok w1 l a Ha1) as Hcopy.
  set (l1 := fresh (dom (heap w1))) in *.
  set (w2 := with_heap (<[l1 := a]> (heap w1)) w1) in *.
  destruct (set_atoms_Some_frame w2 l1 a) as
    (w3 & l3 & Hset & Hat & Hheap & Hfs & Henv3 & Hexe & Hcmd3 & Hpre & Hres).
  { apply lookup_insert_eq. }
  assert (Hatoms : (copy l ≫= fun l' => set_atoms (Some l')) w1 = (w3, Ok tt)).
  { rewrite (bind_step _ _ _ _ _ Hcopy). exact Hset. }
  assert (Hmake : make_command (command (self w3)) w3
                  = (w3, Raise (CalculatorSetupError setup_msg))).
  { unfold make_command. mrun. rewrite Hcmd3. cbn. rewrite Hcmd.
    unfold env_commands in *. cbn [search_env]. rewrite Henv3. cbn.
    rewrite !Henv by (repeat (first [apply list_elem_of_here|apply list_elem_of_further])).
    reflexivity. }
  exists w3, l3. split.
  - unfold calculate.
    rewrite (bind_step _ _ _ _ _ (check_atoms_Ok _ _ _ Ha Hrun)).
    rewrite (bind_step clear_results _ w w1 tt eq_refl).
    rewrite (bind_step _ _ _ _ _ Hatoms).
    rewrite (bind_step get_self _ w3 w3 (self w3) eq_refl).
    rewrite (bind_raise _ _ _ _ _ Hmake). reflexivity.
  - rewrite Hfs. repeat split; try assumption. apply Hres. reflexivity.
Qed.

End Rejected.

(** A structure on a surface: not periodic along the third axis. *)
Definition slab : Atoms :=
  mkAtoms [1; 8] [(0, 0, 0); (1 # 2, 0, 0)]%Q
    ((4, 0, 0), (0, 4, 0), (0, 0, 4))%Q (true, true, false).

(** The calculator of [converged_world], and two structures of the
    caller. *)
Definition waiting_world : World :=
  with_heap (<[2%positive := slab]> {[1%positive := cubic]}) converged_world.


Lemma calculate_without_command_witness :
  exists w' l',
    calculate (Some 1%positive) waiting_world
      = (w', Raise (CalculatorSetupError setup_msg)) /\
    fs w' = ∅ /\ results (self w') = ∅ /\
    _atoms (self w') = Some l' /\ heap w' !! l' = Some cubic.
Proof.
  apply (calculate_without_command waiting_world 1%positive cubic).
  - reflexivity.
  - split; reflexivity.
  - reflexivity.
  - intros env _. reflexivity.
Defined.

(** ** Changed parameters *)

Lemma getattr_setattr c c' d g :
  getattr c' (Ase.setattr c d g) = if bool_decide (c' = c) then d else getattr c' g.
Proof. destruct c, c'; reflexivity. Qed.

(** A new key, or a new value that is not equal to the old one, is a
    difference. *)
Lemma compare_dict_insert_ne (d : gmap string pyval) k v :
  (forall v0, d !! k = Some v0 -> PyVal.eq v v0 = false) ->
  compare_dict (<[k := v]> d) d = false.
Proof.
  intros Hv. unfold compare_dict.
  destruct (bool_decide (dom (<[k := v]> d) ≠ dom d)) eqn:Hdom; [reflexivity|].
  apply bool_decide_eq_false in Hdom.
  assert (Hk : k ∈ dom d).
  { destruct (decide (dom (<[k := v]> d) = dom d)) as [Heq|Hne]; [|contradiction].
    rewrite <- Heq. apply elem_of_dom. rewrite lookup_insert_eq. eauto. }
  apply elem_of_dom in Hk as [v0 Hk].
  destruct (forallb _ _) eqn:Hall; [|reflexivity].
  rewrite forallb_forall in Hall.
  specialize (Hall (k, v)). cbn in Hall. rewrite Hk in Hall.
  unfold PyVal.any_ne in Hall. rewrite (Hv _ Hk) in Hall.
  cbn in Hall. symmetry. apply Hall.
  apply list_elem_of_In, elem_of_map_to_list. apply lookup_insert_eq.
Qed.

(** An old key with a value equal to the old one is none. *)
Lemma compare_dict_insert_eq (d : gmap string pyval) k v v0 :
  d !! k = Some v0 -> PyVal.eq v v0 = true ->
  compare_dict (<[k := v]> d) d = true.
Proof.
  intros Hk Hv. unfold compare_dict.
  rewrite bool_decide_false.
  2:{ intros Hne. apply Hne. rewrite dom_insert_L.
      assert (Hin : k ∈ dom d) by (apply elem_of_dom; eauto).
      apply set_eq. intros x. rewrite elem_of_union, elem_of_singleton.
      split; [intros [->|Hx]; assumption|auto]. }
  apply forallb_forall. intros [k' v'] Hin.
  apply list_elem_of_In, elem_of_map_to_list in Hin.
  destruct (decide (k' = k)) as [->|Hne].
  - rewrite lookup_insert_eq in Hin. injection Hin as <-. rewrite Hk.
    unfold PyVal.any_ne. rewrite Hv. reflexivity.
  - rewrite lookup_insert_ne in Hin by congruence. rewrite Hin.
    unfold PyVal.any_ne. rewrite pyval_eq_refl. reflexivity.
Qed.

Lemma changed_params_setattr c d g :
  changed_params (Ase.setattr c d g) (snapshot g) =
    if compare_dict d (getattr c g) then [] else [category_name c].
Proof.
  unfold changed_params, snapshot. cbn [omap list_omap].
  rewrite !getattr_setattr.
  destruct c; cbn [bool_decide decide_rel category_eq_dec getattr category_name];
    repeat match goal with
    | |- context [bool_decide (?a = ?b)] =>
        first [rewrite (bool_decide_true (a = b)) by reflexivity
              |rewrite (bool_decide_false (a = b)) by discriminate]
    end;
    cbn [getattr]; rewrite !compare_dict_refl;
    match goal with |- context [compare_dict d ?x] => destruct (compare_dict d x) end;
    reflexivity.
Qed.

(** X17.  After the parameters were stored by [_store_param_state], a
    parameter that is given a value not equal to the stored one, or a key
    that is new, makes [check_state] report the name of its dictionary,
    and of no other, after the changes of the structure; a parameter that
    is given a value equal to the stored one is not reported. *)
Theorem check_state_reports_parameter (w : World) (l : loc) (a : Atoms)
    (tol : Q) (g0 : GenerateVaspInput) (c : category) (k : string) (v : pyval) :
  heap w !! l = Some a ->
  param_state (self w) = snapshot g0 ->
  gvi (self w) = Ase.setattr c (<[k := v]> (getattr c g0)) g0 ->
  let last := _atoms (self w) ≫= fun l0 => heap w !! l0 in
  ((forall v0, getattr c g0 !! k = Some v0 -> PyVal.eq v v0 = false) ->
   check_state l tol w
     = (w, Ok (Calculator.check_state last a tol ++ [category_name c])%list)) /\
  (forall v0, getattr c g0 !! k = Some v0 -> PyVal.eq v v0 = true ->
   check_state l tol w = (w, Ok (Calculator.check_state last a tol))).
Proof.
  intros Ha Hstate Hgvi last.
  assert (Hrun : check_state l tol w =
            (w, Ok (Calculator.check_state last a tol ++
                    changed_params (gvi (self w)) (param_state (self w)))%list)).
  { unfold check_state, deref. mrun. rewrite Ha. reflexivity. }
  rewrite Hrun, Hstate, Hgvi, changed_params_setattr. split.
  - intros Hv. rewrite (compare_dict_insert_ne _ _ _ Hv). reflexivity.
  - intros v0 Hk Hv. rewrite (compare_dict_insert_eq _ _ _ _ Hk Hv).
    rewrite app_nil_r. reflexivity.
Qed.

(** The calculator of [magnetic_world] after [encut] was set to [x]
    behind the back of [set]. *)
Definition tuned_world (x : pyval) : World :=
  with_params
    (Ase.setattr Float (<["encut" := x]> (float_params (gvi (self magnetic_world))))
       (gvi (self magnetic_world)))
    (with_self (with_param_state (snapshot (gvi (self magnetic_world)))
                  (self magnetic_world)) magnetic_world).

Lemma check_state_reports_parameter_witness :
  check_state 1%positive default_tol (tuned_world (PFloat 400))
    = (tuned_world (PFloat 400), Ok ["float_params"]) /\
  check_state 1%positive default_tol (tuned_world PNone)
    = (tuned_world PNone, Ok []).
Proof.
  split.
  - destruct (check_state_reports_parameter (tuned_world (PFloat 400)) 1%positive cubic
                default_tol (gvi (self magnetic_world)) Float "encut" (PFloat 400)
                eq_refl eq_refl eq_refl) as [Hne _].
    rewrite Hne; [vm_compute; reflexivity|].
    intros v0 Hv0. vm_compute in Hv0. injection Hv0 as <-. reflexivity.
  - destruct (check_state_reports_parameter (tuned_world PNone) 1%positive cubic
                default_tol (gvi (self magnetic_world)) Float "encut" PNone
                eq_refl eq_refl eq_refl) as [_ Heq].
    rewrite (Heq PNone); [vm_compute; reflexivity| |reflexivity].
    vm_compute. reflexivity.
Defined.

(** ** The export changes the calculator *)

Lemma get_version_world `{Parent} w w1 x :
  get_version w = (w1, Ok x) -> w1 = with_self (with_version x (self w)) w.
Proof.
  unfold get_version. mrun. destruct (version (self w)) eqn:Hv;
    try (intros [= <- <-]; destruct w as [[] ? ? ? ? ? ?]; cbn in *; subst; reflexivity).
  rewrite read_version_file.
  destruct (match option_bind _ _ _ _ with None => _ | Some lines => _ end)
    as [e|y]; [discriminate|].
  intros [= <- <-]. reflexivity.
Qed.

Section Exporting.

Context `{Parent}.

(** X18.  [asdict] is no mere reading: it stores the parameters as
    [_store_param_state] does, so that [check_state] finds no parameter
    changed after it, and keeps the version that it has read; structure,
    results and files stay.  What it returns holds the results, no
    parameter that is [None], and the structure when the calculator has
    one with at least one site. *)
Theorem asdict_stores_state (w w' : World) (dct : Snapshot) :
  asdict w = (w', Ok dct) ->
  exists x inputs,
    dct_vasp_version dct = Some x /\
    w' = with_self (with_param_state (snapshot (gvi (self w)))
                      (with_version x (self w))) w /\
    changed_params (gvi (self w')) (param_state (self w')) = [] /\
    dct_results dct = Some (results (self w)) /\
    dct_inputs dct = Some inputs /\
    (forall k v, inputs !! k = Some v ->
       v <> PNone /\ exists c, getattr c (gvi (self w)) !! k = Some v) /\
    dct_atoms dct =
      match _atoms (self w) ≫= fun l => heap w !! l with
      | Some a => if (0 <? natoms a)%nat then Some (atoms2dict a) else None
      | None => None
      end.
Proof.
  intros Ha. unfold asdict in Ha.
  apply bind_Ok in Ha as (w1 & x & Hv & Ha).
  apply get_version_world in Hv as ->.
  apply bind_Ok in Ha as (w2 & [] & Hs & Ha). injection Hs as <-.
  apply bind_Ok in Ha as (w3 & w3' & Hw & Ha). injection Hw as <- <-.
  apply bind_Ok in Ha as (w4 & atoms & Hat & Ha). injection Ha as <- <-.
  set (w2 := with_self (with_param_state (snapshot (gvi (self w)))
                          (with_version x (self w))) w).
  assert (Hatoms : w4 = w2 /\
            atoms = match _atoms (self w) ≫= fun l => heap w !! l with
                    | Some a => if (0 <? natoms a)%nat then Some (atoms2dict a) else None
                    | None => None
                    end).
  { cbn [self with_self with_param_state with_version _atoms] in Hat.
    destruct (_atoms (self w)) as [l|]; cbn [mbind option_bind].
    - unfold deref in Hat. mrun. cbn [heap with_self] in Hat.
      destruct (heap w !! l) as [a|]; cbn in Hat; [|discriminate].
      destruct (natoms a); cbn in Hat |- *; injection Hat as <- <-; auto.
    - mrun. injection Hat as <- <-. auto. }
  destruct Hatoms as [-> ->].
  exists x, (flatten (snapshot (gvi (self w)))).
  cbn [dct_vasp_version dct_results dct_inputs dct_atoms self with_self gvi
       with_param_state with_version param_state results].
  split; [reflexivity|]. split; [reflexivity|].
  split; [apply changed_params_snapshot|].
  split; [reflexivity|]. split; [reflexivity|]. split; [|reflexivity].
  intros k v Hk.
  change (flatten (snapshot (gvi (self w))))
    with (flatten_from ∅ (snapshot (gvi (self w)))) in Hk.
  apply flatten_from_Some in Hk as [Hk|(c & d & Hin & Hd & Hn)].
  - rewrite lookup_empty in Hk. discriminate.
  - apply snapshot_elem in Hin as ->. split; [intros ->; discriminate|eauto].
Qed.

End Exporting.

Lemma asdict_stores_state_witness :
  exists w' dct,
    asdict (tuned_world (PFloat 400)) = (w', Ok dct) /\
    changed_params (gvi (self w')) (param_state (self w')) = [] /\
    changed_params (gvi (self (tuned_world (PFloat 400))))
      (param_state (self (tuned_world (PFloat 400)))) = ["float_params"].
Proof.
  destruct (asdict (tuned_world (PFloat 400))) as [w' [e|dct]] eqn:Ha;
    [vm_compute in Ha; discriminate|].
  exists w', dct. split; [reflexivity|].
  destruct (asdict_stores_state _ _ _ Ha) as (x & inputs & _ & _ & Hc & _).
  split; [exact Hc|]. vm_compute. reflexivity.
Defined.

(** ** The structure after a relaxation *)

(** Assigning a structure that is in the heap adds a copy of it to the
    heap and changes no other object. *)
Lemma set_atoms_Some_heap `{Parent} w l a :
  heap w !! l = Some a ->
  exists w' l',
    set_atoms (Some l) w = (w', Ok tt) /\
    _atoms (self w') = Some l' /\ heap w !! l' = None /\
    heap w' = <[l' := a]> (heap w) /\ fs w' = fs w.
Proof.
  intros Ha. destruct (check_state_Ok w l a default_tol Ha) as [changes Hc].
  unfold set_atoms. unfold mbind at 1, M_bind at 1. rewrite Hc.
  destruct changes as [|c changes]; unfold copy, deref, alloc, clear_results; mrun;
    cbn [heap with_self with_heap self]; rewrite Ha; cbn;
    (do 2 eexists; split; [reflexivity|]); cbn;
    (split; [reflexivity|]); (split; [apply fresh_loc|]); auto.
Qed.

(** The structure [a] with the positions [pos] and the cell [c]. *)
Definition moved (a : Atoms) (pos : list vec3) (c : vec3 * vec3 * vec3) : Atoms :=
  mkAtoms (numbers a) pos c (pbc a).

Section Relaxed.

Context `{Parent}.

(** X19.  After a relaxation ([ibrion] above -1 and [nsw] above 0)
    [update_atoms] writes into the structure of the caller: its positions
    become those of [CONTCAR] indexed by [resort], its cell becomes the
    cell of [CONTCAR], species and boundaries stay; the calculator stores
    a copy of the structure so changed.  Without a relaxation, or with
    [ibrion] or [nsw] not set, the structure of the caller is left as it
    is and [CONTCAR] is not read. *)
Theorem update_atoms_moves_caller (w : World) (l : loc) (a : Atoms) :
  heap w !! l = Some a ->
  let p := int_params (gvi (self w)) in
  (forall i n d c pos,
     p !! "ibrion" = Some (PInt i) -> p !! "nsw" = Some (PInt n) ->
     -1 < i -> 0 < n ->
     fs w !! directory (self w) = Some d -> CONTCAR d = Some c ->
     Seq.take (positions c) (resort (gvi (self w))) = Ok pos ->
     length pos = length (positions a) ->
     exists w' l',
       update_atoms (Some l) w = (w', Ok tt) /\
       heap w' !! l = Some (moved a pos (cell c)) /\
       _atoms (self w') = Some l' /\ l' <> l /\
       heap w' !! l' = Some (moved a pos (cell c))) /\
  (p !! "ibrion" = Some PNone \/
   (exists i, p !! "ibrion" = Some (PInt i) /\ p !! "nsw" = Some PNone) \/
   (exists i n, p !! "ibrion" = Some (PInt i) /\ p !! "nsw" = Some (PInt n) /\
                (i <= -1 \/ n <= 0)) ->
   exists w' l',
     update_atoms (Some l) w = (w', Ok tt) /\
     heap w' !! l = Some a /\ _atoms (self w') = Some l' /\ l' <> l /\
     heap w' !! l' = Some a /\ fs w' = fs w).
Proof.
  intros Ha p.
  assert (Hgt : forall x k, gt (PInt x) k = Ok (k <? x)).
  { intros x k. unfold gt. cbn [PyVal.number]. f_equal.
    destruct (Qle_bool (inject_Z x) (inject_Z k)) eqn:Hle.
    - apply Qle_bool_iff in Hle. rewrite <- Zle_Qle in Hle.
      destruct (Z.ltb_spec k x); [lia|reflexivity].
    - destruct (Z.ltb_spec k x); [reflexivity|].
      assert (Hq : Qle_bool (inject_Z x) (inject_Z k) = true)
        by (apply Qle_bool_iff; rewrite <- Zle_Qle; lia).
      congruence. }
  assert (Hstore : forall w0 a0, heap w0 !! l = Some a0 ->
            exists w' l',
              set_atoms (Some l) w0 = (w', Ok tt) /\
              heap w' !! l = Some a0 /\ _atoms (self w') = Some l' /\ l' <> l /\
              heap w' !! l' = Some a0 /\ fs w' = fs w0).
  { intros w0 a0 Ha0.
    destruct (set_atoms_Some_heap w0 l a0 Ha0) as (w' & l' & Hs & Hat & Hnew & Hh & Hf).
    assert (Hne : l' <> l) by congruence.
    exists w', l'. rewrite Hh. repeat split; try assumption.
    - rewrite lookup_insert_ne by exact Hne. exact Ha0.
    - apply lookup_insert_eq. }
  split.
  - intros i n d c pos Hi Hn Hi1 Hn0 Hd Hc Hpos Hlen.
    set (w1 := with_heap (<[l := moved a pos (cell c)]> (heap w)) w).
    destruct (Hstore w1 (moved a pos (cell c))) as (w' & l' & Hs & Hrest).
    { apply lookup_insert_eq. }
    exists w', l'. split; [|tauto].
    unfold update_atoms. rewrite (bind_step get_self _ w w (self w) eq_refl).
    unfold lookup_key. fold p. rewrite Hi, Hn. cbn [of_option].
    rewrite (bind_step (lift (Ok (PInt i))) _ w w (PInt i) eq_refl).
    cbn [is_none negb]. unfold p in *.
    match goal with
    | |- (?m ≫= ?f) w = _ => assert (Hm : m w = (w1, Ok tt))
    end.
    { mrun. rewrite !Hgt.
      destruct (Z.ltb_spec (-1) i); [|lia]. destruct (Z.ltb_spec 0 n); [|lia].
      cbn. unfold read_CONTCAR, get_dir. mrun. rewrite Hd. cbn. rewrite Hc. cbn.
      rewrite Hpos. cbn. unfold set_positions, deref. mrun. rewrite Ha. cbn.
      rewrite bool_decide_true by exact Hlen. reflexivity. }
    rewrite (bind_step _ _ _ _ _ Hm). exact Hs.
  - intros Hstatic.
    destruct (Hstore w a Ha) as (w' & l' & Hs & Hrest).
    exists w', l'. split; [|exact Hrest].
    unfold update_atoms. rewrite (bind_step get_self _ w w (self w) eq_refl).
    unfold lookup_key. fold p.
    assert (Hib : exists ibrion, p !! "ibrion" = Some ibrion).
    { destruct Hstatic as [Hi|[(i & Hi & _)|(i & n & Hi & _)]]; eauto. }
    destruct Hib as [ibrion Hib]. rewrite Hib. cbn [of_option].
    rewrite (bind_step (lift (Ok ibrion)) _ w w ibrion eq_refl).
    match goal with
    | |- (?m ≫= ?f) w = _ => assert (Hm : m w = (w, Ok tt))
    end.
    { destruct Hstatic as [Hi|[(i & Hi & Hn)|(i & n & Hi & Hn & Hle)]];
        rewrite Hib in Hi; injection Hi as ->; cbn [is_none negb].
      - reflexivity.
      - mrun. rewrite Hn. reflexivity.
      - mrun. rewrite Hn. cbn [is_none negb of_option]. rewrite !Hgt.
        destruct (Z.ltb_spec (-1) i); cbn; [|reflexivity].
        destruct (Z.ltb_spec 0 n); [lia|reflexivity]. }
    rewrite (bind_step _ _ _ _ _ Hm). exact Hs.
Qed.

End Relaxed.

(** The structure [cubic] as the external program left it in [CONTCAR]:
    the sites in its own order, moved, in a larger cell. *)
Definition relaxed_contcar : Atoms :=
  mkAtoms [8; 1] [(3 # 5, 0, 0); (1 # 10, 0, 0)]%Q
    ((5, 0, 0), (0, 5, 0), (0, 0, 5))%Q (true, true, true).

Definition relaxed_world : World :=
  let w := Fresh.world 0 in
  let g :=
    with_sort [1; 0] [1; 0]
      (Ase.setattr Int (<["ibrion" := PInt 2]> (<["nsw" := PInt 5]> (int_params Fresh.params)))
         Fresh.params) in
  with_heap {[1%positive := cubic]}
    (with_fs {["." := mkDir None None (Some relaxed_contcar) XmlAbsent]}
       (with_params g w)).

Lemma update_atoms_moves_caller_witness :
  exists w' l',
    update_atoms (Some 1%positive) relaxed_world = (w', Ok tt) /\
    heap w' !! 1%positive
      = Some (mkAtoms [1; 8] [(1 # 10, 0, 0); (3 # 5, 0, 0)]%Q
                ((5, 0, 0), (0, 5, 0), (0, 0, 5))%Q (true, true, true)) /\
    _atoms (self w') = Some l' /\ l' <> 1%positive.
Proof.
  destruct (update_atoms_moves_caller relaxed_world 1%positive cubic eq_refl)
    as [Hmoved _].
  destruct (Hmoved 2 5 (mkDir None None (Some relaxed_contcar) XmlAbsent)
              relaxed_contcar [(1 # 10, 0, 0); (3 # 5, 0, 0)]%Q)
    as (w' & l' & Hu & Hl & Hat & Hne & _);
    try reflexivity; try lia.
  exists w', l'. repeat split; assumption.
Defined.

(** ** What reading the results leaves *)

(** The Result Mapping has an entry for [k]. *)
Definition has_result (k : string) (w : World) : Prop :=
  is_Some (results (self w) !! k).

(** Heap and files are as in [w0]. *)
Definition same_files (w0 w : World) : Prop := heap w = heap w0 /\ fs w = fs w0.

Section Results.

Context `{Parent}.

Lemma preserves_update_has k new : preserves (has_result k) (update_results new).
Proof.
  apply preserves_modify_self. intros w [v Hv]. unfold has_result. cbn.
  destruct (new !! k) as [v'|] eqn:Hn.
  - exists v'. apply lookup_union_Some_l. exact Hn.
  - exists v. rewrite lookup_union_r by exact Hn. exact Hv.
Qed.

Ltac frame_results :=
  frame;
  try apply preserves_update_has;
  try (apply preserves_modify_self; intros; assumption);
  try (apply preserves_modify_world; intros; assumption).

(** The statements of [read_results] after the results of the log were
    put into the Result Mapping. *)
Definition after_log : M unit :=
  v ← get_self;
  (if bool_decide ("stress" ∈ dom (results v)) then mret tt
   else update_results {["stress" := PNone]});;
  _set_old_keywords;;
  _store_param_state.

Lemma preserves_tail P :
  (forall w f, P w -> P (with_self (with_old_keywords f (self w)) w)) ->
  (forall w g, P w -> P (with_self (with_gvi (with_spinpol g (gvi (self w))) (self w)) w)) ->
  (forall w s, P w -> P (with_self (with_param_state s (self w)) w)) ->
  preserves P (_set_old_keywords;; _store_param_state).
Proof.
  intros Hold Hspin Hstate.
  unfold _set_old_keywords, get_xml_calc, set_old_keyword, _store_param_state.
  frame; apply preserves_modify_self; intros; auto.
Qed.

Lemma read_results_has k : preserves (has_result k) read_results.
Proof.
  unfold read_results, load_file_OUTCAR, _read_xml, get_dir,
    read_convergence, read_relaxed, read_version, read_mag, read_dipole,
    read_nbands, _read_magnetic_moment, _read_magnetic_moments, len_atoms, deref,
    lines_or_OUTCAR, load_file_OUTCAR, get_dir, warn,
    _set_old_keywords, get_xml_calc, set_old_keyword, _store_param_state.
  frame_results.
Qed.

Lemma read_results_files w0 : preserves (same_files w0) read_results.
Proof.
  unfold read_results, update_results, load_file_OUTCAR, _read_xml, get_dir,
    read_convergence, read_relaxed, read_version, read_mag, read_dipole,
    read_nbands, _read_magnetic_moment, _read_magnetic_moments, len_atoms, deref,
    lines_or_OUTCAR, load_file_OUTCAR, get_dir, warn,
    _set_old_keywords, get_xml_calc, set_old_keyword, _store_param_state.
  frame;
    try (apply preserves_modify_self; intros; assumption);
    try (apply preserves_modify_world; intros; assumption).
Qed.

(** X20.  When [read_results] returns, the Result Mapping has the forces,
    the total and the per-atom moments, the dipole, the number of bands
    and a stress, which is [None] when [vasprun.xml] gave none; it has
    lost no entry that it had before; the parameters are stored as
    [_store_param_state] stores them, so that [check_state] finds no
    parameter changed; and neither a structure nor a file has changed. *)
Theorem read_results_stores (w w' : World) :
  read_results w = (w', Ok tt) ->
  (forall k, k ∈ ["forces"; "magmom"; "magmoms"; "dipole"; "nbands"; "stress"] ->
     has_result k w') /\
  (forall k, has_result k w -> has_result k w') /\
  (forall d c, fs w !! directory (self w) = Some d -> vasprun_xml d = XmlRead c ->
     xml_results c !! "stress" = None -> results (self w) !! "stress" = None ->
     results (self w') !! "stress" = Some PNone) /\
  param_state (self w') = snapshot (gvi (self w')) /\
  changed_params (gvi (self w')) (param_state (self w')) = [] /\
  heap w' = heap w /\ fs w' = fs w.
Proof.
  intros Hr.
  assert (Hkeep : forall k, has_result k w -> has_result k w').
  { intros k Hk. pose proof (read_results_has k w Hk) as Hp.
    rewrite Hr in Hp. exact Hp. }
  assert (Hfiles : same_files w w').
  { pose proof (read_results_files w w (conj eq_refl eq_refl)) as Hp.
    rewrite Hr in Hp. exact Hp. }
  unfold read_results in Hr.
  apply bind_Ok in Hr as (w1 & outcar & Hout & Hr).
  assert (w1 = w) as ->.
  { pose proof (lines_or_OUTCAR_frame None w) as Hf.
    change (lines_or_OUTCAR None w) with (load_file_OUTCAR w) in Hf.
    rewrite Hout in Hf. exact Hf. }
  apply bind_Ok in Hr as (w2 & c & Hxml & Hr).
  assert (Hxml' : exists d, fs w !! directory (self w) = Some d /\
                    vasprun_xml d = XmlRead c /\
                    w2 = with_self (with_xml_calc (Some c) (self w)) w).
  { unfold _read_xml, get_dir in Hxml. mrun.
    destruct (fs w !! directory (self w)) as [d|]; cbn in Hxml; [|discriminate].
    destruct (vasprun_xml d) as [| | |c'] eqn:Hv; try discriminate.
    injection Hxml as <- <-. eauto. }
  destruct Hxml' as (d0 & Hd0 & Hv0 & ->).
  apply bind_Ok in Hr as (w3 & v & Hself & Hr). injection Hself as <- <-.
  apply bind_Ok in Hr as (w4 & forces & Hlk & Hr).
  unfold lift in Hlk. injection Hlk as <- Hlk.
  apply bind_Ok in Hr as (w5 & forces' & Hrs & Hr).
  unfold lift in Hrs. injection Hrs as <- Hrs.
  apply bind_Ok in Hr as (w6 & [] & Hmod & Hr). injection Hmod as <-.
  apply bind_Ok in Hr as (w7 & [] & Hupd & Hr). injection Hupd as <-.
  match type of Hr with _ ?w0 = _ => set (wx := w0) in * end.
  assert (Hforces : has_result "forces" wx).
  { exists forces'. unfold wx. cbn. apply lookup_union_Some_l. apply lookup_insert_eq. }
  assert (Hstress0 : xml_results c !! "stress" = None ->
            results (self w) !! "stress" = None ->
            results (self wx) !! "stress" = None).
  { intros Hx Hw. unfold wx. cbn. apply lookup_union_None. split; [|exact Hw].
    rewrite lookup_insert_ne by discriminate. exact Hx. }
  apply bind_Ok in Hr as (w8 & converged & Hconv & Hr).
  apply bind_Ok in Hr as (w9 & [] & Hmod & Hr). injection Hmod as <-.
  apply bind_Ok in Hr as (w10 & version & Hver & Hr).
  apply bind_Ok in Hr as (w11 & [] & Hmod & Hr). injection Hmod as <-.
  apply bind_Ok in Hr as (w12 & [magmom magmoms] & Hmag & Hr).
  apply bind_Ok in Hr as (w13 & dipole & Hdip & Hr).
  apply bind_Ok in Hr as (w14 & nbands & Hnb & Hr).
  apply bind_Ok in Hr as (w15 & [] & Hupd & Hr). injection Hupd as <-.
  fold after_log in Hr.
  pose (keeps := fun r (w0 : World) => results (self w0) = r).
  assert (Hreaders : forall r, keeps r wx -> keeps r w14).
  { intros r Hwx.
    assert (Hp : forall (lines : option (list string)),
      preserves (keeps r) (read_convergence lines) /\
      preserves (keeps r) read_version /\
      preserves (keeps r) (read_mag lines) /\
      preserves (keeps r) (read_dipole lines) /\
      preserves (keeps r) (read_nbands lines)).
    { intros lines.
      unfold read_convergence, read_relaxed, read_version, read_mag, read_dipole,
        read_nbands, _read_magnetic_moment, _read_magnetic_moments, len_atoms, deref,
        lines_or_OUTCAR, load_file_OUTCAR, get_dir, warn.
      repeat split; frame;
        try (apply preserves_modify_self; intros; assumption);
        try (apply preserves_modify_world; intros; assumption). }
    destruct (Hp (Some outcar)) as (Pc & Pv & Pm & Pd & Pn).
    assert (H8 : keeps r w8).
    { pose proof (Pc wx Hwx) as Hq. rewrite Hconv in Hq. exact Hq. }
    assert (H10 : keeps r w10).
    { match type of Hver with _ ?w0 = _ =>
        pose proof (Pv w0 H8) as Hq end. rewrite Hver in Hq. exact Hq. }
    assert (H12 : keeps r w12).
    { match type of Hmag with _ ?w0 = _ =>
        pose proof (Pm w0 H10) as Hq end. rewrite Hmag in Hq. exact Hq. }
    assert (H13 : keeps r w13).
    { pose proof (Pd w12 H12) as Hq. rewrite Hdip in Hq. exact Hq. }
    pose proof (Pn w13 H13) as Hq. rewrite Hnb in Hq. exact Hq. }
  match type of Hr with _ ?w0 = _ => set (wy := w0) in * end.
  assert (Hnew : forall k, k ∈ ["magmom"; "magmoms"; "dipole"; "nbands"] ->
            has_result k wy).
  { intros k Hk. unfold has_result, wy. cbn.
    repeat (apply elem_of_cons in Hk as [->|Hk];
            [eexists; apply lookup_union_Some_l; reflexivity|]).
    inversion Hk. }
  assert (Hstress1 : xml_results c !! "stress" = None ->
            results (self w) !! "stress" = None ->
            results (self wy) !! "stress" = None).
  { intros Hx Hw. unfold wy. cbn. apply lookup_union_None. split; [reflexivity|].
    pose proof (Hreaders _ eq_refl) as H14. unfold keeps in H14.
    rewrite H14. apply Hstress0; assumption. }
  unfold after_log in Hr.
  apply bind_Ok in Hr as (w16 & v16 & Hself & Hr). injection Hself as <- <-.
  apply bind_Ok in Hr as (w17 & [] & Hst & Hr).
  assert (Hst' : has_result "stress" w17 /\
            (forall k, has_result k wy -> has_result k w17) /\
            (results (self wy) !! "stress" = None ->
             results (self w17) !! "stress" = Some PNone)).
  { assert (Hst0 : (if bool_decide ("stress" ∈ dom (results (self wy)))
                    then mret tt else update_results {["stress" := PNone]}) wy
                   = (w17, Ok tt)) by exact Hst.
    clear Hst. rename Hst0 into Hst.
    destruct (bool_decide ("stress" ∈ dom (results (self wy)))) eqn:Hdom.
    - unfold mret, M_ret in Hst. injection Hst as <-. apply bool_decide_eq_true in Hdom.
      split; [apply elem_of_dom; exact Hdom|]. split; [auto|].
      intros Hnone. apply not_elem_of_dom in Hnone. contradiction.
    - unfold update_results, modify_self, modify_world in Hst.
      injection Hst as <-. split; [|split].
      + eexists. cbn. apply lookup_union_Some_l. apply lookup_singleton_eq.
      + intros k Hk. exact (preserves_update_has k _ wy Hk).
      + intros _. cbn. apply lookup_union_Some_l. apply lookup_singleton_eq. }
  destruct Hst' as (Hstress & Hmono & Hnone).
  assert (Htail : forall r, keeps r w17 -> keeps r w').
  { intros r Hw17.
    assert (Hp : preserves (keeps r) (_set_old_keywords;; _store_param_state))
      by (apply preserves_tail; intros; assumption).
    specialize (Hp w17 Hw17). rewrite Hr in Hp. exact Hp. }
  assert (Hhas : forall k, has_result k w17 -> has_result k w').
  { intros k Hk. unfold has_result. pose proof (Htail _ eq_refl) as Ht.
    unfold keeps in Ht. rewrite Ht. exact Hk. }
  assert (Hstate : param_state (self w') = snapshot (gvi (self w'))).
  { apply bind_Ok in Hr as (w18 & [] & _ & Hr). injection Hr as <-. reflexivity. }
  split; [|split; [exact Hkeep|split; [|split; [exact Hstate|split]]]].
  - intros k Hk. apply elem_of_cons in Hk as [->|Hk].
    + apply Hhas, Hmono. pose proof (Hreaders _ eq_refl) as H14. unfold keeps in H14.
      unfold has_result in *. rewrite <- H14 in Hforces.
      destruct Hforces as [x Hx]. exists x. unfold wy. cbn.
      apply lookup_union_Some_raw. right. split; [reflexivity|exact Hx].
    + apply Hhas.
      assert (Hcases : k ∈ ["magmom"; "magmoms"; "dipole"; "nbands"] \/ k = "stress").
      { do 4 (apply elem_of_cons in Hk as [->|Hk];
                [left; repeat (first [apply list_elem_of_here|apply list_elem_of_further])|]).
        apply elem_of_cons in Hk as [->|Hk]; [right; reflexivity|inversion Hk]. }
      destruct Hcases as [Hin| ->]; [apply Hmono, Hnew; exact Hin|exact Hstress].
  - intros d c' Hd Hv Hx Hw. rewrite Hd0 in Hd. injection Hd as <-.
    rewrite Hv0 in Hv. injection Hv as <-.
    pose proof (Htail _ eq_refl) as Ht. unfold keeps in Ht.
    rewrite Ht. apply Hnone. apply Hstress1; assumption.
  - rewrite Hstate. apply changed_params_snapshot.
  - exact Hfiles.
Qed.

End Results.

(** A finished run of the calculator of [magnetic_world]: the log, and a
    [vasprun.xml] without a stress. *)
Definition finished_log : list string :=
  [" vasp.5.4.4.18Apr17-6-g9f103f2a35 (build Apr 1 2020) complex";
   "   EDIFF  = 0.1E-03   stopping-criterion for ELM";
   " number of electron       8.0000000 magnetization       2.0000000";
   "   number of bands    NBANDS=     12"].

Definition finished_xml : XmlCalc :=
  mkXmlCalc
    (<["forces" := PList [floats [0; 0; 1 # 10]%Q; floats [0; 0; - (1 # 10)]%Q]]>
       (<["energy" := PFloat (-3 # 2)]> {["free_energy" := PFloat (-8 # 5)]}))
    true (PFloat (5 # 2)).

Definition finished_world : World :=
  with_sort_index [1; 0] [1; 0]
    (with_fs {["." := mkDir (Some finished_log) None None (XmlRead finished_xml)]}
       magnetic_world).

Lemma read_results_stores_witness :
  exists w',
    read_results finished_world = (w', Ok tt) /\
    results (self w') !! "stress" = Some PNone /\
    has_result "magmoms" w' /\
    param_state (self w') = snapshot (gvi (self w')).
Proof.
  destruct (read_results finished_world) as [w' [e|[]]] eqn:Hr;
    [vm_compute in Hr; discriminate|].
  exists w'. split; [reflexivity|].
  destruct (read_results_stores finished_world w' Hr)
    as (Hhas & _ & Hstress & Hstate & _).
  split; [|split; [|exact Hstate]].
  - apply (Hstress (mkDir (Some finished_log) None None (XmlRead finished_xml))
             finished_xml); reflexivity.
  - apply Hhas. repeat (first [apply list_elem_of_here|apply list_elem_of_further]).
Defined.

(** ** A sort file that breaks off *)

Lemma for_each_app {A} (l1 l2 : list A) (body : A -> M unit) w :
  for_each (l1 ++ l2) body w = (for_each l1 body;; for_each l2 body) w.
Proof.
  revert w. induction l1 as [|x l1 IH]; intros w; [reflexivity|].
  cbn [app for_each]. unfold mbind, M_bind in *.
  destruct (body x w) as [w1 [e|[]]]; [reflexivity|]. apply IH.
Qed.

Section BrokenSort.

Context `{Parent}.

(** X21.  [read_sort] does not put the sort index back when the file turns
    out to be malformed: the index that the calculator had is lost, and
    what it has instead are the numbers of the lines before the bad one;
    when only the second token of the bad line is no integer, [sort] has
    one entry more than [resort]. *)
Theorem read_sort_breaks_off (w : World) (d : Dir)
    (good : list string) (bad : string) (rest : list string) (xs ys : list Z) :
  fs w !! directory (self w) = Some d ->
  ase_sort_dat d = Some (good ++ bad :: rest)%list ->
  Forall3 (fun line x y =>
             exists a b, Py.split line = [a; b] /\
                         Py.int a = Some x /\ Py.int b = Some y) good xs ys ->
  (length (Py.split bad) <> 2%nat ->
   read_sort w = (with_sort_index xs ys w, Raise ValueError)) /\
  (forall a b, Py.split bad = [a; b] -> Py.int a = None ->
   read_sort w = (with_sort_index xs ys w, Raise ValueError)) /\
  (forall a b x, Py.split bad = [a; b] -> Py.int a = Some x -> Py.int b = None ->
   read_sort w = (with_sort_index (xs ++ [x]) ys w, Raise ValueError)).
Proof.
  intros Hd Hfd Hgood.
  assert (Hrun : forall w1,
    read_sort_line bad (with_sort_index xs ys w) = (w1, Raise ValueError) ->
    read_sort w = (w1, Raise ValueError)).
  { intros w1 Hbad.
    assert (H0 : for_each good read_sort_line (with_sort_index [] [] w)
                 = (with_sort_index xs ys w, Ok tt))
      by (rewrite (for_each_lines_Ok _ _ _ _ Hgood); reflexivity).
    assert (Hdir : get_dir w = (w, Ok (Some d)))
      by (unfold get_dir; mrun; rewrite Hd; reflexivity).
    unfold read_sort. rewrite (bind_step _ _ _ _ _ Hdir).
    cbn [mbind option_bind]. rewrite Hfd.
    rewrite (bind_step (modify_self (fun v => with_gvi (with_sort [] [] (gvi v)) v)) _
               w (with_sort_index [] [] w) tt eq_refl).
    rewrite for_each_app. rewrite (bind_step _ _ _ _ _ H0). cbn [for_each].
    rewrite (bind_raise _ _ _ _ _ Hbad). reflexivity. }
  split; [|split].
  - intros Hlen. apply Hrun. unfold read_sort_line.
    destruct (Py.split bad) as [|a [|b [|c l]]]; try reflexivity.
    cbn in Hlen. congruence.
  - intros a b Hs Ha. apply Hrun. unfold read_sort_line. rewrite Hs. mrun.
    rewrite Ha. reflexivity.
  - intros a b x Hs Ha Hb. apply Hrun. unfold read_sort_line. rewrite Hs. mrun.
    rewrite Ha, Hb. reflexivity.
Qed.

End BrokenSort.

(** A calculator with a sort index, and a sort file whose second line
    breaks off. *)
Definition broken_sort_world : World :=
  with_sort_index [1; 0] [1; 0]
    (with_fs {["." := mkDir None (Some ["1 2"; "0 "; "2 0"]) None XmlAbsent]}
       (Fresh.world 0)).

Lemma read_sort_breaks_off_witness :
  read_sort broken_sort_world
    = (with_sort_index [1] [2] broken_sort_world, Raise ValueError).
Proof.
  destruct (read_sort_breaks_off broken_sort_world
              (mkDir None (Some ["1 2"; "0 "; "2 0"]) None XmlAbsent)
              ["1 2"] "0 " ["2 0"] [1] [2] eq_refl eq_refl) as (Hcount & _).
  { repeat constructor. exists "1", "2". repeat split; vm_compute; reflexivity. }
  apply Hcount. vm_compute. discriminate.
Defined.

(** ** The dipole of the log *)

Definition no_dipole (line : string) : Prop := Py.contains "dipolmoment" line = false.

Lemma mapR_length {A B} (f : A -> result B) l out :
  mapR f l = Ok out -> length out = length l.
Proof. intros Hm. apply mapR_Forall2, Forall2_length in Hm. auto. Qed.

(** X22.  [read_dipole] returns the numbers of the second to the fourth
    token of the last line that holds [dipolmoment], as one row of at most
    three numbers, fewer when the line is shorter; without such a line it
    returns one row of three zeros inside an array: the shape differs. *)
Theorem read_dipole_last_line (w : World) (lines : option (list string))
    (ls : list string) :
  snd (lines_or_OUTCAR lines w) = Ok ls ->
  (Forall no_dipole ls ->
   read_dipole lines w = (w, Ok (PList [floats [0%Q; 0%Q; 0%Q]]))) /\
  (forall before line after dipolemoment xs,
     ls = (before ++ line :: after)%list ->
     foldR dipole_step (PList [floats [0%Q; 0%Q; 0%Q]]) before = Ok dipolemoment ->
     Py.contains "dipolmoment" line = true ->
     mapR to_float (Seq.slice 1 4 (Py.split line)) = Ok xs ->
     Forall no_dipole after ->
     read_dipole lines w = (w, Ok (floats xs)) /\
     length xs = Nat.min 3 (length (Py.split line) - 1)).
Proof.
  intros Hls.
  assert (Hskip : forall s y, no_dipole y -> dipole_step s y = Ok s).
  { intros s y Hy. unfold dipole_step. rewrite Hy. reflexivity. }
  split.
  - intros Hno. unfold read_dipole. rewrite (reader_lines _ _ _ _ Hls).
    rewrite (foldR_skip _ _ _ _ Hskip Hno). reflexivity.
  - intros before line after dipolemoment xs -> Hb Hc Hx Ha. split.
    + unfold read_dipole. rewrite (reader_lines _ _ _ _ Hls).
      rewrite (foldR_last _ _ _ _ (floats xs) _ _ _ Hskip Hb); [reflexivity| |exact Ha].
      unfold dipole_step. rewrite Hc, Hx. reflexivity.
    + apply mapR_length in Hx. rewrite Hx. unfold Seq.slice.
      rewrite length_take, length_drop. lia.
Qed.

Definition dipole_log : list string :=
  [" dipolmoment          0.000000     0.000000     0.250000 electrons x Angstroem";
   " dipolmoment          0.000000     0.500000 ";
   " end"].

Lemma read_dipole_last_line_witness :
  read_dipole (Some dipole_log) (Fresh.world 0)
    = (Fresh.world 0, Ok (floats [(0 # 1000000)%Q; (500000 # 1000000)%Q])) /\
  read_dipole (Some [" end"]) (Fresh.world 0)
    = (Fresh.world 0, Ok (PList [floats [0%Q; 0%Q; 0%Q]])).
Proof.
  split.
  - destruct (read_dipole_last_line (Fresh.world 0) (Some dipole_log) dipole_log
                eq_refl) as [_ Hlast].
    destruct (Hlast [" dipolmoment          0.000000     0.000000     0.250000 electrons x Angstroem"]
                " dipolmoment          0.000000     0.500000 " [" end"]
                (floats [(0 # 1000000)%Q; (0 # 1000000)%Q; (250000 # 1000000)%Q])
                [(0 # 1000000)%Q; (500000 # 1000000)%Q]
                eq_refl ltac:(vm_compute; reflexivity) ltac:(vm_compute; reflexivity)
                ltac:(vm_compute; reflexivity) ltac:(repeat constructor)) as [Hr _].
    exact Hr.
  - destruct (read_dipole_last_line (Fresh.world 0) (Some [" end"]) [" end"] eq_refl)
      as [Hnone _].
    apply Hnone. repeat constructor.
Defined.

(** ** The total magnetic moment *)

Definition no_moment (line : string) : Prop :=
  Py.contains "number of electron  " line = false.

(** X23.  [_read_magnetic_moment] returns the last token of the last line
    that holds [number of electron  ], provided the lines with that text
    before it could be read; on a log without such a line it raises
    [UnboundLocalError], for it has nothing to return.  The world stays as
    it is. *)
Theorem magnetic_moment_last_line (w : World) (lines : option (list string))
    (ls : list string) :
  snd (lines_or_OUTCAR lines w) = Ok ls ->
  (Forall no_moment ls ->
   _read_magnetic_moment lines w = (w, Raise (UnboundLocalError "magnetic_moment"))) /\
  (forall before line after m x q,
     ls = (before ++ line :: after)%list ->
     foldR magnetic_moment_step None before = Ok m ->
     Py.contains "number of electron  " line = true ->
     last_item (Py.split line) = Ok x -> Py.float x = Some q ->
     Forall no_moment after ->
     _read_magnetic_moment lines w = (w, Ok q)).
Proof.
  intros Hls.
  assert (Hskip : forall s y, no_moment y -> magnetic_moment_step s y = Ok s).
  { intros s y Hy. unfold magnetic_moment_step. rewrite Hy. reflexivity. }
  assert (Hrun : _read_magnetic_moment lines w = (w, net_moment ls)).
  { apply lines_or_OUTCAR_again in Hls as [Hl _].
    unfold _read_magnetic_moment, net_moment. unfold mbind at 1, M_bind at 1.
    rewrite Hl. mrun.
    destruct (foldR magnetic_moment_step None ls); reflexivity. }
  rewrite Hrun. unfold net_moment. split.
  - intros Hno. rewrite (foldR_skip _ _ _ _ Hskip Hno). reflexivity.
  - intros before line after m x q -> Hb Hc Hx Hq Ha.
    rewrite (foldR_last _ _ _ _ (Some q) _ _ _ Hskip Hb); [reflexivity| |exact Ha].
    unfold magnetic_moment_step. rewrite Hc, Hx. cbn [mbind result_bind].
    unfold to_float. rewrite Hq. reflexivity.
Qed.

Lemma magnetic_moment_last_line_witness :
  _read_magnetic_moment (Some (magnetic_log ++ [" end"])%list) (Fresh.world 0)
    = (Fresh.world 0, Ok (20000000 # 10000000)%Q) /\
  _read_magnetic_moment (Some [" end"]) (Fresh.world 0)
    = (Fresh.world 0, Raise (UnboundLocalError "magnetic_moment")).
Proof.
  split.
  - destruct (magnetic_moment_last_line (Fresh.world 0)
                (Some (magnetic_log ++ [" end"])%list) (magnetic_log ++ [" end"])%list eq_refl)
      as [_ Hlast].
    apply (Hlast [] " number of electron       8.0000000 magnetization       2.0000000"
             [" end"] None "2.0000000" (20000000 # 10000000)%Q eq_refl eq_refl
             ltac:(vm_compute; reflexivity) ltac:(vm_compute; reflexivity)
             ltac:(vm_compute; reflexivity)).
    repeat constructor.
  - destruct (magnetic_moment_last_line (Fresh.world 0) (Some [" end"]) [" end"]
                eq_refl) as [Hnone _].
    apply Hnone. repeat constructor.
Defined.

(** X24.  For a calculation that is not spin-polarized [read_mag] returns
    a total moment of zero and a zero for every site, whatever the log
    holds, and warns of nothing; it still needs the lines, raising
    [FileNotFoundError] when none are passed and there is no [OUTCAR], and
    a structure, raising [TypeError] when the calculator has none. *)
Theorem read_mag_unpolarized (w : World) (lines : option (list string)) :
  PyVal.truthy (spinpol (gvi (self w))) = false ->
  (forall ls l a,
     snd (lines_or_OUTCAR lines w) = Ok ls ->
     _atoms (self w) = Some l -> heap w !! l = Some a ->
     read_mag lines w = (w, Ok (0%Q, replicate (natoms a) 0%Q))) /\
  (forall ls,
     snd (lines_or_OUTCAR lines w) = Ok ls -> _atoms (self w) = None ->
     read_mag lines w = (w, Raise TypeError)) /\
  (forall e,
     snd (lines_or_OUTCAR lines w) = Raise e ->
     read_mag lines w = (w, Raise e) /\
     e = FileNotFoundError (_indir (directory (self w)) "OUTCAR")).
Proof.
  intros Hspin. split; [|split].
  - intros ls l a Hls Hat Ha. apply lines_or_OUTCAR_again in Hls as [Hl _].
    unfold read_mag. rewrite (bind_step _ _ _ _ _ Hl).
    rewrite (bind_step get_self _ w w (self w) eq_refl). cbv zeta. rewrite Hspin.
    unfold len_atoms, deref. mrun. rewrite Hat. cbn. rewrite Ha. reflexivity.
  - intros ls Hls Hat. apply lines_or_OUTCAR_again in Hls as [Hl _].
    unfold read_mag. rewrite (bind_step _ _ _ _ _ Hl).
    rewrite (bind_step get_self _ w w (self w) eq_refl). cbv zeta. rewrite Hspin.
    unfold len_atoms. mrun. rewrite Hat. reflexivity.
  - intros e He. pose proof (lines_or_OUTCAR_frame lines w) as Hfr.
    destruct (lines_or_OUTCAR lines w) as [w1 r] eqn:Hl. cbn in He, Hfr. subst w1 r.
    split.
    + unfold read_mag. rewrite (bind_raise _ _ _ _ _ Hl). reflexivity.
    + unfold lines_or_OUTCAR, load_file_OUTCAR, get_dir in Hl.
      destruct lines as [[|x ls]|]; mrun;
        try (destruct (option_bind _ _ _ _); cbn in Hl; congruence).
      discriminate.
Qed.

(** The calculator of [magnetic_world], not spin-polarized. *)
Definition unpolarized_world : World :=
  with_self (with_gvi (with_spinpol (PBool false) (gvi (self magnetic_world)))
               (self magnetic_world)) magnetic_world.

Lemma read_mag_unpolarized_witness :
  read_mag (Some magnetic_log) unpolarized_world
    = (unpolarized_world, Ok (0%Q, [0%Q; 0%Q])) /\
  read_mag None unpolarized_world
    = (unpolarized_world, Raise (FileNotFoundError "OUTCAR")).
Proof.
  destruct (read_mag_unpolarized unpolarized_world (Some magnetic_log) eq_refl)
    as (Hzero & _).
  destruct (read_mag_unpolarized unpolarized_world None eq_refl) as (_ & _ & Herr).
  split.
  - apply (Hzero magnetic_log 1%positive cubic); reflexivity.
  - destruct (Herr (FileNotFoundError "OUTCAR") eq_refl) as [Hr _]. exact Hr.
Defined.
